(** * Deribit WebSocket tester: a shallow embedding of [websocket_tester.py]

    The four run modes of [DeribitWebSocketTester] (stress, latency,
    tick analysis, reconnection) are event loops around a socket and a
    clock.  Each one is embedded as a transition function over the
    observations the loop makes of its environment: a clock reading, the
    outcome of a connect, of a send, of a receive, the end of a sleep.
    The tick analyser [_analyze_tick_data] is a plain function.

    Numbers.  Python floats (times in seconds, delays in milliseconds) are
    embedded as rationals [Q]: every finite float is a rational, and the
    comparisons the code makes against 0, 50, 100, 200, 500 and 10000 are
    exact.  Sums and quotients are the exact ones, rounding is left out:
    of an average the theorems below say only of what it is the quotient,
    but for the example of C6, which is exact in floats as well.  Where the
    code converts a number that does not fit a float, or squares one, the
    embedding raises OverflowError as Python does.  NaN and the infinities
    are not represented.  Counters are [nat], durations given on the
    command line are [Z]. *)

From Stdlib Require Import QArith Qabs Lqa ZArith Lia String Ascii Bool Arith List.
Import ListNotations.

(** ** Rational comparisons as the code writes them *)

Definition Qltb (x y : Q) : bool := negb (Qle_bool y x).

Lemma Qltb_lt (x y : Q) : Qltb x y = true <-> (x < y)%Q.
Proof.
  unfold Qltb. rewrite negb_true_iff. split; intro H.
  - apply Qnot_le_lt. intro Hle. apply Qle_bool_iff in Hle. congruence.
  - destruct (Qle_bool y x) eqn:E; [|reflexivity].
    apply Qle_bool_iff in E. exfalso. apply (Qlt_not_le x y); assumption.
Qed.

Lemma Qltb_ge (x y : Q) : Qltb x y = false <-> (y <= x)%Q.
Proof.
  unfold Qltb. rewrite negb_false_iff. apply Qle_bool_iff.
Qed.

Lemma Qle_bool_gt (x y : Q) : Qle_bool x y = false <-> (y < x)%Q.
Proof.
  rewrite <- Qltb_lt. unfold Qltb. rewrite negb_true_iff. reflexivity.
Qed.

(** ** Python values and exceptions *)

Inductive exn : Type :=
| TimeoutError        (* asyncio.TimeoutError *)
| ConnectionClosed    (* websockets.exceptions.ConnectionClosed *)
| JSONDecodeError
| TypeError
| KeyError
| AttributeError
| ValueError
| ZeroDivisionError
| OverflowError
| OSError.

Inductive result (A : Type) : Type :=
| Ok (a : A)
| Raise (e : exn).
Arguments Ok {A} a.
Arguments Raise {A} e.

Definition bind {A B : Type} (r : result A) (k : A -> result B) : result B :=
  match r with
  | Ok a => k a
  | Raise e => Raise e
  end.

Notation "x <- r ;; k" := (bind r (fun x => k))
  (at level 61, r at next level, right associativity).

(** What [json.loads] returns.  [JObj] holds the items of the dict, keys
    distinct; Python's [None] is [JNull].  [JNum] holds an int or a finite
    float: the literals NaN and Infinity, which [json.loads] also accepts,
    have no counterpart here. *)
#[warnings="-register-all"]
Inductive json : Type :=
| JNull
| JBool (b : bool)
| JNum (q : Q)
| JStr (s : string)
| JArr (xs : list json)
| JObj (items : list (string * json)).

Fixpoint assoc {V : Type} (k : string) (items : list (string * V)) : option V :=
  match items with
  | [] => None
  | (k', v) :: rest => if String.eqb k k' then Some v else assoc k rest
  end.

(** [s in t] on two strings. *)
Fixpoint substringb (s t : string) : bool :=
  String.prefix s t ||
  match t with
  | EmptyString => false
  | String _ t' => substringb s t'
  end.

Definition is_str (k : string) (v : json) : bool :=
  match v with
  | JStr s => String.eqb k s
  | _ => false
  end.

(** [k in v] for a string [k]: key of a dict, element of a list, substring
    of a string; anything else is not iterable. *)
Definition py_in (k : string) (v : json) : result bool :=
  match v with
  | JObj items => Ok (match assoc k items with Some _ => true | None => false end)
  | JArr xs => Ok (existsb (is_str k) xs)
  | JStr s => Ok (substringb k s)
  | _ => Raise TypeError
  end.

(** [v[k]] for a string [k]. *)
Definition py_getitem (v : json) (k : string) : result json :=
  match v with
  | JObj items => match assoc k items with Some x => Ok x | None => Raise KeyError end
  | _ => Raise TypeError
  end.

(** [v.get(k, default)]. *)
Definition py_get (v : json) (k : string) (default : json) : result json :=
  match v with
  | JObj items => Ok (match assoc k items with Some x => x | None => default end)
  | _ => Raise AttributeError
  end.

(** A value used as a number: a bool is an int in Python. *)
Definition py_number (v : json) : result Q :=
  match v with
  | JNum q => Ok q
  | JBool b => Ok (if b then 1 else 0)%Q
  | _ => Raise TypeError
  end.

Definition py_truthy (v : json) : bool :=
  match v with
  | JNull => false
  | JBool b => b
  | JNum q => negb (Qeq_bool q 0)
  | JStr s => negb (String.eqb s "")
  | JArr xs => match xs with [] => false | _ => true end
  | JObj items => match items with [] => false | _ => true end
  end.

Definition py_or (a b : json) : json := if py_truthy a then a else b.

Definition is_none (v : json) : bool :=
  match v with JNull => true | _ => false end.

(** ** The environment *)

(** One observation of the environment by a running coroutine. *)
Inductive obs : Type :=
| Now (t : Q)                    (* time.time() or datetime.now(), in seconds *)
| ConnectDone (r : result unit)  (* websockets.connect(self.ws_url) *)
| SendDone (r : result unit)     (* await websocket.send(...) *)
| RecvDone (r : result string)   (* await asyncio.wait_for(websocket.recv(), timeout=...) *)
| SleepDone.                     (* await asyncio.sleep(1) *)

(** Where a coroutine stands.  The first four phases are the common
    prologue: connect, [authenticate], [subscribe_to_channels]. *)
Inductive phase : Type :=
| Connecting
| AuthSending
| AuthWaiting
| Subscribing
| Starting                 (* about to read the clock for the start time *)
| Checking                 (* about to evaluate the while condition *)
| Receiving                (* inside await ... recv() *)
| Stamping (message : string)  (* about to read the receive time *)
| Timing                   (* reconnection_test: about to read connection_start *)
| Draining                 (* reconnection_test: the inner while condition *)
| Sleeping
| Finished (failure : option exn)
| Stuck.                   (* an observation that cannot occur here *)

Inductive level : Type := INFO | WARNING | ERROR.

(** Log records, kept as data: the numbers are the ones handed to the
    format string, before any rounding to text.  Lines that only announce
    a run or print a heading are left out. *)
Inductive entry : Type :=
| NoCredentials
| AuthenticationSuccessful
| AuthenticationFailed (data : json)
| AuthenticationError (e : exn)
| Subscribed (channels : list string)
| LatencyResults (count : nat) (avg lo hi : Q)
| NoValidLatency
| LatencyTestFailed (e : exn)
(* single_connection_test *)
| ReceivedSignal
| StartingConnection (id : nat)
| MessagesReceived (id count : nat)
| ClosedUnexpectedly (id : nat)
| ConnectionError (id : nat) (e : exn)
| ConnectionCompleted (id count : nat)
| ConnectionFailed (id : nat) (e : exn)
(* reconnection_test *)
| Disconnecting (count : nat)
| ReconnectionError (e : exn)
| ReconnectionCompleted (reconnections : nat)
(* tick_by_tick_delay_test *)
| ProcessedTicks (count : nat) (delay : option Q)
| TickError (e : exn)
| TickTestFailed (e : exn)
(* _analyze_tick_data *)
| Banner
| TotalDuration (duration : Z)
| TotalTicks (n : nat)
| AverageTicksPerSecond (r : Q)
| NoDataReceived (channel : string)
| ChannelHeader (channel : string)
| ChannelTicks (n : nat)
| TicksPerSecond (r : Q)
| DelayStatistics (avg median lo hi : Q)
| DelayStdDev (variance : Q)
| DelayDistribution (range_name : string) (count : nat) (percentage : Q)
| DataSizeStatistics (avg : Q) (lo hi : nat)
| PriceMovement (updates changes : nat) (frequency : Q)
| AveragePriceChange (avg : Q)
| SampleTick (number : nat) (delay price : option Q) (size : nat)
| OverallSummary (with_delay : nat) (avg : Q)
| PerformanceRating (rating : string).

Module WebSocketMessage.
Record t : Type := {
  timestamp : Q;
  message_type : json;
  channel : json;
  data : json;
  latency : option Q
}.
End WebSocketMessage.

Record config : Type := {
  ws_url : string;
  client_id : option string;
  client_secret : option string
}.

Definition truthy_env (v : option string) : bool :=
  match v with
  | Some s => negb (String.eqb s "")
  | None => false
  end.

Definition has_credentials (cfg : config) : bool :=
  truthy_env (client_id cfg) && truthy_env (client_secret cfg).

(** ** Sums and extrema of a list of floats *)

Definition Qsum (l : list Q) : Q := fold_left Qplus l 0%Q.

(** [min(l)] and [max(l)] on a non-empty list: the first smallest, the
    first largest. *)
Definition Qmin_list (x : Q) (l : list Q) : Q :=
  fold_left (fun m y => if Qltb y m then y else m) l x.

Definition Qmax_list (x : Q) (l : list Q) : Q :=
  fold_left (fun m y => if Qltb m y then y else m) l x.

(** [a / b] on floats. *)
Definition py_div (a b : Q) : result Q :=
  if Qeq_bool b 0 then Raise ZeroDivisionError else Ok (a / b)%Q.

(** Every finite float is below [float_limit] in size, and an int of that
    size or more does not convert to one. *)
Definition float_limit : Q := inject_Z (2 ^ 1024 - 2 ^ 970).

Definition overflows (q : Q) : bool := Qle_bool float_limit (Qabs q).

(** [v / 1000] for a number out of a JSON text: an int too large for the
    quotient to be a float raises ("integer division result too large for
    a float"). *)
Definition milli (v : Q) : result Q :=
  if overflows (v / 1000) then Raise OverflowError else Ok (v / 1000)%Q.

(** [v ** 2] on floats raises when the square is out of range. *)
Definition float_square (v : Q) : result Q :=
  if overflows (v * v) then Raise OverflowError else Ok (v * v)%Q.

(** A number of ordinary size: sums, differences and squares of such
    numbers stay within the floats. *)
Definition moderate_bound : Q := inject_Z (10 ^ 150).

Definition moderate (q : Q) : bool := Qle_bool (Qabs q) moderate_bound.

Definition Qnat (n : nat) : Q := inject_Z (Z.of_nat n).

(** [sorted(l)]. *)
Fixpoint Qinsert (x : Q) (l : list Q) : list Q :=
  match l with
  | [] => [x]
  | y :: rest => if Qltb x y then x :: l else y :: Qinsert x rest
  end.

Definition sorted (l : list Q) : list Q := fold_left (fun acc x => Qinsert x acc) l [].

(** A computation that logs and may raise: the records logged so far,
    and how it ended. *)
Definition action (A : Type) : Type := (list entry * result A)%type.

Definition ret {A : Type} (a : A) : action A := ([], Ok a).

Definition info (e : entry) : action unit := ([e], Ok tt).

Definition lift {A : Type} (r : result A) : action A := ([], r).

Definition and_then {A B : Type} (m : action A) (k : A -> action B) : action B :=
  match m with
  | (lines, Ok a) => let '(lines', r) := k a in (lines ++ lines', r)
  | (lines, Raise e) => (lines, Raise e)
  end.

Notation "x <~ m ;; k" := (and_then m (fun x => k))
  (at level 61, m at next level, right associativity).
Notation "m ;;; k" := (and_then m (fun _ => k))
  (at level 61, right associativity).

Fixpoint for_each {A : Type} (body : A -> action unit) (l : list A) : action unit :=
  match l with
  | [] => ret tt
  | x :: rest => body x ;;; for_each body rest
  end.

Definition when (b : bool) (m : action unit) : action unit :=
  if b then m else ret tt.

Section Tester.

(** [json.loads] and [len(str(.))] are library code: parameters. *)
Variable json_loads : string -> result json.
Variable str_len : json -> nat.
Variable cfg : config.

(** *** The prologue of every run: connect, authenticate, subscribe *)

(** The second half of [authenticate]: what it makes of the reply. *)
Definition auth_reply (r : result string) : bool * entry :=
  let verdict :=
    response <- r ;;
    data <- json_loads response ;;
    a <- py_in "result" data ;;
    b <- (if a then inner <- py_getitem data "result" ;; py_in "access_token" inner
          else Ok false) ;;
    Ok (b, data) in
  match verdict with
  | Ok (true, _) => (true, AuthenticationSuccessful)
  | Ok (false, data) => (false, AuthenticationFailed data)
  | Raise e => (false, AuthenticationError e)
  end.

Definition auth_log (r : result string) : level * entry :=
  let '(ok, line) := auth_reply r in (if ok then INFO else ERROR, line).

Inductive prologue_result : Type :=
| Next (p : phase) (log : list (level * entry))
| Failed (e : exn) (log : list (level * entry))
| Elsewhere.

Definition prologue (channels : list string) (ready : phase) (p : phase) (o : obs)
  : prologue_result :=
  match p, o with
  | Connecting, ConnectDone (Ok _) =>
      if has_credentials cfg then Next AuthSending []
      else Next Subscribing [(WARNING, NoCredentials)]
  | Connecting, ConnectDone (Raise e) => Failed e []
  | AuthSending, SendDone (Ok _) => Next AuthWaiting []
  | AuthSending, SendDone (Raise e) => Failed e []
  | AuthWaiting, RecvDone r => Next Subscribing [auth_log r]
  | Subscribing, SendDone (Ok _) => Next ready [(INFO, Subscribed channels)]
  | Subscribing, SendDone (Raise e) => Failed e []
  | _, _ => Elsewhere
  end.

(** *** [latency_test] *)

(** Lines 216-217, and 135-136: is there a producer timestamp under
    params.data? *)
Definition has_timestamp (data : json) : result bool :=
  a <- py_in "params" data ;;
  if negb a then Ok false else
  params <- py_getitem data "params" ;;
  b <- py_in "data" params ;;
  if negb b then Ok false else
  inner <- py_getitem params "data" ;;
  py_in "timestamp" inner.

(** Lines 219-220: [(receive_time - timestamp / 1000) * 1000]. *)
Definition compute_latency (receive_time : Q) (data : json) : result Q :=
  params <- py_getitem data "params" ;;
  inner <- py_getitem params "data" ;;
  ts <- py_getitem inner "timestamp" ;;
  t <- py_number ts ;;
  server_timestamp <- milli t ;;
  Ok ((receive_time - server_timestamp) * 1000)%Q.

(** Line 222: the filter on a computed latency. *)
Definition realistic (latency : Q) : bool :=
  Qltb 0 latency && Qltb latency 10000.

(** Lines 216-223: what one decoded message adds to [latencies]. *)
Definition latency_sample (receive_time : Q) (data : json) : result (option Q) :=
  h <- has_timestamp data ;;
  if h then
    latency <- compute_latency receive_time data ;;
    Ok (if realistic latency then Some latency else None)
  else Ok None.

Record latency_run : Type := {
  l_phase : phase;
  l_start : Q;
  latencies : list Q;
  l_log : list (level * entry)
}.

Definition latency_init : latency_run :=
  {| l_phase := Connecting; l_start := 0; latencies := []; l_log := [] |}.

Definition l_goto (s : latency_run) (p : phase) (log : list (level * entry)) : latency_run :=
  {| l_phase := p; l_start := l_start s; latencies := latencies s;
     l_log := l_log s ++ log |}.

(** The outer [except Exception] of [latency_test]. *)
Definition l_fail (s : latency_run) (e : exn) : latency_run :=
  l_goto s (Finished (Some e)) [(ERROR, LatencyTestFailed e)].

(** Lines 228-239, after the loop. *)
Definition latency_summary (l : list Q) : level * entry :=
  match l with
  | [] => (WARNING, NoValidLatency)
  | x :: rest =>
      (INFO, LatencyResults (length l) (Qsum l / Qnat (length l)) (Qmin_list x rest)
               (Qmax_list x rest))
  end.

Definition latency_test_step (duration : Z) (s : latency_run) (o : obs) : latency_run :=
  match prologue ["ticker.BTC-PERPETUAL.100ms"%string] Starting (l_phase s) o with
  | Next p log => l_goto s p log
  | Failed e log => l_fail (l_goto s (l_phase s) log) e
  | Elsewhere =>
      match l_phase s, o with
      | Starting, Now t =>
          {| l_phase := Checking; l_start := t; latencies := []; l_log := l_log s |}
      | Checking, Now t =>
          if Qltb (t - l_start s) (inject_Z duration) then l_goto s Receiving []
          else l_goto s (Finished None) [latency_summary (latencies s)]
      | Receiving, RecvDone (Ok message) => l_goto s (Stamping message) []
      | Receiving, RecvDone (Raise TimeoutError) => l_goto s Checking []
      | Receiving, RecvDone (Raise e) => l_fail s e
      | Stamping message, Now receive_time =>
          match (data <- json_loads message ;; latency_sample receive_time data) with
          | Ok (Some latency) =>
              {| l_phase := Checking; l_start := l_start s;
                 latencies := latencies s ++ [latency]; l_log := l_log s |}
          | Ok None => l_goto s Checking []
          | Raise TimeoutError => l_goto s Checking []
          | Raise e => l_fail s e
          end
      | Finished f, _ => s
      | _, _ => l_goto s Stuck []
      end
  end.

Definition latency_test (duration : Z) (trace : list obs) : latency_run :=
  fold_left (latency_test_step duration) trace latency_init.

(** *** [single_connection_test] and [stress_test] *)

(** Lines 134-138: the latency stored with a message, unfiltered. *)
Definition message_latency (receive_time : Q) (data : json) : result (option Q) :=
  h <- has_timestamp data ;;
  if h then latency <- compute_latency receive_time data ;; Ok (Some latency)
  else Ok None.

(** Lines 141-147. *)
Definition make_message (receive_time : Q) (data : json) (latency : option Q)
  : result WebSocketMessage.t :=
  method <- py_get data "method" (JStr "unknown") ;;
  params <- py_get data "params" (JObj []) ;;
  channel <- py_get params "channel" (JStr "unknown") ;;
  Ok {| WebSocketMessage.timestamp := receive_time;
        WebSocketMessage.message_type := method;
        WebSocketMessage.channel := channel;
        WebSocketMessage.data := data;
        WebSocketMessage.latency := latency |}.

(** The counters and lists of the tester object, shared by every
    coroutine started on it. *)
Record tester : Type := {
  is_running : bool;
  total_messages : nat;
  connection_count : nat;
  reconnection_count : nat;
  connections : list nat;
  messages : list WebSocketMessage.t;
  log : list (level * entry)
}.

Definition tester_init : tester :=
  {| is_running := true; total_messages := 0; connection_count := 0;
     reconnection_count := 0; connections := []; messages := []; log := [] |}.

Definition logging (t : tester) (lines : list (level * entry)) : tester :=
  {| is_running := is_running t; total_messages := total_messages t;
     connection_count := connection_count t;
     reconnection_count := reconnection_count t;
     connections := connections t; messages := messages t;
     log := log t ++ lines |}.

(** Lines 53-56. *)
Definition _signal_handler (t : tester) : tester :=
  {| is_running := false; total_messages := total_messages t;
     connection_count := connection_count t;
     reconnection_count := reconnection_count t;
     connections := connections t; messages := messages t;
     log := log t ++ [(INFO, ReceivedSignal)] |}.

(** Lines 112-113. *)
Definition connected (t : tester) (id : nat) : tester :=
  {| is_running := is_running t; total_messages := total_messages t;
     connection_count := connection_count t + 1;
     reconnection_count := reconnection_count t;
     connections := connections t ++ [id]; messages := messages t; log := log t |}.

(** Line 131. *)
Definition count_message (t : tester) : tester :=
  {| is_running := is_running t; total_messages := total_messages t + 1;
     connection_count := connection_count t;
     reconnection_count := reconnection_count t;
     connections := connections t; messages := messages t; log := log t |}.

(** Line 149. *)
Definition store_message (t : tester) (m : WebSocketMessage.t) : tester :=
  {| is_running := is_running t; total_messages := total_messages t;
     connection_count := connection_count t;
     reconnection_count := reconnection_count t;
     connections := connections t; messages := messages t ++ [m]; log := log t |}.

(** Line 168. *)
Definition count_reconnection (t : tester) : tester :=
  {| is_running := is_running t; total_messages := total_messages t;
     connection_count := connection_count t;
     reconnection_count := reconnection_count t + 1;
     connections := connections t; messages := messages t; log := log t |}.

(** The state of one [single_connection_test] coroutine. *)
Record session : Type := {
  connection_id : nat;
  s_phase : phase;
  start_time : Q;
  connection_messages : nat
}.

Definition new_session (id : nat) : session :=
  {| connection_id := id; s_phase := Connecting; start_time := 0;
     connection_messages := 0 |}.

Definition s_goto (s : session) (p : phase) : session :=
  {| connection_id := connection_id s; s_phase := p; start_time := start_time s;
     connection_messages := connection_messages s |}.

(** Line 130. *)
Definition s_count (s : session) : session :=
  {| connection_id := connection_id s; s_phase := s_phase s;
     start_time := start_time s;
     connection_messages := connection_messages s + 1 |}.

(** Line 164 and the end of the [async with] block. *)
Definition s_complete (t : tester) (s : session) : tester * session :=
  (logging t [(INFO, ConnectionCompleted (connection_id s) (connection_messages s))],
   s_goto s (Finished None)).

(** The head of the while loop, line 124: [self.is_running] is read first,
    the clock only when it holds. *)
Definition s_loop_head (t : tester) (s : session) : tester * session :=
  if is_running t then (t, s_goto s Checking) else s_complete t s.

(** The three handlers of the loop body, lines 155-162. *)
Definition s_handle (t : tester) (s : session) (e : exn) : tester * session :=
  match e with
  | TimeoutError => s_loop_head t s
  | ConnectionClosed =>
      s_complete (logging t [(WARNING, ClosedUnexpectedly (connection_id s))]) s
  | _ => s_complete (logging t [(ERROR, ConnectionError (connection_id s) e)]) s
  end.

(** The outer handler, lines 166-168. *)
Definition s_fail (t : tester) (s : session) (e : exn) : tester * session :=
  (count_reconnection (logging t [(ERROR, ConnectionFailed (connection_id s) e)]),
   s_goto s (Finished (Some e))).

(** Lines 151-153: progress is logged every 100 messages. *)
Definition log_progress (t : tester) (s : session) : tester :=
  if Nat.eqb (connection_messages s mod 100) 0
  then logging t [(INFO, MessagesReceived (connection_id s) (connection_messages s))]
  else t.

(** Lines 129-153, once the message and its receive time are there. *)
Definition s_process (t : tester) (s : session) (message : string) (receive_time : Q)
  : tester * session :=
  match json_loads message with
  | Raise e => s_handle t s e
  | Ok data =>
      let s1 := s_count s in
      let t1 := count_message t in
      match (latency <- message_latency receive_time data ;;
             make_message receive_time data latency) with
      | Raise e => s_handle t1 s1 e
      | Ok ws_message =>
          s_loop_head (log_progress (store_message t1 ws_message) s1) s1
      end
  end.

Definition single_connection_test_step (channels : list string) (duration : Z)
  (t : tester) (s : session) (o : obs) : tester * session :=
  match s_phase s, o with
  | Connecting, ConnectDone (Ok _) =>
      let t1 := connected t (connection_id s) in
      match prologue channels Starting Connecting o with
      | Next p lines => (logging t1 lines, s_goto s p)
      | _ => (t1, s_goto s Stuck)
      end
  | Starting, Now now =>
      s_loop_head t
        {| connection_id := connection_id s; s_phase := Starting; start_time := now;
           connection_messages := 0 |}
  | Checking, Now now =>
      if Qltb (now - start_time s) (inject_Z duration) then (t, s_goto s Receiving)
      else s_complete t s
  | Receiving, RecvDone (Ok message) => (t, s_goto s (Stamping message))
  | Receiving, RecvDone (Raise e) => s_handle t s e
  | Stamping message, Now receive_time => s_process t s message receive_time
  | Finished _, _ => (t, s)
  | p, _ =>
      match prologue channels Starting p o with
      | Next p' lines => (logging t lines, s_goto s p')
      | Failed e lines => s_fail (logging t lines) s e
      | Elsewhere => (t, s_goto s Stuck)
      end
  end.

Definition session_steps (channels : list string) (duration : Z)
  (ts : tester * session) (trace : list obs) : tester * session :=
  fold_left (fun '(t, s) o => single_connection_test_step channels duration t s o)
    trace ts.

(** One coroutine on its own, lines 106-168. *)
Definition single_connection_test (t : tester) (id : nat) (channels : list string)
  (duration : Z) (trace : list obs) : tester * session :=
  session_steps channels duration
    (logging t [(INFO, StartingConnection id)], new_session id) trace.

(** What a session in its loop observes when [messages] arrive one after
    the other, all of it at clock reading [now]: the while condition, the
    receive, the receive time. *)
Definition arrivals (now : Q) (messages : list string) : list obs :=
  flat_map (fun m => [Now now; RecvDone (Ok m); Now now]) messages.

(** Lines 129-149 on one message: the exception they raise, if any. *)
Definition failure (now : Q) (message : string) : option exn :=
  match json_loads message with
  | Ok data =>
      match (latency <- message_latency now data ;; make_message now data latency) with
      | Ok _ => None
      | Raise e => Some e
      end
  | Raise e => Some e
  end.

Definition processes (now : Q) (message : string) : bool :=
  match failure now message with
  | None => true
  | Some _ => false
  end.

(** A message is counted on lines 130-131 once it has been decoded. *)
Definition counted (message : string) : nat :=
  match json_loads message with
  | Ok _ => 1
  | Raise _ => 0
  end.

(** What the handlers of lines 157-162 log. *)
Definition error_line (id : nat) (e : exn) : level * entry :=
  match e with
  | ConnectionClosed => (WARNING, ClosedUnexpectedly id)
  | _ => (ERROR, ConnectionError id e)
  end.

(** What the event loop does next while [stress_test] waits in
    [asyncio.gather]: one coroutine observes something, or a signal comes. *)
Inductive stress_event : Type :=
| Deliver (id : nat) (o : obs)
| Signal.

Record stress_state : Type := {
  shared : tester;
  tasks : list session
}.

Fixpoint set_nth {A : Type} (i : nat) (x : A) (l : list A) {struct l} : list A :=
  match l, i with
  | [], _ => []
  | _ :: rest, O => x :: rest
  | y :: rest, S j => y :: set_nth j x rest
  end.

(** Lines 174-179. *)
Definition stress_channels : list string :=
  ["ticker.BTC-PERPETUAL.100ms"; "ticker.ETH-PERPETUAL.100ms";
   "book.BTC-PERPETUAL.100ms.10"; "trades.BTC-PERPETUAL.100ms"]%string.

Definition stress_step (duration : Z) (st : stress_state) (ev : stress_event)
  : stress_state :=
  match ev with
  | Signal => {| shared := _signal_handler (shared st); tasks := tasks st |}
  | Deliver id o =>
      match nth_error (tasks st) id with
      | None => st
      | Some s =>
          let '(t', s') := single_connection_test_step stress_channels duration (shared st) s o in
          {| shared := t'; tasks := set_nth id s' (tasks st) |}
      end
  end.

(** Lines 182-190: [num_connections] tasks on one tester, run to the end
    of the schedule. *)
Definition stress_start (t : tester) (num_connections : nat) : stress_state :=
  {| shared := logging t (map (fun i => (INFO, StartingConnection i)) (seq 0 num_connections));
     tasks := map new_session (seq 0 num_connections) |}.

Definition stress_test (t : tester) (num_connections : nat) (duration : Z)
  (schedule : list stress_event) : stress_state :=
  fold_left (stress_step duration) schedule (stress_start t num_connections).

(** What a step of a session writes to the shared counters. *)
Definition decodes (s : session) (o : obs) : bool :=
  match s_phase s, o with
  | Stamping message, Now _ =>
      match json_loads message with Ok _ => true | Raise _ => false end
  | _, _ => false
  end.

Definition connects (s : session) (o : obs) : bool :=
  match s_phase s, o with
  | Connecting, ConnectDone (Ok _) => true
  | _, _ => false
  end.

Definition fails (channels : list string) (s : session) (o : obs) : bool :=
  match prologue channels Starting (s_phase s) o with
  | Failed _ _ => true
  | _ => false
  end.

(** The observations a schedule delivers to coroutine [id], in order. *)
Definition deliveries (id : nat) (schedule : list stress_event) : list obs :=
  flat_map (fun ev => match ev with
                      | Deliver i o => if Nat.eqb i id then [o] else []
                      | Signal => []
                      end) schedule.

Definition no_signal (schedule : list stress_event) : bool :=
  forallb (fun ev => match ev with Signal => false | Deliver _ _ => true end) schedule.

(** A coroutine reads one thing of the tester: [is_running]. *)
Definition with_running (running : bool) : tester :=
  {| is_running := running; total_messages := 0; connection_count := 0;
     reconnection_count := 0; connections := []; messages := []; log := [] |}.

Definition local_step (channels : list string) (duration : Z) (running : bool)
  (s : session) (o : obs) : session :=
  snd (single_connection_test_step channels duration (with_running running) s o).

Definition all_finished (st : stress_state) : bool :=
  forallb (fun s => match s_phase s with Finished _ => true | _ => false end) (tasks st).

(** *** [tick_by_tick_delay_test] *)

(** Lines 288-299: one stored tick.  The four price and volume fields hold
    whatever the payload had under those keys. *)
Record tick_info : Type := {
  tick_number : nat;
  tick_channel : json;
  receive_time : Q;
  server_timestamp : json;
  delay_ms : option Q;
  data_size : nat;
  price : json;
  volume : json;
  bid_price : json;
  ask_price : json
}.

(** A dict with string keys, in insertion order. *)
Definition dict (V : Type) : Type := list (string * V).

Fixpoint dict_set {V : Type} (k : string) (v : V) (d : dict V) : dict V :=
  match d with
  | [] => [(k, v)]
  | (k', v') :: rest =>
      if String.eqb k k' then (k', v) :: rest else (k', v') :: dict_set k v rest
  end.

(** Line 262: [{channel: [] for channel in channels}]. *)
Definition tick_storage (channels : list string) : dict (list tick_info) :=
  fold_left (fun d ch => dict_set ch [] d) channels [].

(** Line 304: [tick_data[ch].append(tick_info)]. *)
Fixpoint dict_append (ch : string) (info : tick_info) (d : dict (list tick_info))
  : result (dict (list tick_info)) :=
  match d with
  | [] => Raise KeyError
  | (k, ticks) :: rest =>
      if String.eqb ch k then Ok ((k, ticks ++ [info]) :: rest)
      else rest' <- dict_append ch info rest ;; Ok ((k, ticks) :: rest')
  end.

(** Lines 302-305: the first subscribed channel with [ch in channel]. *)
Fixpoint route (channels : list string) (channel : json) : result (option string) :=
  match channels with
  | [] => Ok None
  | ch :: rest =>
      hit <- py_in ch channel ;;
      if hit then Ok (Some ch) else route rest channel
  end.

(** Line 277. *)
Definition is_channel_message (data : json) : result bool :=
  a <- py_in "params" data ;;
  if a then params <- py_getitem data "params" ;; py_in "channel" params
  else Ok false.

(** Lines 282-285: the delay of a tick, as computed. *)
Definition tick_delay (now : Q) (tick_data_point : json) : result (option Q) :=
  h <- py_in "timestamp" tick_data_point ;;
  if h then
    ts <- py_getitem tick_data_point "timestamp" ;;
    t <- py_number ts ;;
    server_timestamp <- milli t ;;
    Ok (Some ((now - server_timestamp) * 1000)%Q)
  else Ok None.

(** Lines 278-299. *)
Definition make_tick (tick_count : nat) (now : Q) (data : json) : result tick_info :=
  params <- py_getitem data "params" ;;
  channel <- py_getitem params "channel" ;;
  tick_data_point <- py_getitem params "data" ;;
  delay <- tick_delay now tick_data_point ;;
  ts <- py_get tick_data_point "timestamp" JNull ;;
  last_price <- py_get tick_data_point "last_price" JNull ;;
  plain_price <- py_get tick_data_point "price" JNull ;;
  vol <- py_get tick_data_point "volume" JNull ;;
  bid <- py_get tick_data_point "best_bid_price" JNull ;;
  ask <- py_get tick_data_point "best_ask_price" JNull ;;
  Ok {| tick_number := tick_count; tick_channel := channel; receive_time := now;
        server_timestamp := ts; delay_ms := delay; data_size := str_len data;
        price := py_or last_price plain_price;
        volume := vol; bid_price := bid; ask_price := ask |}.

(** The truth value of an optional float, as in [x if delay else y]. *)
Definition nonzero (d : option Q) : option Q :=
  match d with
  | Some q => if Qeq_bool q 0 then None else Some q
  | None => None
  end.

(** Lines 277-309 for a decoded message, [tick_count] already counted:
    the storage afterwards and the log line, if any. *)
Definition store_tick (channels : list string) (tick_count : nat) (now : Q)
  (data : json) (tick_data : dict (list tick_info))
  : result (dict (list tick_info) * list (level * entry)) :=
  c <- is_channel_message data ;;
  if c then
    info <- make_tick tick_count now data ;;
    target <- route channels (tick_channel info) ;;
    tick_data' <- match target with
                  | Some ch => dict_append ch info tick_data
                  | None => Ok tick_data
                  end ;;
    Ok (tick_data',
        if Nat.eqb (tick_count mod 50) 0
        then [(INFO, ProcessedTicks tick_count (nonzero (delay_ms info)))]
        else [])
  else Ok (tick_data, []).

(** *** [_analyze_tick_data] *)

(** Line 344 and 398: the delays of the ticks that have one. *)
Definition delays_of (ticks : list tick_info) : list Q :=
  flat_map (fun tick => match delay_ms tick with Some d => [d] | None => [] end) ticks.

Definition count_if (p : Q -> bool) (l : list Q) : nat := length (filter p l).

(** Lines 354-360. *)
Definition delay_ranges (delays : list Q) : list (string * nat) :=
  [ ("0-50ms"%string, count_if (fun d => Qle_bool 0 d && Qltb d 50) delays);
    ("50-100ms"%string, count_if (fun d => Qle_bool 50 d && Qltb d 100) delays);
    ("100-200ms"%string, count_if (fun d => Qle_bool 100 d && Qltb d 200) delays);
    ("200-500ms"%string, count_if (fun d => Qle_bool 200 d && Qltb d 500) delays);
    ("500ms+"%string, count_if (fun d => Qle_bool 500 d) delays) ].

(** Line 364. *)
Definition percentage (count total : nat) : result Q :=
  share <- py_div (Qnat count) (Qnat total) ;; Ok (share * 100)%Q.

(** [[f(x) for x in l]], up to the first element on which [f] raises. *)
Fixpoint for_all {A B : Type} (f : A -> result B) (l : list A) : result (list B) :=
  match l with
  | [] => Ok []
  | x :: rest => y <- f x ;; ys <- for_all f rest ;; Ok (y :: ys)
  end.

(** Lines 418-424, without the final square root: [_calculate_std_dev]
    returns the square root of this number.  The squares of line 423 are
    where it can raise. *)
Definition variance (values : list Q) : result Q :=
  match values with
  | [] => Ok 0%Q
  | _ =>
      mean <- py_div (Qsum values) (Qnat (length values)) ;;
      squares <- for_all (fun x => float_square (x - mean)) values ;;
      py_div (Qsum squares) (Qnat (length values))
  end.

(** Lines 345-365: average, median, minimum and maximum are logged before
    the standard deviation is computed, the ranges after it. *)
Definition delay_analysis (delays : list Q) : action unit :=
  match delays with
  | [] => ret tt
  | first :: others =>
      avg <~ lift (py_div (Qsum delays) (Qnat (length delays))) ;;
      info (DelayStatistics avg (nth (length delays / 2) (sorted delays) 0%Q)
              (Qmin_list first others) (Qmax_list first others)) ;;;
      var <~ lift (variance delays) ;;
      info (DelayStdDev var) ;;;
      for_each (fun '(range_name, count) =>
                  pct <~ lift (percentage count (length delays)) ;;
                  info (DelayDistribution range_name count pct))
               (delay_ranges delays)
  end.

(** Lines 368-373. *)
Definition size_analysis (ticks : list tick_info) : action unit :=
  match map data_size ticks with
  | [] => ret tt
  | first :: others =>
      let sizes := first :: others in
      avg <~ lift (py_div (Qnat (fold_left Nat.add sizes 0%nat)) (Qnat (length sizes))) ;;
      info (DataSizeStatistics avg (fold_left Nat.min others first)
              (fold_left Nat.max others first))
  end.

(** Line 378: [abs(prices[i] - prices[i-1])] for consecutive prices. *)
Fixpoint price_changes (prices : list json) : result (list Q) :=
  match prices with
  | previous :: ((current :: _) as rest) =>
      a <- py_number current ;;
      b <- py_number previous ;;
      changes <- price_changes rest ;;
      Ok (Qabs (a - b) :: changes)
  | _ => Ok []
  end.

(** Lines 376-386. *)
Definition price_analysis (ticks : list tick_info) : action unit :=
  let prices := filter (fun v => negb (is_none v)) (map price ticks) in
  when (1 <? length prices)%nat
    (changes <~ lift (price_changes prices) ;;
     let non_zero_changes := filter (Qltb 0) changes in
     frequency <~ lift (percentage (length non_zero_changes) (length prices)) ;;
     info (PriceMovement (length prices) (length non_zero_changes) frequency) ;;;
     match non_zero_changes with
     | [] => ret tt
     | _ =>
         avg <~ lift (py_div (Qsum non_zero_changes) (Qnat (length non_zero_changes))) ;;
         info (AveragePriceChange avg)
     end).

(** A value under the format [.2f]: an int is converted to a float
    first. *)
Definition format_f (v : json) : result Q :=
  match v with
  | JNum q => if overflows q then Raise OverflowError else Ok q
  | JBool b => Ok (if b then 1 else 0)%Q
  | JStr _ => Raise ValueError
  | _ => Raise TypeError
  end.

(** Lines 390-393. *)
Definition sample_tick (tick : tick_info) : action unit :=
  shown <~ lift (if py_truthy (price tick)
                 then q <- format_f (price tick) ;; Ok (Some q)
                 else Ok None) ;;
  info (SampleTick (tick_number tick) (nonzero (delay_ms tick)) shown (data_size tick)).

(** Lines 334-393, one channel. *)
Definition analyze_channel (duration : Z) (item : string * list tick_info) : action unit :=
  let '(channel, ticks) := item in
  match ticks with
  | [] => info (NoDataReceived channel)
  | _ =>
      info (ChannelHeader channel) ;;;
      info (ChannelTicks (length ticks)) ;;;
      rate <~ lift (py_div (Qnat (length ticks)) (inject_Z duration)) ;;
      info (TicksPerSecond rate) ;;;
      delay_analysis (delays_of ticks) ;;;
      size_analysis ticks ;;;
      price_analysis ticks ;;;
      for_each sample_tick (firstn 5 ticks)
  end.

(** Lines 407-414. *)
Definition rating (avg_delay : Q) : string :=
  if Qltb avg_delay 50 then "EXCELLENT"
  else if Qltb avg_delay 100 then "GOOD"
  else if Qltb avg_delay 200 then "FAIR"
  else "POOR".

(** Lines 396-416. *)
Definition overall_analysis (tick_data : dict (list tick_info)) : action unit :=
  let all_delays := flat_map (fun item => delays_of (snd item)) tick_data in
  match all_delays with
  | [] => ret tt
  | _ =>
      avg_delay <~ lift (py_div (Qsum all_delays) (Qnat (length all_delays))) ;;
      info (OverallSummary (length all_delays) avg_delay) ;;;
      info (PerformanceRating (rating avg_delay))
  end.

Definition _analyze_tick_data (tick_data : dict (list tick_info)) (duration : Z)
  : action unit :=
  let total_ticks := fold_left Nat.add (map (fun item => length (snd item)) tick_data) 0%nat in
  info Banner ;;;
  info (TotalDuration duration) ;;;
  info (TotalTicks total_ticks) ;;;
  rate <~ lift (py_div (Qnat total_ticks) (inject_Z duration)) ;;
  info (AverageTicksPerSecond rate) ;;;
  for_each (analyze_channel duration) tick_data ;;;
  overall_analysis tick_data.

(** *** The loop of [tick_by_tick_delay_test] *)

Record tick_run : Type := {
  k_phase : phase;
  k_start : Q;
  tick_count : nat;
  tick_data : dict (list tick_info);
  k_log : list (level * entry)
}.

Definition tick_init : tick_run :=
  {| k_phase := Connecting; k_start := 0; tick_count := 0; tick_data := [];
     k_log := [] |}.

Definition k_goto (s : tick_run) (p : phase) (lines : list (level * entry)) : tick_run :=
  {| k_phase := p; k_start := k_start s; tick_count := tick_count s;
     tick_data := tick_data s; k_log := k_log s ++ lines |}.

(** Lines 311-315: both handlers go on with the loop. *)
Definition k_handle (s : tick_run) (e : exn) : tick_run :=
  match e with
  | TimeoutError => k_goto s Checking []
  | _ => k_goto s Checking [(WARNING, TickError e)]
  end.

(** Lines 273-309. *)
Definition k_process (channels : list string) (s : tick_run) (message : string) (now : Q)
  : tick_run :=
  match json_loads message with
  | Raise e => k_handle s e
  | Ok data =>
      let counted :=
        {| k_phase := k_phase s; k_start := k_start s; tick_count := tick_count s + 1;
           tick_data := tick_data s; k_log := k_log s |} in
      match store_tick channels (tick_count counted) now data (tick_data s) with
      | Raise e => k_handle counted e
      | Ok (tick_data', lines) =>
          {| k_phase := Checking; k_start := k_start s; tick_count := tick_count counted;
             tick_data := tick_data'; k_log := k_log s ++ lines |}
      end
  end.

(** Line 318 and the outer handler, lines 320-321. *)
Definition k_finish (s : tick_run) (duration : Z) : tick_run :=
  let '(lines, outcome) := _analyze_tick_data (tick_data s) duration in
  let report := map (fun e => (INFO, e)) lines in
  match outcome with
  | Ok _ => k_goto s (Finished None) report
  | Raise e => k_goto s (Finished (Some e)) (report ++ [(ERROR, TickTestFailed e)])
  end.

Definition tick_by_tick_delay_test_step (duration : Z) (channels : list string)
  (s : tick_run) (o : obs) : tick_run :=
  match prologue channels Starting (k_phase s) o with
  | Next p lines => k_goto s p lines
  | Failed e lines => k_goto s (Finished (Some e)) (lines ++ [(ERROR, TickTestFailed e)])
  | Elsewhere =>
      match k_phase s, o with
      | Starting, Now now =>
          {| k_phase := Checking; k_start := now; tick_count := 0;
             tick_data := tick_storage channels; k_log := k_log s |}
      | Checking, Now now =>
          if Qltb (now - k_start s) (inject_Z duration) then k_goto s Receiving []
          else k_finish s duration
      | Receiving, RecvDone (Ok message) => k_goto s (Stamping message) []
      | Receiving, RecvDone (Raise e) => k_handle s e
      | Stamping message, Now now => k_process channels s message now
      | Finished _, _ => s
      | _, _ => k_goto s Stuck []
      end
  end.

(** Lines 247-251. *)
Definition default_channels : list string :=
  ["ticker.BTC-PERPETUAL.100ms"; "book.BTC-PERPETUAL.100ms.10";
   "trades.BTC-PERPETUAL.100ms"]%string.

Definition tick_by_tick_delay_test (duration : Z) (channels : option (list string))
  (trace : list obs) : tick_run :=
  let channels := match channels with Some l => l | None => default_channels end in
  fold_left (tick_by_tick_delay_test_step duration channels) trace tick_init.

(** *** [reconnection_test] *)

(** The coroutine's own variables, and the tester whose
    [reconnection_count] it updates.  [intervals] is not in the source: it
    records, for each drain loop left by its while condition, how long
    after [connection_start] the reading that ended it was taken. *)
Record reconnection_run : Type := {
  r_tester : tester;
  r_phase : phase;
  r_start : Q;
  connection_start : Q;
  message_count : nat;
  intervals : list Q
}.

Definition reconnection_init (t : tester) : reconnection_run :=
  {| r_tester := t; r_phase := Starting; r_start := 0; connection_start := 0;
     message_count := 0; intervals := [] |}.

Definition r_goto (s : reconnection_run) (p : phase) (lines : list (level * entry))
  : reconnection_run :=
  {| r_tester := logging (r_tester s) lines; r_phase := p; r_start := r_start s;
     connection_start := connection_start s; message_count := message_count s;
     intervals := intervals s |}.

(** Lines 452-454: log, then sleep for a second. *)
Definition r_fail (s : reconnection_run) (e : exn) : reconnection_run :=
  r_goto s Sleeping [(ERROR, ReconnectionError e)].

(** Lines 449-450, and leaving the [async with] block. *)
Definition r_disconnect (s : reconnection_run) (now : Q) : reconnection_run :=
  {| r_tester :=
       count_reconnection
         (logging (r_tester s) [(INFO, Disconnecting (message_count s))]);
     r_phase := Checking; r_start := r_start s;
     connection_start := connection_start s; message_count := message_count s;
     intervals := intervals s ++ [(now - connection_start s)%Q] |}.

Definition reconnection_test_step (disconnection_interval total_duration : Z)
  (s : reconnection_run) (o : obs) : reconnection_run :=
  match prologue ["ticker.BTC-PERPETUAL.100ms"%string] Timing (r_phase s) o with
  | Next p lines => r_goto s p lines
  | Failed e lines => r_fail (r_goto s (r_phase s) lines) e
  | Elsewhere =>
      match r_phase s, o with
      | Starting, Now now =>
          {| r_tester := r_tester s; r_phase := Checking; r_start := now;
             connection_start := connection_start s;
             message_count := message_count s; intervals := intervals s |}
      | Checking, Now now =>
          if Qltb (now - r_start s) (inject_Z total_duration)
          then r_goto s Connecting []
          else r_goto s (Finished None)
                 [(INFO, ReconnectionCompleted (reconnection_count (r_tester s)))]
      | Timing, Now now =>
          {| r_tester := r_tester s; r_phase := Draining; r_start := r_start s;
             connection_start := now; message_count := 0; intervals := intervals s |}
      | Draining, Now now =>
          if Qltb (now - connection_start s) (inject_Z disconnection_interval)
          then r_goto s Receiving []
          else r_disconnect s now
      | Receiving, RecvDone (Ok _) =>
          {| r_tester := r_tester s; r_phase := Draining; r_start := r_start s;
             connection_start := connection_start s;
             message_count := message_count s + 1; intervals := intervals s |}
      | Receiving, RecvDone (Raise TimeoutError) => r_goto s Draining []
      | Receiving, RecvDone (Raise e) => r_fail s e
      | Sleeping, SleepDone => r_goto s Checking []
      | Finished _, _ => s
      | _, _ => r_goto s Stuck []
      end
  end.

Definition reconnection_test (t : tester) (disconnection_interval total_duration : Z)
  (trace : list obs) : reconnection_run :=
  fold_left (reconnection_test_step disconnection_interval total_duration) trace
    (reconnection_init t).

(** How a step of [reconnection_test] leaves a drain loop, if it does. *)
Definition interval_elapsed (disconnection_interval : Z) (s : reconnection_run)
  (o : obs) : bool :=
  match r_phase s, o with
  | Draining, Now now =>
      negb (Qltb (now - connection_start s) (inject_Z disconnection_interval))
  | _, _ => false
  end.

Definition drain_error (s : reconnection_run) (o : obs) : bool :=
  match r_phase s, o with
  | Receiving, RecvDone (Raise TimeoutError) => false
  | Receiving, RecvDone (Raise _) => true
  | _, _ => false
  end.

(** Nothing raises: every connect and send succeeds, a receive returns a
    message or times out. *)
Definition no_failures (trace : list obs) : bool :=
  forallb (fun o => match o with
                    | ConnectDone (Raise _) | SendDone (Raise _) => false
                    | RecvDone (Raise TimeoutError) => true
                    | RecvDone (Raise _) => false
                    | _ => true
                    end) trace.

(** The clock never goes back, and two consecutive readings are at most
    [gap] seconds apart.  A receive returns within its time-out of one
    second, so in a drain loop the gap is a second and what the loop costs;
    between sessions it is the time to connect, authenticate and
    subscribe. *)
Fixpoint steady (gap last : Q) (trace : list obs) : Prop :=
  match trace with
  | [] => True
  | Now t :: rest => (last <= t /\ t <= last + gap)%Q /\ steady gap t rest
  | _ :: rest => steady gap last rest
  end.

(** * Properties *)

Ltac qprop :=
  repeat match goal with
  | H : Qltb _ _ = true |- _ => apply Qltb_lt in H
  | H : Qltb _ _ = false |- _ => apply Qltb_ge in H
  | H : Qle_bool _ _ = true |- _ => apply Qle_bool_iff in H
  | H : Qle_bool _ _ = false |- _ => apply Qle_bool_gt in H
  | H : (_ && _)%bool = true |- _ => apply andb_true_iff in H; destruct H
  | |- Qltb _ _ = true => apply Qltb_lt
  | |- Qltb _ _ = false => apply Qltb_ge
  | |- Qle_bool _ _ = true => apply Qle_bool_iff
  | |- Qle_bool _ _ = false => apply Qle_bool_gt
  end.

(** ** The latency filter *)

Lemma realistic_iff (d : Q) : realistic d = true <-> (0 < d /\ d < 10000)%Q.
Proof.
  unfold realistic. rewrite andb_true_iff, !Qltb_lt. reflexivity.
Qed.

Definition in_range (d : Q) : Prop := (0 < d /\ d < 10000)%Q.

Lemma latency_sample_some (receive_time : Q) (data : json) (d : Q) :
  latency_sample receive_time data = Ok (Some d) <->
  has_timestamp data = Ok true /\ compute_latency receive_time data = Ok d /\ in_range d.
Proof.
  unfold latency_sample, in_range.
  destruct (has_timestamp data) as [[|]|e]; simpl.
  - destruct (compute_latency receive_time data) as [l|e]; simpl.
    + destruct (realistic l) eqn:R.
      * apply realistic_iff in R. split.
        -- intro H. injection H as <-. auto.
        -- intros (_ & H & _). injection H as <-. reflexivity.
      * split; [discriminate|]. intros (_ & H & Hr). injection H as <-.
        apply realistic_iff in Hr. congruence.
    + split; [discriminate|]. intros (_ & H & _). discriminate.
  - split; [discriminate|]. intros (H & _). discriminate.
  - split; [discriminate|]. intros (H & _). discriminate.
Qed.

Lemma latency_step_in_range (duration : Z) (s : latency_run) (o : obs) :
  Forall in_range (latencies s) ->
  Forall in_range (latencies (latency_test_step duration s o)).
Proof.
  intro H. unfold latency_test_step.
  destruct (prologue _ Starting (l_phase s) o) as [p lines|e lines|]; try exact H.
  destruct (l_phase s) eqn:P; destruct o as [t|r|r|r|]; simpl; try exact H;
    try (destruct r as [m|[]]; simpl; exact H);
    try (destruct (Qltb _ _); exact H).
  - constructor.
  - destruct (json_loads message) as [data|e]; simpl.
    + destruct (latency_sample t data) as [[d|]|e] eqn:S; simpl.
      * apply Forall_app. split; [exact H|]. constructor; [|constructor].
        apply latency_sample_some in S. destruct S as (_ & _ & S). exact S.
      * exact H.
      * destruct e; exact H.
    + destruct e; exact H.
Qed.

(** C1, as the code has it: a computed latency is kept exactly when
    0 < d < 10000, both bounds excluded.  0, 10000 and 10001 are dropped,
    1 and 9999 are kept; a decoded message adds a sample exactly when it
    carries a producer timestamp whose latency lies strictly inside the
    range, a message without timestamp adds none; and whatever the
    environment does, every value in the latency output of [latency_test]
    lies strictly between 0 and 10000. *)
Theorem latency_kept_iff_strictly_inside :
  forall (receive_time : Q) (data : json) (duration : Z) (trace : list obs),
    (forall d : Q, realistic d = true <-> (0 < d /\ d < 10000)%Q) /\
    (realistic 0 = false /\ realistic 10000 = false /\ realistic 10001 = false /\
     realistic 1 = true /\ realistic 9999 = true) /\
    (forall d : Q,
        latency_sample receive_time data = Ok (Some d) <->
        has_timestamp data = Ok true /\
        compute_latency receive_time data = Ok d /\ (0 < d /\ d < 10000)%Q) /\
    (has_timestamp data = Ok false -> latency_sample receive_time data = Ok None) /\
    Forall (fun d => (0 < d /\ d < 10000)%Q) (latencies (latency_test duration trace)).
Proof.
  intros receive_time data duration trace.
  split; [exact realistic_iff|].
  split; [repeat split; reflexivity|].
  split; [intro d; apply latency_sample_some|].
  split.
  - intro H. unfold latency_sample. rewrite H. reflexivity.
  - unfold latency_test.
    assert (G : forall s, Forall in_range (latencies s) ->
                Forall in_range
                  (latencies (fold_left (latency_test_step duration) trace s))).
    { induction trace as [|o rest IH]; intros s Hs; simpl.
      - exact Hs.
      - apply IH. apply latency_step_in_range. exact Hs. }
    apply G. constructor.
Qed.

(** ** The receive loop of a session *)

Lemma log_progress_fields (t : tester) (s : session) :
  is_running (log_progress t s) = is_running t /\
  total_messages (log_progress t s) = total_messages t /\
  connection_count (log_progress t s) = connection_count t /\
  reconnection_count (log_progress t s) = reconnection_count t.
Proof. unfold log_progress. destruct (Nat.eqb _ 0); simpl; auto. Qed.

Lemma log_progress_running (t : tester) (s : session) :
  is_running (log_progress t s) = is_running t.
Proof. apply log_progress_fields. Qed.

Lemma log_progress_total (t : tester) (s : session) :
  total_messages (log_progress t s) = total_messages t.
Proof. apply log_progress_fields. Qed.

Lemma log_progress_connections (t : tester) (s : session) :
  connection_count (log_progress t s) = connection_count t.
Proof. apply log_progress_fields. Qed.

Lemma log_progress_reconnections (t : tester) (s : session) :
  reconnection_count (log_progress t s) = reconnection_count t.
Proof. apply log_progress_fields. Qed.

Create Rewrite HintDb tester_fields.
#[local] Hint Rewrite log_progress_running log_progress_total
  log_progress_connections log_progress_reconnections : tester_fields.

#[local] Arguments log_progress : simpl never.
#[local] Arguments Nat.modulo : simpl never.

Lemma session_steps_app (channels : list string) (duration : Z)
  (ts : tester * session) (l1 l2 : list obs) :
  session_steps channels duration ts (l1 ++ l2) =
  session_steps channels duration (session_steps channels duration ts l1) l2.
Proof. unfold session_steps. apply fold_left_app. Qed.

Lemma finished_absorbs (channels : list string) (duration : Z) (t : tester)
  (s : session) (f : option exn) (trace : list obs) :
  s_phase s = Finished f ->
  session_steps channels duration (t, s) trace = (t, s).
Proof.
  intro H. induction trace as [|o rest IH]; [reflexivity|].
  unfold session_steps in *. simpl. unfold single_connection_test_step at 2.
  rewrite H. destruct o; exact IH.
Qed.

Lemma step_checking (channels : list string) (duration : Z) (t : tester)
  (s : session) (now : Q) :
  s_phase s = Checking ->
  single_connection_test_step channels duration t s (Now now) =
  if Qltb (now - start_time s) (inject_Z duration) then (t, s_goto s Receiving)
  else s_complete t s.
Proof. intro P. unfold single_connection_test_step. rewrite P. reflexivity. Qed.

Lemma step_receiving (channels : list string) (duration : Z) (t : tester)
  (s : session) (r : result string) :
  s_phase s = Receiving ->
  single_connection_test_step channels duration t s (RecvDone r) =
  match r with
  | Ok message => (t, s_goto s (Stamping message))
  | Raise e => s_handle t s e
  end.
Proof. intro P. unfold single_connection_test_step. rewrite P. reflexivity. Qed.

Lemma step_stamping (channels : list string) (duration : Z) (t : tester)
  (s : session) (message : string) (now : Q) :
  s_phase s = Stamping message ->
  single_connection_test_step channels duration t s (Now now) =
  s_process t s message now.
Proof. intro P. unfold single_connection_test_step. rewrite P. reflexivity. Qed.

Lemma one_arrival (channels : list string) (duration : Z) (t : tester)
  (s : session) (now : Q) (m : string) :
  s_phase s = Checking ->
  (now - start_time s < inject_Z duration)%Q ->
  session_steps channels duration (t, s) (arrivals now [m]) =
  s_process t (s_goto s (Stamping m)) m now.
Proof.
  intros P T. apply Qltb_lt in T.
  unfold arrivals, session_steps. cbn [flat_map app fold_left].
  rewrite (step_checking _ _ _ _ _ P), T.
  rewrite step_receiving by reflexivity.
  rewrite step_stamping with (message := m) by reflexivity.
  reflexivity.
Qed.

Lemma good_message_counted (channels : list string) (duration : Z) (t : tester)
  (s : session) (now : Q) (m : string) :
  s_phase s = Checking -> is_running t = true ->
  (now - start_time s < inject_Z duration)%Q ->
  processes now m = true ->
  exists t' s',
    session_steps channels duration (t, s) (arrivals now [m]) = (t', s') /\
    s_phase s' = Checking /\ is_running t' = true /\
    start_time s' = start_time s /\ connection_id s' = connection_id s /\
    (connection_messages s' = connection_messages s + 1)%nat /\
    (total_messages t' = total_messages t + 1)%nat /\
    reconnection_count t' = reconnection_count t /\
    connection_count t' = connection_count t.
Proof.
  intros P R T G. rewrite one_arrival by assumption.
  unfold processes, failure in G. unfold s_process.
  destruct (json_loads m) as [data|e]; [|discriminate].
  destruct (bind (message_latency now data) _) as [ws|e]; [|discriminate].
  unfold s_loop_head. rewrite log_progress_running. simpl. rewrite R.
  eexists; eexists; (split; [reflexivity|]); simpl.
  rewrite log_progress_total, log_progress_reconnections,
    log_progress_connections, log_progress_running. simpl.
  repeat split. exact R.
Qed.

Lemma bad_message_breaks (channels : list string) (duration : Z) (t : tester)
  (s : session) (now : Q) (m : string) (e : exn) :
  s_phase s = Checking ->
  (now - start_time s < inject_Z duration)%Q ->
  failure now m = Some e ->
  e <> TimeoutError ->
  exists t' s',
    session_steps channels duration (t, s) (arrivals now [m]) = (t', s') /\
    s_phase s' = Finished None /\
    (connection_messages s' = connection_messages s + counted m)%nat /\
    (total_messages t' = total_messages t + counted m)%nat /\
    reconnection_count t' = reconnection_count t /\
    log t' = log t ++ [error_line (connection_id s) e;
                       (INFO, ConnectionCompleted (connection_id s)
                                (connection_messages s + counted m))].
Proof.
  intros P T B N. rewrite one_arrival by assumption.
  unfold failure in B. unfold s_process, counted.
  destruct (json_loads m) as [data|e0].
  - destruct (bind (message_latency now data) _) as [ws|e0]; [discriminate|].
    injection B as ->.
    destruct e; try congruence; simpl;
      eexists; eexists; (split; [reflexivity|]); simpl;
      rewrite <- app_assoc; simpl; repeat split.
  - injection B as ->.
    destruct e; try congruence; simpl;
      eexists; eexists; (split; [reflexivity|]); simpl;
      rewrite <- app_assoc, ?Nat.add_0_r; simpl; repeat split.
Qed.

Lemma arrivals_cons (now : Q) (m : string) (rest : list string) :
  arrivals now (m :: rest) = arrivals now [m] ++ arrivals now rest.
Proof. unfold arrivals. simpl. reflexivity. Qed.

(** C2, as the code has it: in the receive loop of
    [single_connection_test] an error on one message, other than the
    receive time-out, is logged and not raised further, but it ends the
    loop ([break]): the session completes with the messages counted up to
    there, and nothing that arrives afterwards is counted.  With messages
    [good ++ bad :: rest], the session counts the [good] ones, and [bad]
    itself if it was decoded before the error; when [bad] does not decode
    it counts the [good] ones only. *)
Theorem decode_error_ends_receive_loop :
  forall (channels : list string) (duration : Z) (t : tester) (s : session)
         (now : Q) (good : list string) (bad : string) (rest : list string)
         (e : exn),
    s_phase s = Checking -> is_running t = true ->
    (now - start_time s < inject_Z duration)%Q ->
    forallb (processes now) good = true ->
    failure now bad = Some e ->
    e <> TimeoutError ->
    let final :=
      session_steps channels duration (t, s) (arrivals now (good ++ bad :: rest)) in
    s_phase (snd final) = Finished None /\
    (connection_messages (snd final) =
       connection_messages s + length good + counted bad)%nat /\
    (total_messages (fst final) = total_messages t + length good + counted bad)%nat /\
    reconnection_count (fst final) = reconnection_count t /\
    In (error_line (connection_id s) e) (log (fst final)) /\
    (json_loads bad = Raise e -> counted bad = 0%nat).
Proof.
  intros channels duration t s now good. revert t s.
  induction good as [|m good IH]; intros t s bad rest e P R T G B N final;
    subst final.
  - simpl app. rewrite arrivals_cons, session_steps_app.
    destruct (bad_message_breaks channels duration t s now bad e P T B N)
      as (t' & s' & E & P' & C & M & Rc & L).
    rewrite E, (finished_absorbs _ _ _ _ _ _ P'). simpl.
    rewrite P', C, M, Rc, L, !Nat.add_0_r. repeat split.
    + apply in_or_app. right. left. reflexivity.
    + intro D. unfold counted. rewrite D. reflexivity.
  - simpl in G. apply andb_true_iff in G. destruct G as [Gm G].
    simpl app. rewrite arrivals_cons, session_steps_app.
    destruct (good_message_counted channels duration t s now m P R T Gm)
      as (t' & s' & E & P' & R' & S' & I' & C & M & Rc & _).
    rewrite E. rewrite <- S' in T.
    specialize (IH t' s' bad rest e P' R' T G B N). simpl in IH.
    destruct IH as (F & C2 & M2 & Rc2 & L2 & D).
    rewrite F, C2, M2, Rc2, C, M, Rc. simpl length.
    rewrite <- I'. repeat split; try lia; assumption.
Qed.

(** ** The shared counters *)

Ltac break_match :=
  match goal with
  | |- context [match ?x with _ => _ end] => destruct x eqn:?
  end.

(** Before its loop starts a coroutine has counted nothing. *)
Definition fresh (s : session) : Prop :=
  match s_phase s with
  | Connecting | AuthSending | AuthWaiting | Subscribing | Starting =>
      connection_messages s = 0%nat
  | _ => True
  end.

Lemma step_writes (channels : list string) (duration : Z) (t : tester)
  (s : session) (o : obs) :
  let t' := fst (single_connection_test_step channels duration t s o) in
  (total_messages t' = total_messages t + (if decodes s o then 1 else 0))%nat /\
  (connection_count t' = connection_count t + (if connects s o then 1 else 0))%nat /\
  (reconnection_count t' =
     reconnection_count t + (if fails channels s o then 1 else 0))%nat /\
  is_running t' = is_running t.
Proof.
  unfold single_connection_test_step, decodes, connects, fails, prologue,
    s_process, s_handle, s_loop_head, s_complete, s_fail.
  destruct (s_phase s); destruct o as [now|r|r|r|];
    try destruct r as [?|e]; try destruct e; simpl;
    repeat (break_match; simpl); autorewrite with tester_fields; simpl;
    try discriminate;
    repeat split; try lia; try congruence;
    destruct (has_credentials cfg); discriminate.
Qed.

Lemma step_counts (channels : list string) (duration : Z) (t : tester)
  (s : session) (o : obs) :
  fresh s ->
  let r := single_connection_test_step channels duration t s o in
  (total_messages (fst r) + connection_messages s =
     total_messages t + connection_messages (snd r))%nat /\
  fresh (snd r).
Proof.
  unfold fresh, single_connection_test_step, prologue,
    s_process, s_handle, s_loop_head, s_complete, s_fail.
  destruct (s_phase s) eqn:P; destruct o as [now|r|r|r|];
    try destruct r as [?|e]; try destruct e; simpl; intro F;
    repeat (break_match; simpl); autorewrite with tester_fields; simpl;
    try rewrite P; try discriminate;
    repeat split; try exact I; try lia; try congruence;
    destruct (has_credentials cfg); discriminate.
Qed.

Lemma step_local (channels : list string) (duration : Z) (t : tester)
  (s : session) (o : obs) :
  snd (single_connection_test_step channels duration t s o) =
  local_step channels duration (is_running t) s o.
Proof.
  unfold local_step, single_connection_test_step, prologue,
    s_process, s_handle, s_loop_head, s_complete, s_fail.
  destruct (is_running t) eqn:R;
    destruct (s_phase s); destruct o as [now|r|r|r|];
    try destruct r as [?|e]; try destruct e; simpl;
    autorewrite with tester_fields; simpl;
    repeat (break_match; simpl; autorewrite with tester_fields in *; simpl in * );
    try rewrite R; try reflexivity; try discriminate; try congruence.
Qed.

Lemma nth_error_set_nth_eq {A : Type} (i : nat) (x y : A) (l : list A) :
  nth_error l i = Some y -> nth_error (set_nth i x l) i = Some x.
Proof.
  revert i. induction l as [|z l IH]; intros [|i] H; simpl in *;
    try discriminate; auto.
Qed.

Lemma nth_error_set_nth_neq {A : Type} (i j : nat) (x : A) (l : list A) :
  i <> j -> nth_error (set_nth i x l) j = nth_error l j.
Proof.
  revert i j. induction l as [|z l IH]; intros [|i] [|j] H; simpl;
    try reflexivity; try congruence.
  apply IH. congruence.
Qed.

Lemma list_sum_set_nth {A : Type} (f : A -> nat) (i : nat) (x y : A) (l : list A) :
  nth_error l i = Some y ->
  (list_sum (map f (set_nth i x l)) + f y = list_sum (map f l) + f x)%nat.
Proof.
  revert i. induction l as [|z l IH]; intros [|i] H; simpl in *; try discriminate.
  - injection H as ->. lia.
  - specialize (IH i H). lia.
Qed.

Lemma Forall_set_nth {A : Type} (P : A -> Prop) (i : nat) (x : A) (l : list A) :
  P x -> Forall P l -> Forall P (set_nth i x l).
Proof.
  intros Hx. revert i. induction l as [|z l IH]; intros i H; simpl.
  - constructor.
  - inversion H; subst. destruct i; constructor; auto.
Qed.

(** The invariant of a stress run: the shared total is what the tester
    started with plus what the coroutines have counted. *)
Definition stress_inv (total0 : nat) (st : stress_state) : Prop :=
  (total_messages (shared st) =
     total0 + list_sum (map connection_messages (tasks st)))%nat /\
  Forall fresh (tasks st).

Lemma stress_start_inv (t : tester) (num_connections : nat) :
  stress_inv (total_messages t) (stress_start t num_connections).
Proof.
  unfold stress_inv, stress_start. simpl. split.
  - generalize (seq 0 num_connections). intro l.
    induction l as [|i l IH]; simpl in *; lia.
  - apply Forall_forall. intros s H. apply in_map_iff in H.
    destruct H as (i & <- & _). reflexivity.
Qed.

Lemma stress_step_inv (duration : Z) (total0 : nat) (st : stress_state)
  (ev : stress_event) :
  stress_inv total0 st -> stress_inv total0 (stress_step duration st ev).
Proof.
  intros [Hsum Hfresh]. destruct ev as [id o|]; simpl.
  - destruct (nth_error (tasks st) id) as [s|] eqn:N; [|split; assumption].
    assert (Fs : fresh s).
    { rewrite Forall_forall in Hfresh. apply Hfresh.
      eapply nth_error_In. exact N. }
    destruct (step_counts stress_channels duration (shared st) s o Fs) as [C F'].
    destruct (single_connection_test_step _ _ _ s o) as [t' s'].
    simpl in *. split; simpl.
    + pose proof (list_sum_set_nth connection_messages id s' s (tasks st) N). lia.
    + apply Forall_set_nth; assumption.
  - split; assumption.
Qed.

Lemma stress_run_inv (duration : Z) (total0 : nat) (schedule : list stress_event)
  (st : stress_state) :
  stress_inv total0 st ->
  stress_inv total0 (fold_left (stress_step duration) schedule st).
Proof.
  revert st. induction schedule as [|ev rest IH]; intros st H; simpl.
  - exact H.
  - apply IH. apply stress_step_inv. exact H.
Qed.

(** Without signals, what a coroutine becomes depends on its own
    observations only, not on how they are interleaved with the others'. *)
Lemma tasks_after_schedule (duration : Z) (schedule : list stress_event)
  (st : stress_state) (id : nat) :
  no_signal schedule = true ->
  nth_error (tasks (fold_left (stress_step duration) schedule st)) id =
  option_map
    (fun s => fold_left (local_step stress_channels duration (is_running (shared st)))
                (deliveries id schedule) s)
    (nth_error (tasks st) id).
Proof.
  revert st. induction schedule as [|ev rest IH]; intros st H; simpl.
  - destruct (nth_error (tasks st) id); reflexivity.
  - destruct ev as [i o|]; [|discriminate]. simpl in H.
    rewrite (IH _ H). clear IH. simpl.
    destruct (nth_error (tasks st) i) as [s|] eqn:N.
    + pose proof (step_local stress_channels duration (shared st) s o) as L.
      pose proof (step_writes stress_channels duration (shared st) s o) as W.
      destruct (single_connection_test_step _ _ _ s o) as [t' s'].
      simpl in *. destruct W as (_ & _ & _ & ->).
      destruct (Nat.eqb_spec i id) as [->|Ne].
      * rewrite (nth_error_set_nth_eq id s' s (tasks st) N), N. simpl.
        rewrite L. reflexivity.
      * rewrite (nth_error_set_nth_neq i id s' (tasks st) Ne), app_nil_l.
        reflexivity.
    + destruct (Nat.eqb_spec i id) as [->|Ne].
      * rewrite N. reflexivity.
      * rewrite app_nil_l. reflexivity.
Qed.

(** C7: after any stress run the shared total is the tester's total
    before the run, 0 on a new tester, plus the sum of the sessions' own
    message counts, and
    two runs that deliver the same observations to each session, in
    whatever order across sessions, end with the same sessions and the
    same total. *)
Theorem stress_total_is_sum_of_sessions :
  forall (t : tester) (num_connections : nat) (duration : Z)
         (schedule schedule' : list stress_event),
    let st := stress_test t num_connections duration schedule in
    let st' := stress_test t num_connections duration schedule' in
    (total_messages (shared st) =
       total_messages t + list_sum (map connection_messages (tasks st)))%nat /\
    (total_messages t = 0%nat ->
     total_messages (shared st) = list_sum (map connection_messages (tasks st))) /\
    (no_signal schedule = true -> no_signal schedule' = true ->
     (forall id, deliveries id schedule = deliveries id schedule') ->
     tasks st = tasks st' /\
     total_messages (shared st) = total_messages (shared st')).
Proof.
  intros t n duration schedule schedule' st st'.
  assert (I1 : stress_inv (total_messages t) st).
  { apply stress_run_inv, stress_start_inv. }
  assert (I2 : stress_inv (total_messages t) st').
  { apply stress_run_inv, stress_start_inv. }
  split; [exact (proj1 I1)|].
  split; [intro Z; rewrite (proj1 I1), Z; reflexivity|].
  intros S S' D.
  assert (E : tasks st = tasks st').
  { apply nth_error_ext. intro id. unfold st, st', stress_test.
    rewrite !tasks_after_schedule by assumption. rewrite D. reflexivity. }
  split; [exact E|].
  destruct I1 as [-> _]. destruct I2 as [-> _]. rewrite E. reflexivity.
Qed.

(** What a step of the reconnection driver writes to the shared
    counters: line 450, in the step that leaves the drain loop through its
    condition, and nothing else. *)
Lemma driver_step_writes (disconnection_interval total_duration : Z)
  (d : reconnection_run) (o : obs) :
  let d' := reconnection_test_step disconnection_interval total_duration d o in
  total_messages (r_tester d') = total_messages (r_tester d) /\
  connection_count (r_tester d') = connection_count (r_tester d) /\
  (reconnection_count (r_tester d') =
     reconnection_count (r_tester d) +
     (if interval_elapsed disconnection_interval d o then 1 else 0))%nat /\
  (interval_elapsed disconnection_interval d o = true ->
   r_phase d = Draining /\ r_phase d' = Checking).
Proof.
  unfold reconnection_test_step, interval_elapsed, prologue.
  destruct (r_phase d) eqn:P; destruct o as [now|r|r|r|];
    try destruct r as [?|e]; try destruct e; simpl;
    repeat (break_match; simpl);
    repeat split; try lia; try discriminate; try reflexivity.
Qed.

(** C4, as the code has it: the aggregate counters are fields of the
    tester object.  In a stress run the sessions write them themselves,
    each in the very step that changes its own state: [total_messages]
    goes up by one exactly when a session decodes a message, with the
    session's own count and while its loop goes on; [connection_count]
    exactly when a connect succeeds; [reconnection_count] exactly when
    connect, authentication send or subscribe raises.  Starting the tasks
    and a shutdown signal write none of the three.  In a reconnection run
    the driver writes one counter, [reconnection_count], and only in the
    step in which the drain loop of a session is left through its
    condition: no step that leaves the driver inside a drain loop writes
    any counter. *)
Theorem sessions_write_shared_counters :
  forall (channels : list string) (duration : Z) (t : tester) (s : session)
         (o : obs) (num_connections : nat)
         (disconnection_interval total_duration : Z) (d : reconnection_run),
    let r := single_connection_test_step channels duration t s o in
    let d' := reconnection_test_step disconnection_interval total_duration d o in
    (total_messages (fst r) = total_messages t + (if decodes s o then 1 else 0))%nat /\
    (connection_count (fst r) =
       connection_count t + (if connects s o then 1 else 0))%nat /\
    (reconnection_count (fst r) =
       reconnection_count t + (if fails channels s o then 1 else 0))%nat /\
    (forall (message : string) (now : Q),
        s_phase s = Stamping message -> o = Now now ->
        processes now message = true -> is_running t = true ->
        (total_messages (fst r) = total_messages t + 1)%nat /\
        (connection_messages (snd r) = connection_messages s + 1)%nat /\
        s_phase (snd r) = Checking) /\
    (total_messages (shared (stress_start t num_connections)) = total_messages t /\
     connection_count (shared (stress_start t num_connections)) = connection_count t /\
     reconnection_count (shared (stress_start t num_connections)) =
       reconnection_count t) /\
    (total_messages (_signal_handler t) = total_messages t /\
     connection_count (_signal_handler t) = connection_count t /\
     reconnection_count (_signal_handler t) = reconnection_count t) /\
    (total_messages (r_tester d') = total_messages (r_tester d) /\
     connection_count (r_tester d') = connection_count (r_tester d) /\
     (reconnection_count (r_tester d') =
        reconnection_count (r_tester d) +
        (if interval_elapsed disconnection_interval d o then 1 else 0))%nat /\
     (interval_elapsed disconnection_interval d o = true ->
      r_phase d = Draining /\ r_phase d' = Checking /\
      exists now : Q,
        o = Now now /\
        (inject_Z disconnection_interval <= now - connection_start d)%Q) /\
     (r_phase d' = Draining \/ r_phase d' = Receiving ->
      reconnection_count (r_tester d') = reconnection_count (r_tester d))).
Proof.
  intros channels duration t s o n di td d r d'.
  pose proof (step_writes channels duration t s o) as (W1 & W2 & W3 & _).
  fold r in W1, W2, W3.
  split; [exact W1|]. split; [exact W2|]. split; [exact W3|].
  split; [|split; [simpl; auto|split; [simpl; auto|]]].
  - intros message now P -> G R. subst r.
    rewrite step_stamping with (message := message) by exact P.
    unfold processes, failure in G. unfold s_process.
    destruct (json_loads message) as [data|e]; [|discriminate].
    destruct (bind (message_latency now data) _) as [ws|e]; [|discriminate].
    unfold s_loop_head. rewrite log_progress_running. simpl. rewrite R. simpl.
    rewrite log_progress_total. simpl. auto.
  - destruct (driver_step_writes di td d o) as (D1 & D2 & D3 & D4). fold d' in D1, D2, D3, D4.
    split; [exact D1|]. split; [exact D2|]. split; [exact D3|]. split.
    + intro E. destruct (D4 E) as [P P']. split; [exact P|]. split; [exact P'|].
      unfold interval_elapsed in E. rewrite P in E.
      destruct o as [now|r0|r0|r0|]; try discriminate.
      exists now. split; [reflexivity|].
      apply negb_true_iff in E. apply Qltb_ge in E. exact E.
    + intro Ph. destruct (interval_elapsed di d o) eqn:E; [|lia].
      destruct (D4 eq_refl) as [_ P']. destruct Ph as [Ph|Ph]; congruence.
Qed.

(** ** The reconnection driver *)

Lemma reconnection_step_counts (disconnection_interval total_duration : Z)
  (s : reconnection_run) (o : obs) :
  let s' := reconnection_test_step disconnection_interval total_duration s o in
  (reconnection_count (r_tester s') =
     reconnection_count (r_tester s) +
     (if interval_elapsed disconnection_interval s o then 1 else 0))%nat /\
  (length (intervals s') =
     length (intervals s) +
     (if interval_elapsed disconnection_interval s o then 1 else 0))%nat.
Proof.
  unfold reconnection_test_step, interval_elapsed, prologue.
  destruct (r_phase s) eqn:P; destruct o as [now|r|r|r|];
    try destruct r as [?|e]; try destruct e; simpl;
    repeat (break_match; simpl); rewrite ?length_app; simpl;
    repeat split; try lia; try discriminate.
Qed.

Lemma reconnection_count_is_intervals (disconnection_interval total_duration : Z)
  (trace : list obs) (s : reconnection_run) :
  let final :=
    fold_left (reconnection_test_step disconnection_interval total_duration) trace s in
  (reconnection_count (r_tester final) + length (intervals s) =
     reconnection_count (r_tester s) + length (intervals final))%nat.
Proof.
  revert s. induction trace as [|o rest IH]; intro s; simpl.
  - lia.
  - specialize (IH (reconnection_test_step disconnection_interval total_duration s o)).
    simpl in IH.
    destruct (reconnection_step_counts disconnection_interval total_duration s o)
      as [C L].
    simpl in C, L. lia.
Qed.

(** C3, as the code has it: [reconnection_count] goes up by one in
    exactly one kind of step, the one where a drain loop is left because
    [disconnection_interval] has elapsed; the driver then stands at its
    outer while condition, from where it connects again if the total
    time is not used up and finishes otherwise.  A drain loop left by an
    error does not touch the counter: the error is logged, the driver
    sleeps, and comes back to the same condition with the counter as it
    was.  So over any run the counter has gone up by the number of drain
    loops left through their condition. *)
Theorem reconnection_counted_when_interval_elapses :
  forall (disconnection_interval total_duration : Z) (s : reconnection_run)
         (o : obs) (t : tester) (trace : list obs),
    let s' := reconnection_test_step disconnection_interval total_duration s o in
    (reconnection_count (r_tester s') =
       reconnection_count (r_tester s) +
       (if interval_elapsed disconnection_interval s o then 1 else 0))%nat /\
    (interval_elapsed disconnection_interval s o = true -> r_phase s' = Checking) /\
    (drain_error s o = true ->
     r_phase s' = Sleeping /\
     reconnection_count (r_tester s') = reconnection_count (r_tester s) /\
     let s'' := reconnection_test_step disconnection_interval total_duration s' SleepDone in
     r_phase s'' = Checking /\
     reconnection_count (r_tester s'') = reconnection_count (r_tester s)) /\
    (forall now : Q,
        r_phase s = Checking -> o = Now now ->
        r_phase s' =
          if Qltb (now - r_start s) (inject_Z total_duration)
          then Connecting else Finished None) /\
    (let final := reconnection_test t disconnection_interval total_duration trace in
     reconnection_count (r_tester final) =
       (reconnection_count t + length (intervals final))%nat).
Proof.
  intros di td s o t trace s'. subst s'.
  split; [apply reconnection_step_counts|].
  split; [|split; [|split]].
  - unfold reconnection_test_step, interval_elapsed, prologue.
    destruct (r_phase s) eqn:P; destruct o as [now|r|r|r|];
      try destruct r as [?|e]; try destruct e; simpl; try discriminate.
    destruct (Qltb _ _); [discriminate|reflexivity].
  - unfold reconnection_test_step, drain_error, prologue.
    destruct (r_phase s) eqn:P; destruct o as [now|r|r|r|];
      try destruct r as [?|e]; try destruct e; simpl; try discriminate;
      repeat split.
  - intros now P ->. unfold reconnection_test_step, prologue. rewrite P.
    destruct (Qltb _ _); reflexivity.
  - intro final. subst final. unfold reconnection_test.
    pose proof (reconnection_count_is_intervals di td trace (reconnection_init t)) as H.
    simpl in H. lia.
Qed.

(** *** A run with [total_duration] 25 and [disconnection_interval] 10 *)

(** The least and, for the first interval, the greatest time after the
    start at which [n] drain loops can be over, when readings are at most
    3 seconds apart. *)
Definition lower (n : nat) : Q :=
  match n with O => 0 | S O => 10 | S (S O) => 20 | _ => 30 end.

Definition upper (n : nat) : Q :=
  match n with O => 0 | _ => 19 end.

Definition reconnect_inv (t0 : Q) (count0 : nat) (s : reconnection_run) (last : Q)
  : Prop :=
  let n := length (intervals s) in
  r_start s = t0 /\
  reconnection_count (r_tester s) = (count0 + n)%nat /\
  Forall (fun d => 10 <= d)%Q (intervals s) /\
  match r_phase s with
  | Checking =>
      (n <= 3)%nat /\ (t0 + lower n <= last)%Q /\
      ((n <= 1)%nat -> (last <= t0 + upper n)%Q)
  | Connecting | AuthSending | AuthWaiting | Subscribing | Timing =>
      (n <= 2)%nat /\ (t0 + lower n <= last)%Q /\
      ((n <= 1)%nat -> (last <= t0 + upper n + 3)%Q)
  | Draining | Receiving =>
      (n <= 2)%nat /\ (t0 + lower n <= connection_start s)%Q /\
      (connection_start s <= last)%Q /\ (last - connection_start s < 10)%Q /\
      ((n <= 1)%nat -> (connection_start s <= t0 + upper n + 6)%Q)
  | Finished _ => (2 <= n <= 3)%nat
  | Stuck => True
  | _ => False
  end.

Definition reading (last : Q) (o : obs) : Q :=
  match o with Now t => t | _ => last end.

Lemma lower_cases (n : nat) :
  (n <= 3)%nat ->
  (n = 0%nat /\ lower n = 0%Q) \/ (n = 1%nat /\ lower n = 10%Q) \/
  (n = 2%nat /\ lower n = 20%Q) \/ (n = 3%nat /\ lower n = 30%Q).
Proof.
  intro H. destruct n as [|[|[|[|n]]]]; simpl; auto 6. lia.
Qed.

Lemma reconnect_step_inv (t0 : Q) (count0 : nat) (s : reconnection_run)
  (last : Q) (o : obs) :
  reconnect_inv t0 count0 s last ->
  no_failures [o] = true ->
  steady 3 last [o] ->
  reconnect_inv t0 count0 (reconnection_test_step 10 25 s o) (reading last o).
Proof.
  unfold reconnect_inv, reconnection_test_step, prologue.
  intros (Hs & Hc & Hf & Hi) NF ST.
  destruct (r_phase s) eqn:P; try contradiction;
    destruct o as [now|r|r|r|]; try destruct r as [?|e]; try destruct e;
    try discriminate NF; cbn [steady reading] in ST |- *;
    try (destruct (has_credentials cfg); simpl; rewrite ?app_nil_r; tauto);
    try (simpl; rewrite ?app_nil_r; tauto);
    try (rewrite P; tauto).
  - (* the outer while condition *)
    destruct ST as [[L1 L2] _]. destruct Hi as (N & Lo & Up).
    rewrite Hs.
    destruct (Qltb (now - t0) (inject_Z 25)) eqn:Q; simpl; qprop;
      unfold inject_Z in Q; (split; [exact Hs|]); (split; [exact Hc|]);
      (split; [exact Hf|]).
    + destruct (lower_cases _ N) as [[E V]|[[E V]|[[E V]|[E V]]]];
        rewrite E, V in *; simpl in Up |- *; repeat split; try lia; try lra;
        intro; try lia; try (specialize (Up ltac:(lia))); lra.
    + destruct (lower_cases _ N) as [[E V]|[[E V]|[[E V]|[E V]]]];
        rewrite E, V in *; simpl in Up |- *; try lia;
        specialize (Up ltac:(lia)); lra.
  - (* connection_start is read *)
    destruct ST as [[L1 L2] _]. destruct Hi as (N & Lo & Up). simpl.
    repeat split; try assumption; try lra. intro H. specialize (Up H). lra.
  - (* the inner while condition *)
    destruct ST as [[L1 L2] _]. destruct Hi as (N & Lo & Cs & In & Up).
    destruct (Qltb (now - connection_start s) (inject_Z 10)) eqn:Q; simpl; qprop;
      unfold inject_Z in Q.
    + repeat split; try assumption; try lra.
    + rewrite length_app. simpl length. split; [exact Hs|]. split; [lia|].
      split.
      * apply Forall_app. split; [exact Hf|]. constructor; [lra|constructor].
      * assert (N3 : (length (intervals s) <= 3)%nat) by lia.
        destruct (lower_cases _ N3) as [[E V]|[[E V]|[[E V]|[E V]]]];
          rewrite E, V in *; simpl in Up |- *; repeat split; try lia; try lra;
          intro; try lia. specialize (Up ltac:(lia)). lra.
Qed.

Lemma reconnect_run_inv (t0 : Q) (count0 : nat) (trace : list obs) :
  forall (s : reconnection_run) (last : Q),
    reconnect_inv t0 count0 s last ->
    no_failures trace = true ->
    steady 3 last trace ->
    exists last', reconnect_inv t0 count0
                    (fold_left (reconnection_test_step 10 25) trace s) last'.
Proof.
  induction trace as [|o rest IH]; intros s last Hinv NF ST.
  - exists last. exact Hinv.
  - simpl in NF. apply andb_true_iff in NF. destruct NF as [NFo NFrest].
    simpl fold_left. apply (IH _ (reading last o)).
    + apply reconnect_step_inv.
      * exact Hinv.
      * simpl. rewrite NFo. reflexivity.
      * destruct o; simpl in ST |- *; tauto.
    + exact NFrest.
    + destruct o; simpl in ST |- *; tauto.
Qed.

(** What the driver waits for in each phase: an observation of another
    kind cannot reach it there. *)
Definition awaits (p : phase) (o : obs) : bool :=
  match p, o with
  | (Starting | Checking | Timing | Draining), Now _ => true
  | Connecting, ConnectDone _ => true
  | (AuthSending | Subscribing), SendDone _ => true
  | (AuthWaiting | Receiving), RecvDone _ => true
  | Sleeping, SleepDone => true
  | Finished _, _ => true
  | _, _ => false
  end.

(** A trace that gives the driver, at each step, what it is waiting
    for. *)
Fixpoint awaited (disconnection_interval total_duration : Z) (s : reconnection_run)
  (trace : list obs) : Prop :=
  match trace with
  | [] => True
  | o :: rest =>
      awaits (r_phase s) o = true /\
      awaited disconnection_interval total_duration
        (reconnection_test_step disconnection_interval total_duration s o) rest
  end.

(** How late the driver can be where it stands, when readings are at most
    3 seconds apart: a session is begun before second 25, its drain loop
    before second 28, and a reading inside the loop is less than 10
    seconds after that. *)
Definition on_course (t0 : Q) (s : reconnection_run) (last : Q) : Prop :=
  r_start s = t0 /\
  match r_phase s with
  | Checking => True
  | Connecting | AuthSending | AuthWaiting | Subscribing | Timing =>
      (last < t0 + 25)%Q
  | Draining | Receiving =>
      (connection_start s < t0 + 28)%Q /\ (last - connection_start s < 10)%Q
  | Finished f => f = None
  | _ => False
  end.

Lemma on_course_step (t0 : Q) (s : reconnection_run) (last : Q) (o : obs) :
  on_course t0 s last ->
  awaits (r_phase s) o = true ->
  no_failures [o] = true ->
  steady 3 last [o] ->
  on_course t0 (reconnection_test_step 10 25 s o) (reading last o) /\
  (forall now : Q, o = Now now -> (t0 + 41 <= now)%Q ->
     r_phase (reconnection_test_step 10 25 s o) = Finished None).
Proof.
  unfold on_course, reconnection_test_step, prologue.
  intros (Hs & Hi) A NF ST.
  destruct (r_phase s) eqn:P; try contradiction;
    destruct o as [now|r|r|r|]; try discriminate A;
    try destruct r as [?|e]; try destruct e; try discriminate NF;
    cbn [steady reading] in ST |- *;
    try (destruct (has_credentials cfg); simpl;
         (split; [split; [exact Hs|exact Hi]|intros ? E; discriminate E]); fail);
    try (simpl; split; [split; [exact Hs|exact Hi]|intros ? E; discriminate E]; fail);
    try (rewrite P;
         (split; [split; [exact Hs|exact Hi]|intros x _ _; rewrite Hi; reflexivity]);
         fail).
  - (* the outer while condition *)
    destruct ST as [[L1 L2] _]. rewrite Hs.
    destruct (Qltb (now - t0) (inject_Z 25)) eqn:Q; simpl; qprop;
      unfold inject_Z in Q.
    + split; [split; [exact Hs|lra]|]. intros x [= <-] Late. lra.
    + split; [split; [exact Hs|reflexivity]|]. intros x _ _. reflexivity.
  - (* connection_start is read *)
    destruct ST as [[L1 L2] _]. simpl.
    split; [split; [exact Hs|split; lra]|]. intros x [= <-] Late. lra.
  - (* the inner while condition *)
    destruct ST as [[L1 L2] _]. destruct Hi as [C1 C2].
    destruct (Qltb (now - connection_start s) (inject_Z 10)) eqn:Q; simpl; qprop;
      unfold inject_Z in Q.
    + split; [split; [exact Hs|split; lra]|]. intros x [= <-] Late. lra.
    + split; [split; [exact Hs|exact I]|]. intros x [= <-] Late. lra.
Qed.

Lemma reconnection_finished_stays (disconnection_interval total_duration : Z)
  (s : reconnection_run) (f : option exn) (trace : list obs) :
  r_phase s = Finished f ->
  fold_left (reconnection_test_step disconnection_interval total_duration) trace s = s.
Proof.
  intro P. induction trace as [|o rest IH]; [reflexivity|].
  cbn [fold_left].
  assert (E : reconnection_test_step disconnection_interval total_duration s o = s).
  { unfold reconnection_test_step, prologue. rewrite P.
    destruct o as [now|[[]|e]|[[]|e]|[m|e]|]; reflexivity. }
  rewrite E. exact IH.
Qed.

(** Once the clock reads 41 seconds or more after the start, the driver
    has finished. *)
Lemma on_course_run (t0 : Q) (trace : list obs) :
  forall (s : reconnection_run) (last : Q),
    on_course t0 s last ->
    no_failures trace = true ->
    steady 3 last trace ->
    awaited 10 25 s trace ->
    (exists now : Q, In (Now now) trace /\ (t0 + 41 <= now)%Q) ->
    r_phase (fold_left (reconnection_test_step 10 25) trace s) = Finished None.
Proof.
  induction trace as [|o rest IH]; intros s last C NF ST Aw (now & Hin & Late).
  - destruct Hin.
  - destruct Aw as [A Aw]. simpl in NF. apply andb_true_iff in NF. destruct NF as [NFo NFrest].
    assert (NF1 : no_failures [o] = true) by (simpl; rewrite NFo; reflexivity).
    assert (ST1 : steady 3 last [o]) by (destruct o; simpl in ST |- *; tauto).
    assert (STr : steady 3 (reading last o) rest) by (destruct o; simpl in ST |- *; tauto).
    destruct (on_course_step t0 s last o C A NF1 ST1) as [C' Fin].
    cbn [fold_left]. destruct Hin as [->|Hin].
    + rewrite (reconnection_finished_stays 10 25 _ None rest); apply (Fin now eq_refl Late).
    + apply (IH _ (reading last o) C' NFrest STr Aw). exists now. split; assumption.
Qed.

(** C5, as the code has it: [total_duration] is only looked at between
    two sessions, so a drain loop is never cut short.  Take
    [total_duration] 25 and [disconnection_interval] 10, and a run in
    which nothing raises, the clock readings are at most 3 seconds apart,
    every observation is one the driver is waiting for, and the driver
    is followed until the clock reads 41 seconds or more after the start.
    The driver has then finished.  Every drain loop lasted the full 10
    seconds or more, there are two or three of them and no partial one,
    and the reconnection counter has gone up by their number, hence by at
    least 2. *)
Theorem reconnection_run_has_full_intervals_only :
  forall (t : tester) (t0 : Q) (rest : list obs),
    no_failures rest = true ->
    steady 3 t0 rest ->
    awaited 10 25 (reconnection_init t) (Now t0 :: rest) ->
    (exists now : Q, In (Now now) rest /\ (t0 + 41 <= now)%Q) ->
    let final := reconnection_test t 10 25 (Now t0 :: rest) in
    r_phase final = Finished None /\
    Forall (fun d => 10 <= d)%Q (intervals final) /\
    (length (intervals final) = 2%nat \/ length (intervals final) = 3%nat) /\
    reconnection_count (r_tester final) =
      (reconnection_count t + length (intervals final))%nat /\
    (reconnection_count t + 2 <= reconnection_count (r_tester final))%nat.
Proof.
  intros t t0 rest NF ST [_ Aw] Late final. subst final.
  unfold reconnection_test in *. simpl fold_left in *.
  set (s1 := reconnection_test_step 10 25 (reconnection_init t) (Now t0)) in *.
  assert (H1 : reconnect_inv t0 (reconnection_count t) s1 t0).
  { unfold reconnect_inv, s1. simpl. repeat split; try lia; try lra;
      try constructor. }
  assert (C1 : on_course t0 s1 t0).
  { unfold on_course, s1. simpl. split; [reflexivity|exact I]. }
  pose proof (on_course_run t0 rest s1 t0 C1 NF ST Aw Late) as Fin.
  destruct (reconnect_run_inv t0 (reconnection_count t) rest s1 t0 H1 NF ST)
    as (last' & Hs & Hc & Hf & Hi).
  rewrite Fin in Hi. split; [exact Fin|]. repeat split; try assumption; lia.
Qed.

(** ** Routing of ticks *)

Lemma prefix_spec (s t : string) :
  String.prefix s t = true <-> exists post, t = (s ++ post)%string.
Proof.
  revert t. induction s as [|a s IH]; intro t.
  - split; [intros _; exists t; reflexivity|]. intros _.
    destruct t; reflexivity.
  - destruct t as [|b t]; simpl.
    + split; [discriminate|]. intros [post H]. discriminate.
    + destruct (ascii_dec a b) as [->|Ne].
      * rewrite IH. split; intros [post H]; exists post.
        -- rewrite H. reflexivity.
        -- injection H as H. exact H.
      * split; [discriminate|]. intros [post H]. injection H as H _.
        congruence.
Qed.

Lemma substringb_spec (s t : string) :
  substringb s t = true <-> exists pre post, t = (pre ++ s ++ post)%string.
Proof.
  induction t as [|b t IH]; cbn [substringb].
  - rewrite orb_false_r, prefix_spec. split.
    + intros [post H]. exists EmptyString, post. exact H.
    + intros (pre & post & H). destruct pre as [|a pre]; [|discriminate].
      exists post. exact H.
  - rewrite orb_true_iff, prefix_spec, IH. split.
    + intros [[post H]|(pre & post & H)].
      * exists EmptyString, post. exact H.
      * exists (String b pre), post. rewrite H. reflexivity.
    + intros (pre & post & H). destruct pre as [|a pre].
      * left. exists post. exact H.
      * right. injection H as _ H. exists pre, post. exact H.
Qed.

Lemma route_first (pre : list string) (ch : string) (post : list string) (c : string) :
  Forall (fun x => substringb x c = false) pre ->
  substringb ch c = true ->
  route (pre ++ ch :: post) (JStr c) = Ok (Some ch).
Proof.
  intros Hpre Hch. induction Hpre as [|x pre Hx _ IH]; simpl.
  - rewrite Hch. reflexivity.
  - rewrite Hx. exact IH.
Qed.

Lemma route_none (channels : list string) (c : string) :
  Forall (fun x => substringb x c = false) channels ->
  route channels (JStr c) = Ok None.
Proof.
  intro H. induction H as [|x l Hx _ IH]; simpl.
  - reflexivity.
  - rewrite Hx. exact IH.
Qed.

Lemma dict_append_spec (ch : string) (info : tick_info)
  (d : dict (list tick_info)) (old : list tick_info) :
  assoc ch d = Some old ->
  exists d',
    dict_append ch info d = Ok d' /\
    assoc ch d' = Some (old ++ [info]) /\
    (forall other, other <> ch -> assoc other d' = assoc other d) /\
    map fst d' = map fst d.
Proof.
  induction d as [|[k ticks] d IH]; simpl; [discriminate|].
  destruct (String.eqb ch k) eqn:E; intro H.
  - injection H as ->. eexists. split; [reflexivity|]. simpl.
    rewrite E. repeat split. intros other Ne.
    apply String.eqb_eq in E. subst k.
    destruct (String.eqb other ch) eqn:E'; [|reflexivity].
    apply String.eqb_eq in E'. congruence.
  - destruct (IH H) as (d' & A & B & C & D). rewrite A. simpl.
    eexists. split; [reflexivity|]. simpl. rewrite E.
    split; [exact B|]. split.
    + intros other Ne. destruct (String.eqb other k); [reflexivity|].
      apply C. exact Ne.
    + rewrite D. reflexivity.
Qed.

(** C10: a decoded channel message whose channel field is the string [c]
    is counted in [tick_count] whatever happens next, and its tick is
    appended to the list of the first channel of the subscription list,
    in list order, that occurs in [c] as a substring, every other list
    being left as it was; when no subscribed channel occurs in [c] the
    storage is unchanged.  Occurring as a substring means [c] is some
    prefix, then the channel name, then some suffix. *)
Theorem tick_routed_to_first_substring_match :
  forall (channels : list string) (s : tick_run) (message : string) (now : Q)
         (data : json) (info : tick_info) (c : string),
    json_loads message = Ok data ->
    is_channel_message data = Ok true ->
    make_tick (tick_count s + 1) now data = Ok info ->
    tick_channel info = JStr c ->
    let s' := k_process channels s message now in
    tick_count s' = (tick_count s + 1)%nat /\
    (forall (pre : list string) (ch : string) (post : list string)
            (old : list tick_info),
        channels = pre ++ ch :: post ->
        Forall (fun x => substringb x c = false) pre ->
        substringb ch c = true ->
        assoc ch (tick_data s) = Some old ->
        assoc ch (tick_data s') = Some (old ++ [info]) /\
        (forall other, other <> ch ->
                       assoc other (tick_data s') = assoc other (tick_data s))) /\
    (Forall (fun x => substringb x c = false) channels ->
     tick_data s' = tick_data s) /\
    (forall x t : string,
        substringb x t = true <-> exists pre post, t = (pre ++ x ++ post)%string).
Proof.
  intros channels s message now data info c L C M T s'. subst s'.
  unfold k_process. rewrite L. cbn [tick_count]. unfold store_tick.
  rewrite C. cbn [bind]. rewrite M. cbn [bind]. rewrite T.
  split; [|split; [|split; [|exact substringb_spec]]].
  - destruct (route channels (JStr c)) as [[ch|]|e]; cbn [bind].
    + destruct (dict_append ch info (tick_data s)) as [d'|e]; cbn [bind].
      * reflexivity.
      * destruct e; reflexivity.
    + reflexivity.
    + destruct e; reflexivity.
  - intros pre ch post old -> Hpre Hch Hold.
    rewrite (route_first pre ch post c Hpre Hch). cbn [bind].
    destruct (dict_append_spec ch info (tick_data s) old Hold)
      as (d' & A & B & D & _).
    rewrite A. cbn [bind tick_data]. split; assumption.
  - intro H. rewrite (route_none channels c H). reflexivity.
Qed.

(** ** The tick analyser *)

Lemma Qnat_S_nonzero (n : nat) : Qeq_bool (Qnat (S n)) 0 = false.
Proof.
  destruct (Qeq_bool (Qnat (S n)) 0) eqn:E; [|reflexivity].
  apply Qeq_bool_eq in E. unfold Qeq, Qnat in E. simpl in E. lia.
Qed.

Lemma Qnat_S_pos (n : nat) : (0 < Qnat (S n))%Q.
Proof. unfold Qlt, Qnat. simpl. lia. Qed.


Lemma Qnat_plus (a b : nat) : (Qnat (a + b) == Qnat a + Qnat b)%Q.
Proof. unfold Qnat. rewrite Nat2Z.inj_add, inject_Z_plus. reflexivity. Qed.

Lemma Qnat_S (n : nat) : (Qnat (S n) == Qnat n + 1)%Q.
Proof.
  replace (S n) with (n + 1)%nat by lia. rewrite Qnat_plus. reflexivity.
Qed.

Lemma py_div_S (a : Q) (n : nat) : py_div a (Qnat (S n)) = Ok (a / Qnat (S n))%Q.
Proof. unfold py_div. rewrite Qnat_S_nonzero. reflexivity. Qed.

Lemma percentage_S (count n : nat) :
  percentage count (S n) = Ok (Qnat count / Qnat (S n) * 100)%Q.
Proof. unfold percentage. rewrite py_div_S. reflexivity. Qed.

Lemma py_div_duration (a : Q) (duration : Z) :
  duration <> 0%Z -> py_div a (inject_Z duration) = Ok (a / inject_Z duration)%Q.
Proof.
  intro H. unfold py_div.
  destruct (Qeq_bool (inject_Z duration) 0) eqn:E; [|reflexivity].
  apply Qeq_bool_eq in E. unfold Qeq in E. simpl in E. lia.
Qed.

(** *** The log of a composed action *)

Definition completes (m : action unit) : Prop :=
  exists lines, m = (lines, Ok tt).

Lemma and_then_ok {A B : Type} (m : action A) (k : A -> action B)
  (lines : list entry) (a : A) (lines' : list entry) (b : B) :
  m = (lines, Ok a) -> k a = (lines', Ok b) ->
  and_then m k = (lines ++ lines', Ok b).
Proof. intros -> E. unfold and_then. rewrite E. reflexivity. Qed.

Lemma completes_then (m k : action unit) :
  completes m -> completes k -> completes (m ;;; k).
Proof.
  intros [l1 E1] [l2 E2]. exists (l1 ++ l2).
  apply (and_then_ok m (fun _ => k) l1 tt l2 tt E1 E2).
Qed.

Lemma completes_info (e : entry) : completes (info e).
Proof. exists [e]. reflexivity. Qed.

Lemma completes_ret : completes (ret tt).
Proof. exists []. reflexivity. Qed.

Lemma completes_lift {A : Type} (r : result A) (k : A -> action unit) (a : A) :
  r = Ok a -> completes (k a) -> completes (x <~ lift r ;; k x).
Proof.
  intros -> [l E]. exists l. unfold lift, and_then. rewrite E. reflexivity.
Qed.

Lemma for_each_completes {A : Type} (body : A -> action unit) (l : list A) :
  (forall x, In x l -> completes (body x)) -> completes (for_each body l).
Proof.
  induction l as [|x l IH]; intro H; simpl.
  - apply completes_ret.
  - apply completes_then.
    + apply H. left. reflexivity.
    + apply IH. intros y Hy. apply H. right. exact Hy.
Qed.

Lemma for_each_lines {A : Type} (body : A -> action unit) (l : list A)
  (lines : list entry) (x : A) (e : entry) :
  for_each body l = (lines, Ok tt) ->
  In x l -> In e (fst (body x)) -> In e lines.
Proof.
  revert lines. induction l as [|y l IH]; intros lines E Hx He; [contradiction|].
  simpl in E. unfold and_then in E.
  destruct (body y) as [l1 [[]|err]] eqn:By; [|discriminate].
  destruct (for_each body l) as [l2 r] eqn:F.
  injection E as <- ->. apply in_or_app.
  destruct Hx as [->|Hx].
  - left. rewrite By in He. exact He.
  - right. apply (IH l2 eq_refl Hx He).
Qed.

(** What the first part of a sequence logs is logged, and so is what the
    second part logs once the first has returned. *)
Lemma lines_first {A B : Type} (m : action A) (k : A -> action B) :
  incl (fst m) (fst (and_then m k)).
Proof.
  destruct m as [lines [a|e]]; unfold and_then; [|apply incl_refl].
  destruct (k a) as [lines' r]. apply incl_appl, incl_refl.
Qed.

Lemma lines_later {A B : Type} (m : action A) (k : A -> action B) (a : A) :
  snd m = Ok a -> incl (fst (k a)) (fst (and_then m k)).
Proof.
  destruct m as [lines r]. simpl. intros ->. unfold and_then.
  destruct (k a) as [lines' r']. apply incl_appr, incl_refl.
Qed.

(** A loop gets to an item when its body has returned on the items
    before it. *)
Lemma for_each_reaches {A : Type} (body : A -> action unit) (before : list A)
  (x : A) (after : list A) :
  Forall (fun y => completes (body y)) before ->
  incl (fst (body x)) (fst (for_each body (before ++ x :: after))).
Proof.
  induction before as [|y before IH]; intro F; simpl.
  - apply lines_first.
  - inversion F as [|? ? [lines E] F']; subst.
    eapply incl_tran; [apply (IH F')|].
    apply (lines_later (body y) (fun _ => for_each body (before ++ x :: after)) tt).
    rewrite E. reflexivity.
Qed.

Lemma lines_and_then {A B : Type} (P : entry -> Prop) (m : action A) (k : A -> action B) :
  Forall P (fst m) -> (forall a, Forall P (fst (k a))) ->
  Forall P (fst (and_then m k)).
Proof.
  intros Hm Hk. destruct m as [lines [a|e]]; [|exact Hm].
  unfold and_then. specialize (Hk a). destruct (k a) as [lines' r].
  apply Forall_app. split; assumption.
Qed.

Lemma lines_for_each {A : Type} (P : entry -> Prop) (body : A -> action unit)
  (l : list A) :
  (forall x, In x l -> Forall P (fst (body x))) -> Forall P (fst (for_each body l)).
Proof.
  intro H. induction l as [|x l IH]; [constructor|].
  cbn [for_each]. apply lines_and_then; [apply H; left; reflexivity|].
  intros _. apply IH. intros y Hy. apply H. right. exact Hy.
Qed.

(** *** Numbers of ordinary size *)

Lemma moderate_spec (q : Q) :
  moderate q = true <-> (- moderate_bound <= q /\ q <= moderate_bound)%Q.
Proof. unfold moderate. rewrite Qle_bool_iff. apply Qabs_Qle_condition. Qed.

Lemma moderate_squares : (4 * moderate_bound * moderate_bound < float_limit)%Q.
Proof. vm_compute. reflexivity. Qed.

Lemma moderate_bound_pos : (0 < moderate_bound)%Q.
Proof. vm_compute. reflexivity. Qed.

Lemma moderate_bound_below : (moderate_bound < float_limit)%Q.
Proof. vm_compute. reflexivity. Qed.

Lemma square_nonneg (a : Q) : (0 <= a * a)%Q.
Proof.
  destruct (Qlt_le_dec a 0) as [N|P].
  - setoid_replace (a * a)%Q with ((- a) * (- a))%Q by ring.
    apply Qmult_le_0_compat; lra.
  - apply Qmult_le_0_compat; exact P.
Qed.

Lemma square_le (v b : Q) : (- b <= v /\ v <= b)%Q -> (v * v <= b * b)%Q.
Proof.
  intros [L U].
  assert (H : (0 <= (b - v) * (b + v))%Q) by (apply Qmult_le_0_compat; lra).
  setoid_replace ((b - v) * (b + v))%Q with (b * b - v * v)%Q in H by ring.
  lra.
Qed.

Lemma moderate_no_overflow (q : Q) : moderate q = true -> overflows q = false.
Proof.
  unfold moderate, overflows. intro H. apply Qle_bool_iff in H.
  apply Qle_bool_gt. pose proof moderate_bound_below. lra.
Qed.

(** The square of the difference of two numbers of ordinary size is a
    float. *)
Lemma float_square_ok (v : Q) :
  (- (2 * moderate_bound) <= v /\ v <= 2 * moderate_bound)%Q ->
  float_square v = Ok (v * v)%Q.
Proof.
  intro H. unfold float_square, overflows.
  assert (E : Qle_bool float_limit (Qabs (v * v)) = false).
  { apply Qle_bool_gt. rewrite (Qabs_pos _ (square_nonneg v)).
    pose proof (square_le v (2 * moderate_bound) H) as S.
    pose proof moderate_squares as M.
    setoid_replace (2 * moderate_bound * (2 * moderate_bound))%Q
      with (4 * moderate_bound * moderate_bound)%Q in S by ring.
    lra. }
  rewrite E. reflexivity.
Qed.

Lemma fold_Qplus_bounds (lo hi : Q) (l : list Q) :
  Forall (fun y => lo <= y /\ y <= hi)%Q l ->
  forall acc : Q,
    (acc + Qnat (length l) * lo <= fold_left Qplus l acc)%Q /\
    (fold_left Qplus l acc <= acc + Qnat (length l) * hi)%Q.
Proof.
  induction 1 as [|y l [Hlo Hhi] _ IH]; intro acc; simpl fold_left; simpl length.
  - change (Qnat 0) with 0%Q. split; lra.
  - destruct (IH (acc + y)%Q) as [A B]. rewrite Qnat_S. split; lra.
Qed.

Lemma mean_bounds (lo hi : Q) (x : Q) (l : list Q) :
  Forall (fun y => lo <= y /\ y <= hi)%Q (x :: l) ->
  (lo <= Qsum (x :: l) / Qnat (length (x :: l)) /\
   Qsum (x :: l) / Qnat (length (x :: l)) <= hi)%Q.
Proof.
  intro F. destruct (fold_Qplus_bounds _ _ _ F 0%Q) as [A B].
  fold (Qsum (x :: l)) in A, B.
  pose proof (Qnat_S_pos (length l)) as P. simpl length in *.
  split.
  - apply Qle_shift_div_l; [exact P|]. lra.
  - apply Qle_shift_div_r; [exact P|]. lra.
Qed.

Lemma Qsum_nonneg (l : list Q) :
  Forall (fun y => 0 <= y)%Q l -> (0 <= Qsum l)%Q.
Proof.
  intro F. unfold Qsum.
  assert (G : forall acc, (0 <= acc)%Q -> (0 <= fold_left Qplus l acc)%Q).
  { induction F as [|y l Hy _ IH]; intros acc Ha; simpl.
    - exact Ha.
    - apply IH. lra. }
  apply G. lra.
Qed.

Lemma for_all_ok {A B : Type} (f : A -> result B) (g : A -> B) (l : list A) :
  (forall x, In x l -> f x = Ok (g x)) -> for_all f l = Ok (map g l).
Proof.
  induction l as [|x l IH]; intro H; [reflexivity|].
  cbn [for_all map]. rewrite (H x (or_introl eq_refl)). cbn [bind].
  rewrite IH; [reflexivity|]. intros y Hy. apply H. right. exact Hy.
Qed.

(** With delays of ordinary size the squares of line 423 are floats, and
    [_calculate_std_dev] returns. *)
Lemma variance_moderate (values : list Q) :
  forallb moderate values = true ->
  exists var, variance values = Ok var /\ (0 <= var)%Q.
Proof.
  intro M. destruct values as [|x l].
  { exists 0%Q. split; [reflexivity|lra]. }
  assert (F : Forall (fun y => - moderate_bound <= y /\ y <= moderate_bound)%Q (x :: l)).
  { apply Forall_forall. intros y Hy. apply moderate_spec.
    rewrite forallb_forall in M. apply M. exact Hy. }
  destruct (mean_bounds _ _ x l F) as [Ml Mu].
  unfold variance. cbn [length] in *. rewrite py_div_S. cbn [bind].
  set (mean := (Qsum (x :: l) / Qnat (S (length l)))%Q) in *.
  rewrite (for_all_ok _ (fun y => (y - mean) * (y - mean))%Q).
  - cbn [bind]. rewrite py_div_S. eexists. split; [reflexivity|].
    apply Qle_shift_div_l; [apply Qnat_S_pos|]. rewrite Qmult_0_l.
    apply Qsum_nonneg. apply Forall_forall. intros y Hy.
    apply in_map_iff in Hy. destruct Hy as (z & <- & _). apply square_nonneg.
  - intros y Hy. apply float_square_ok.
    rewrite Forall_forall in F. destruct (F y Hy) as [L U]. split; lra.
Qed.

(** *** Delay statistics and ranges *)

(** The records that lines 362-365 log for a list of delays. *)
Definition ranges_log (delays : list Q) : list entry :=
  map (fun item => DelayDistribution (fst item) (snd item)
                     (Qnat (snd item) / Qnat (length delays) * 100)%Q)
      (delay_ranges delays).

(** What [delay_analysis] logs for a non-empty list of delays: average,
    median, minimum and maximum; then, if the standard deviation can be
    computed, the deviation and one record per range with its count and
    its share of [len(delays)] in percent. *)
Lemma delay_analysis_report (first : Q) (others : list Q) :
  let delays := first :: others in
  let stats :=
    DelayStatistics (Qsum delays / Qnat (length delays))
      (nth (length delays / 2) (sorted delays) 0%Q)
      (Qmin_list first others) (Qmax_list first others) in
  delay_analysis delays =
    match variance delays with
    | Ok var => (stats :: DelayStdDev var :: ranges_log delays, Ok tt)
    | Raise e => ([stats], Raise e)
    end.
Proof.
  intros delays stats. unfold delay_analysis. subst stats delays.
  cbn [length]. rewrite py_div_S. cbn [lift and_then info app].
  destruct (variance (first :: others)) as [var|e]; [|reflexivity].
  cbn [lift and_then info app delay_ranges for_each ret].
  rewrite !percentage_S. cbn [lift and_then info app ret]. reflexivity.
Qed.

Definition bucket_sum (delays : list Q) : nat :=
  list_sum (map snd (delay_ranges delays)).

Lemma count_if_cons (p : Q -> bool) (d : Q) (l : list Q) :
  count_if p (d :: l) = ((if p d then 1 else 0) + count_if p l)%nat.
Proof. unfold count_if. simpl. destruct (p d); reflexivity. Qed.

(** The five ranges cover exactly the delays that are not negative, each
    of them once. *)
Lemma bucket_sum_nonnegative (delays : list Q) :
  bucket_sum delays = count_if (Qle_bool 0) delays.
Proof.
  unfold bucket_sum, delay_ranges. cbn [map snd list_sum].
  induction delays as [|d l IH].
  - reflexivity.
  - rewrite !count_if_cons, <- IH. clear IH.
    destruct (Qle_bool 0 d) eqn:E0; destruct (Qltb d 50) eqn:E1;
      destruct (Qle_bool 50 d) eqn:E2; destruct (Qltb d 100) eqn:E3;
      destruct (Qle_bool 100 d) eqn:E4; destruct (Qltb d 200) eqn:E5;
      destruct (Qle_bool 200 d) eqn:E6; destruct (Qltb d 500) eqn:E7;
      destruct (Qle_bool 500 d) eqn:E8;
      unfold list_sum; cbn [andb fold_right]; try lia; exfalso; qprop; lra.
Qed.







Lemma Qmin_list_le (l : list Q) :
  forall x : Q,
    (Qmin_list x l <= x)%Q /\ (forall y, In y l -> Qmin_list x l <= y)%Q.
Proof.
  unfold Qmin_list. induction l as [|z l IH]; intro x; simpl.
  - split; [lra|contradiction].
  - destruct (Qltb z x) eqn:E; qprop.
    + destruct (IH z) as [A B]. split; [lra|].
      intros y [<-|Hy]; [exact A|apply B; exact Hy].
    + destruct (IH x) as [A B]. split; [exact A|].
      intros y [<-|Hy]; [lra|apply B; exact Hy].
Qed.

Lemma In_Qinsert (x d : Q) (l : list Q) :
  In d (Qinsert x l) <-> d = x \/ In d l.
Proof.
  induction l as [|y l IH]; simpl.
  - intuition.
  - destruct (Qltb x y); simpl; rewrite ?IH; intuition.
Qed.

Lemma In_sorted (d : Q) (l : list Q) : In d (sorted l) <-> In d l.
Proof.
  unfold sorted.
  assert (G : forall acc, In d (fold_left (fun acc x => Qinsert x acc) l acc) <->
                          In d acc \/ In d l).
  { induction l as [|x l IH]; intro acc; simpl.
    - intuition.
    - rewrite IH, In_Qinsert. intuition. }
  rewrite G. simpl. intuition.
Qed.


Lemma delays_of_map (ticks : list tick_info) :
  delays_of ticks =
  flat_map (fun d => match d with Some q => [q] | None => [] end) (map delay_ms ticks).
Proof.
  unfold delays_of. induction ticks as [|tick ticks IH]; simpl.
  - reflexivity.
  - rewrite IH. reflexivity.
Qed.

Lemma count_if_app (p : Q -> bool) (l1 l2 : list Q) :
  count_if p (l1 ++ l2) = (count_if p l1 + count_if p l2)%nat.
Proof. unfold count_if. rewrite filter_app, length_app. reflexivity. Qed.

(** *** The report *)

(** Prices as a feed sends them: a number of ordinary size, or none. *)
Definition numeric (v : json) : bool :=
  match v with
  | JNull | JBool _ | JNum _ => true
  | _ => false
  end.

Definition plain_price (v : json) : bool :=
  match v with
  | JNull | JBool _ => true
  | JNum q => moderate q
  | _ => false
  end.

(** Ticks with delays and prices of ordinary size. *)
Definition ordinary (ticks : list tick_info) : bool :=
  forallb moderate (delays_of ticks) && forallb plain_price (map price ticks).

Lemma delay_analysis_completes (delays : list Q) :
  forallb moderate delays = true -> completes (delay_analysis delays).
Proof.
  intro M. destruct delays as [|first others].
  - apply completes_ret.
  - destruct (variance_moderate _ M) as (var & V & _).
    pose proof (delay_analysis_report first others) as R. cbv zeta in R.
    rewrite V in R. eexists. exact R.
Qed.

Lemma size_analysis_completes (ticks : list tick_info) :
  completes (size_analysis ticks).
Proof.
  unfold size_analysis. destruct (map data_size ticks) as [|first others].
  - apply completes_ret.
  - cbn [length]. rewrite py_div_S. eexists. reflexivity.
Qed.

Lemma price_changes_numeric (prices : list json) :
  Forall (fun v => numeric v = true) prices ->
  Forall (fun v => is_none v = false) prices ->
  exists changes, price_changes prices = Ok changes.
Proof.
  induction prices as [|previous rest IH]; intros N P.
  - exists []. reflexivity.
  - destruct rest as [|current rest'].
    + exists []. reflexivity.
    + inversion N as [|? ? Np N']; subst. inversion P as [|? ? Pp P']; subst.
      destruct (IH N' P') as [changes E].
      inversion N' as [|? ? Nc _]; subst. inversion P' as [|? ? Pc _]; subst.
      change (price_changes (previous :: current :: rest'))
        with (a <- py_number current ;; b <- py_number previous ;;
              changes <- price_changes (current :: rest') ;;
              Ok (Qabs (a - b) :: changes)).
      rewrite E.
      destruct previous; try discriminate; destruct current; try discriminate;
        eexists; reflexivity.
Qed.

Lemma price_analysis_completes (ticks : list tick_info) :
  forallb plain_price (map price ticks) = true -> completes (price_analysis ticks).
Proof.
  intro N. unfold price_analysis.
  set (prices := filter (fun v => negb (is_none v)) (map price ticks)).
  assert (Hn : Forall (fun v => numeric v = true) prices).
  { apply Forall_forall. intros v Hv. apply filter_In in Hv. destruct Hv as [Hv _].
    rewrite forallb_forall in N. specialize (N v Hv).
    destruct v; try discriminate; reflexivity. }
  assert (Hp : Forall (fun v => is_none v = false) prices).
  { apply Forall_forall. intros v Hv. apply filter_In in Hv. destruct Hv as [_ Hv].
    apply negb_true_iff. exact Hv. }
  destruct (price_changes_numeric prices Hn Hp) as [changes E].
  unfold when. destruct (1 <? length prices)%nat eqn:L; [|apply completes_ret].
  apply Nat.ltb_lt in L. destruct (length prices) as [|n] eqn:Len; [lia|].
  apply (completes_lift _ _ changes E).
  apply (completes_lift _ _ _ (percentage_S _ n)).
  apply completes_then; [apply completes_info|].
  destruct (filter (Qltb 0) changes) as [|c cs]; [apply completes_ret|].
  cbn [length]. apply (completes_lift _ _ _ (py_div_S _ _)). apply completes_info.
Qed.

Lemma sample_tick_completes (tick : tick_info) :
  plain_price (price tick) = true -> completes (sample_tick tick).
Proof.
  intro N. unfold sample_tick.
  destruct (price tick) as [|b|q|?|?|?]; try discriminate; cbn [py_truthy format_f].
  - eapply completes_lift; [reflexivity|]. apply completes_info.
  - destruct b; eapply completes_lift; try reflexivity; apply completes_info.
  - cbn [plain_price] in N. rewrite (moderate_no_overflow q N).
    destruct (negb (Qeq_bool q 0)); eapply completes_lift; try reflexivity;
      apply completes_info.
Qed.

Lemma In_firstn {A : Type} (n : nat) (l : list A) (x : A) :
  In x (firstn n l) -> In x l.
Proof.
  revert l. induction n as [|n IH]; intros [|y l] H; simpl in *; try contradiction.
  destruct H as [->|H]; [left; reflexivity|right; apply IH; exact H].
Qed.

Lemma analyze_channel_completes (duration : Z) (channel : string)
  (ticks : list tick_info) :
  duration <> 0%Z -> ordinary ticks = true ->
  completes (analyze_channel duration (channel, ticks)).
Proof.
  intros D N. unfold ordinary in N. apply andb_true_iff in N. destruct N as [Nd Np].
  unfold analyze_channel. destruct ticks as [|tick ticks].
  - apply completes_info.
  - apply completes_then; [apply completes_info|].
    apply completes_then; [apply completes_info|].
    apply (completes_lift _ _ _ (py_div_duration _ duration D)).
    apply completes_then; [apply completes_info|].
    apply completes_then; [apply delay_analysis_completes; exact Nd|].
    apply completes_then; [apply size_analysis_completes|].
    apply completes_then; [apply price_analysis_completes; exact Np|].
    apply for_each_completes. intros x Hx.
    apply sample_tick_completes. apply In_firstn in Hx.
    rewrite forallb_forall in Np. apply Np. apply in_map. exact Hx.
Qed.

Lemma overall_analysis_completes (tick_data : dict (list tick_info)) :
  completes (overall_analysis tick_data).
Proof.
  unfold overall_analysis.
  destruct (flat_map (fun item => delays_of (snd item)) tick_data) as [|d l].
  - apply completes_ret.
  - cbn [length]. apply (completes_lift _ _ _ (py_div_S _ _)).
    apply completes_then; apply completes_info.
Qed.

(** The report holds what the analysis of a channel has logged, once the
    channels before it have been reported. *)
Lemma analyzer_reaches (duration : Z) (before : dict (list tick_info))
  (item : string * list tick_info) (after : dict (list tick_info)) :
  duration <> 0%Z ->
  Forall (fun x => ordinary (snd x) = true) before ->
  incl (fst (analyze_channel duration item))
       (fst (_analyze_tick_data (before ++ item :: after) duration)).
Proof.
  intros D F. unfold _analyze_tick_data. rewrite (py_div_duration _ duration D).
  eapply incl_tran;
    [|apply (lines_later (info Banner) _ tt eq_refl)].
  eapply incl_tran;
    [|apply (lines_later (info (TotalDuration duration)) _ tt eq_refl)].
  eapply incl_tran;
    [|apply (lines_later (info (TotalTicks _)) _ tt eq_refl)].
  eapply incl_tran;
    [|apply (lines_later (lift (Ok _)) _ _ eq_refl)].
  eapply incl_tran;
    [|apply (lines_later (info (AverageTicksPerSecond _)) _ tt eq_refl)].
  eapply incl_tran; [|apply lines_first].
  apply for_each_reaches.
  eapply Forall_impl; [|exact F]. intros [channel ticks] O.
  apply analyze_channel_completes; assumption.
Qed.

(** A channel with ticks gets its delay records. *)
Lemma channel_delay_lines (duration : Z) (channel : string) (tick : tick_info)
  (ticks : list tick_info) :
  duration <> 0%Z ->
  incl (fst (delay_analysis (delays_of (tick :: ticks))))
       (fst (analyze_channel duration (channel, tick :: ticks))).
Proof.
  intro D. unfold analyze_channel. rewrite (py_div_duration _ duration D).
  eapply incl_tran;
    [|apply (lines_later (info (ChannelHeader channel)) _ tt eq_refl)].
  eapply incl_tran;
    [|apply (lines_later (info (ChannelTicks _)) _ tt eq_refl)].
  eapply incl_tran;
    [|apply (lines_later (lift (Ok _)) _ _ eq_refl)].
  eapply incl_tran;
    [|apply (lines_later (info (TicksPerSecond _)) _ tt eq_refl)].
  apply lines_first.
Qed.

(** With a [duration] other than 0 and ticks of ordinary size nothing in
    the analyser raises: every channel without ticks has its "No data
    received" line in the report, and the report ends with what
    [overall_analysis] logs. *)
Lemma analyzer_reports_when_duration_nonzero (tick_data : dict (list tick_info))
  (duration : Z) :
  duration <> 0%Z ->
  Forall (fun item => ordinary (snd item) = true) tick_data ->
  exists lines,
    _analyze_tick_data tick_data duration = (lines, Ok tt) /\
    (forall channel, In (channel, []) tick_data -> In (NoDataReceived channel) lines) /\
    incl (fst (overall_analysis tick_data)) lines.
Proof.
  intros D N.
  assert (Hc : completes (for_each (analyze_channel duration) tick_data)).
  { apply for_each_completes. intros [channel ticks] Hx.
    apply analyze_channel_completes; [exact D|].
    rewrite Forall_forall in N. apply (N (channel, ticks) Hx). }
  destruct Hc as [per_channel Ec].
  destruct (overall_analysis_completes tick_data) as [overall Eo].
  unfold _analyze_tick_data.
  rewrite (py_div_duration _ duration D), Ec, Eo.
  eexists. split; [reflexivity|]. split.
  - intros channel Hin. cbn [app].
    do 4 right. apply in_or_app. left.
    apply (for_each_lines _ _ _ (channel, []) (NoDataReceived channel) Ec Hin).
    left. reflexivity.
  - cbn [fst app]. intros e He. do 4 right. apply in_or_app. right. exact He.
Qed.

(** *** Negative delays *)


(** *** The ranges *)

Lemma Qle_bool_Qeq (a a' b b' : Q) :
  (a == a')%Q -> (b == b')%Q -> Qle_bool a b = Qle_bool a' b'.
Proof.
  intros Ea Eb. apply eq_true_iff_eq. rewrite !Qle_bool_iff. split; intro; lra.
Qed.

Lemma count_if_Qeq (p : Q -> bool) (l l' : list Q) :
  (forall a b, (a == b)%Q -> p a = p b) ->
  Forall2 Qeq l l' -> count_if p l = count_if p l'.
Proof.
  intros Hp F. induction F as [|x y l l' E _ IH]; [reflexivity|].
  rewrite !count_if_cons, IH, (Hp x y E). reflexivity.
Qed.

(** The counts of the ranges depend on the values of the delays only. *)
Lemma delay_ranges_Qeq (l l' : list Q) :
  Forall2 Qeq l l' -> delay_ranges l = delay_ranges l'.
Proof.
  intro F. unfold delay_ranges.
  assert (R : forall lo hi : Q,
             count_if (fun d => Qle_bool lo d && Qltb d hi) l =
             count_if (fun d => Qle_bool lo d && Qltb d hi) l').
  { intros lo hi. apply count_if_Qeq; [|exact F]. intros a b E. unfold Qltb.
    rewrite (Qle_bool_Qeq lo lo a b), (Qle_bool_Qeq hi hi a b); try lra.
    reflexivity. }
  assert (U : count_if (fun d => Qle_bool 500 d) l =
              count_if (fun d => Qle_bool 500 d) l').
  { apply count_if_Qeq; [|exact F]. intros a b E. apply Qle_bool_Qeq; lra. }
  rewrite !R, U. reflexivity.
Qed.

Lemma small_moderate (q : Q) : (-1000 <= q /\ q <= 1000)%Q -> moderate q = true.
Proof.
  intro H. apply moderate_spec.
  assert (B : (1000 <= moderate_bound)%Q) by (vm_compute; discriminate).
  lra.
Qed.

(** C6: the five ranges are [0,50), [50,100), [100,200), [200,500) and
    [500,oo): a single delay is counted in the one range it lies in, in
    none when it is negative, and the counts of two lists add up.  With a
    [duration] other than 0, the report of [_analyze_tick_data] has, for
    a channel with delays of ordinary size (the channels reported before
    it being ordinary too), one record per range with its count and with
    the share [count / len(delays) * 100], the delays being those of the
    ticks that have one.  For a channel whose four ticks have delays 10,
    60, 150 and 600 the counts are 1, 1, 1, 0, 1, the report has the five
    records with the shares 25, 25, 25, 0 and 25, and, the prices being
    numbers of ordinary size or missing, the analyser returns and reports
    an overall average delay of 205. *)
Theorem delay_histogram_ranges_and_example :
  forall (d : Q) (l1 l2 : list Q) (before after : dict (list tick_info))
         (channel : string) (ticks : list tick_info) (duration : Z),
    ((0 <= d /\ d < 50)%Q -> map snd (delay_ranges [d]) = [1; 0; 0; 0; 0]%nat) /\
    ((50 <= d /\ d < 100)%Q -> map snd (delay_ranges [d]) = [0; 1; 0; 0; 0]%nat) /\
    ((100 <= d /\ d < 200)%Q -> map snd (delay_ranges [d]) = [0; 0; 1; 0; 0]%nat) /\
    ((200 <= d /\ d < 500)%Q -> map snd (delay_ranges [d]) = [0; 0; 0; 1; 0]%nat) /\
    ((500 <= d)%Q -> map snd (delay_ranges [d]) = [0; 0; 0; 0; 1]%nat) /\
    ((d < 0)%Q -> map snd (delay_ranges [d]) = [0; 0; 0; 0; 0]%nat) /\
    map snd (delay_ranges (l1 ++ l2)) =
      map (fun p => (fst p + snd p)%nat)
        (combine (map snd (delay_ranges l1)) (map snd (delay_ranges l2))) /\
    (duration <> 0%Z ->
     Forall (fun item => ordinary (snd item) = true) before ->
     forallb moderate (delays_of ticks) = true ->
     delays_of ticks <> [] ->
     forall name n,
       In (name, n) (delay_ranges (delays_of ticks)) ->
       In (DelayDistribution name n
             (Qnat n / Qnat (length (delays_of ticks)) * 100)%Q)
          (fst (_analyze_tick_data (before ++ (channel, ticks) :: after) duration))) /\
    (duration <> 0%Z ->
     Forall2 (fun tick v => exists q, delay_ms tick = Some q /\ (q == v)%Q)
             ticks [10; 60; 150; 600]%Q ->
     forallb plain_price (map price ticks) = true ->
     let report := _analyze_tick_data [(channel, ticks)] duration in
     delay_ranges (delays_of ticks) =
       [("0-50ms"%string, 1); ("50-100ms"%string, 1); ("100-200ms"%string, 1);
        ("200-500ms"%string, 0); ("500ms+"%string, 1)]%nat /\
     (exists p1 p2 p3 p4 p5,
         In (DelayDistribution "0-50ms" 1 p1) (fst report) /\
         In (DelayDistribution "50-100ms" 1 p2) (fst report) /\
         In (DelayDistribution "100-200ms" 1 p3) (fst report) /\
         In (DelayDistribution "200-500ms" 0 p4) (fst report) /\
         In (DelayDistribution "500ms+" 1 p5) (fst report) /\
         (p1 == 25 /\ p2 == 25 /\ p3 == 25 /\ p4 == 0 /\ p5 == 25)%Q) /\
     snd report = Ok tt /\
     (exists avg,
         In (OverallSummary 4 avg) (fst report) /\ (avg == 205)%Q /\
         In (PerformanceRating "POOR") (fst report))).
Proof.
  intros d l1 l2 before after channel ticks duration.
  assert (one : forall d, map snd (delay_ranges [d]) =
            [if Qle_bool 0 d && Qltb d 50 then 1 else 0;
             if Qle_bool 50 d && Qltb d 100 then 1 else 0;
             if Qle_bool 100 d && Qltb d 200 then 1 else 0;
             if Qle_bool 200 d && Qltb d 500 then 1 else 0;
             if Qle_bool 500 d then 1 else 0]%nat).
  { intro x. unfold delay_ranges. cbn [map snd]. rewrite !count_if_cons.
    unfold count_if. cbn [filter length]. rewrite !Nat.add_0_r. reflexivity. }
  assert (T : forall a b, (a <= b)%Q -> Qle_bool a b = true)
    by (intros; qprop; assumption).
  assert (F : forall a b, (b < a)%Q -> Qle_bool a b = false)
    by (intros; qprop; assumption).
  assert (T' : forall a b, (a < b)%Q -> Qltb a b = true)
    by (intros; qprop; assumption).
  assert (F' : forall a b, (b <= a)%Q -> Qltb a b = false)
    by (intros; qprop; assumption).
  assert (General : forall (before after : dict (list tick_info)) (ticks : list tick_info),
    duration <> 0%Z ->
    Forall (fun item => ordinary (snd item) = true) before ->
    forallb moderate (delays_of ticks) = true ->
    delays_of ticks <> [] ->
    forall name n,
      In (name, n) (delay_ranges (delays_of ticks)) ->
      In (DelayDistribution name n
            (Qnat n / Qnat (length (delays_of ticks)) * 100)%Q)
         (fst (_analyze_tick_data (before ++ (channel, ticks) :: after) duration))).
  { clear before after ticks. intros before after ticks Dur Ord Mod Ne name n Hn.
    destruct ticks as [|tick rest]; [exfalso; apply Ne; reflexivity|].
    apply (analyzer_reaches duration before (channel, tick :: rest) after Dur Ord).
    apply (channel_delay_lines duration channel tick rest Dur).
    destruct (variance_moderate _ Mod) as (var & V & _).
    destruct (delays_of (tick :: rest)) as [|first others] eqn:E;
      [exfalso; apply Ne; reflexivity|].
    pose proof (delay_analysis_report first others) as R. cbv zeta in R.
    rewrite V in R. rewrite R. cbn [fst]. right. right. unfold ranges_log.
    apply (in_map (fun item => DelayDistribution (fst item) (snd item)
                                 (Qnat (snd item) / Qnat (length (first :: others)) * 100)%Q)
                  _ (name, n) Hn). }
  split.
  { intros [A B]. rewrite one, (T 0 d), (T' d 50), (F 50 d), (F 100 d),
      (F 200 d), (F 500 d) by lra. reflexivity. }
  split.
  { intros [A B]. rewrite one, (T 0 d), (T 50 d), (F' d 50), (T' d 100),
      (F 100 d), (F 200 d), (F 500 d) by lra. reflexivity. }
  split.
  { intros [A B]. rewrite one, (T 0 d), (T 50 d), (T 100 d), (F' d 50),
      (F' d 100), (T' d 200), (F 200 d), (F 500 d) by lra. reflexivity. }
  split.
  { intros [A B]. rewrite one, (T 0 d), (T 50 d), (T 100 d), (T 200 d),
      (F' d 50), (F' d 100), (F' d 200), (T' d 500), (F 500 d) by lra.
    reflexivity. }
  split.
  { intros A. rewrite one, (T 0 d), (T 50 d), (T 100 d), (T 200 d), (T 500 d),
      (F' d 50), (F' d 100), (F' d 200), (F' d 500) by lra. reflexivity. }
  split.
  { intros A. rewrite one, (F 0 d), (F 50 d), (F 100 d), (F 200 d), (F 500 d)
      by lra. reflexivity. }
  split.
  { unfold delay_ranges. cbn [map snd combine fst]. rewrite !count_if_app.
    reflexivity. }
  split; [apply General|].
  intros Dur Ex Prices report.
  inversion Ex as [|t1 v1 r1 w1 (q1 & E1 & Q1) Ex1]; subst.
  inversion Ex1 as [|t2 v2 r2 w2 (q2 & E2 & Q2) Ex2]; subst.
  inversion Ex2 as [|t3 v3 r3 w3 (q3 & E3 & Q3) Ex3]; subst.
  inversion Ex3 as [|t4 v4 r4 w4 (q4 & E4 & Q4) Ex4]; subst.
  inversion Ex4; subst. clear Ex Ex1 Ex2 Ex3 Ex4.
  assert (Ds : delays_of [t1; t2; t3; t4] = [q1; q2; q3; q4]).
  { unfold delays_of. cbn [flat_map]. rewrite E1, E2, E3, E4. reflexivity. }
  assert (Rs : delay_ranges [q1; q2; q3; q4] =
               [("0-50ms"%string, 1); ("50-100ms"%string, 1); ("100-200ms"%string, 1);
                ("200-500ms"%string, 0); ("500ms+"%string, 1)]%nat).
  { rewrite (delay_ranges_Qeq _ [10; 60; 150; 600]%Q); [reflexivity|].
    repeat constructor; assumption. }
  assert (Mod : forallb moderate [q1; q2; q3; q4] = true).
  { cbn [forallb]. rewrite !small_moderate by lra. reflexivity. }
  assert (Ord : ordinary [t1; t2; t3; t4] = true).
  { unfold ordinary. rewrite Ds, Mod, Prices. reflexivity. }
  destruct (analyzer_reports_when_duration_nonzero [(channel, [t1; t2; t3; t4])]
              duration Dur) as (lines & E & _ & Overall).
  { constructor; [exact Ord|constructor]. }
  assert (Hist : forall name n,
            In (name, n) (delay_ranges [q1; q2; q3; q4]) ->
            In (DelayDistribution name n (Qnat n / Qnat 4 * 100)%Q) (fst report)).
  { intros name n Hn.
    pose proof (General [] [] [t1; t2; t3; t4] Dur (Forall_nil _)) as G.
    rewrite Ds in G. apply G; [exact Mod|discriminate|exact Hn]. }
  rewrite Ds. split; [exact Rs|]. rewrite Rs in Hist. split.
  { exists (Qnat 1 / Qnat 4 * 100)%Q, (Qnat 1 / Qnat 4 * 100)%Q,
      (Qnat 1 / Qnat 4 * 100)%Q, (Qnat 0 / Qnat 4 * 100)%Q, (Qnat 1 / Qnat 4 * 100)%Q.
    split; [apply Hist; left; reflexivity|].
    split; [apply Hist; right; left; reflexivity|].
    split; [apply Hist; do 2 right; left; reflexivity|].
    split; [apply Hist; do 3 right; left; reflexivity|].
    split; [apply Hist; do 4 right; left; reflexivity|].
    repeat split; reflexivity. }
  unfold report. rewrite E. cbn [fst snd]. split; [reflexivity|].
  unfold overall_analysis in Overall. cbn [flat_map snd app] in Overall.
  rewrite app_nil_r, Ds in Overall. cbn [length] in Overall.
  rewrite py_div_S in Overall. cbn [lift and_then info app fst] in Overall.
  set (avg := (Qsum [q1; q2; q3; q4] / Qnat 4)%Q) in *.
  assert (A : (avg == 205)%Q).
  { unfold avg, Qsum. cbn [fold_left]. change (Qnat 4) with 4%Q.
    rewrite Q1, Q2, Q3, Q4. reflexivity. }
  assert (R : rating avg = "POOR"%string).
  { unfold rating. rewrite (F' avg 50), (F' avg 100), (F' avg 200) by lra.
    reflexivity. }
  exists avg. split; [apply Overall; left; reflexivity|]. split; [exact A|].
  apply Overall. right. left. rewrite R. reflexivity.
Qed.

(** C8 does not hold when [duration] is 0: the division on line 332
    raises before any channel is looked at, whatever the records are, so
    not even an empty channel gets its line, and
    [tick_by_tick_delay_test] ends the run as failed. *)
Theorem analyzer_raises_on_zero_duration :
  forall (tick_data : dict (list tick_info)) (s : tick_run),
    _analyze_tick_data tick_data 0 =
      ([Banner; TotalDuration 0;
        TotalTicks (fold_left Nat.add (map (fun item => length (snd item)) tick_data) 0%nat)],
       Raise ZeroDivisionError) /\
    (forall channel, ~ In (NoDataReceived channel) (fst (_analyze_tick_data tick_data 0))) /\
    k_phase (k_finish s 0) = Finished (Some ZeroDivisionError).
Proof.
  intros tick_data s.
  assert (E : forall td, _analyze_tick_data td 0 =
      ([Banner; TotalDuration 0;
        TotalTicks (fold_left Nat.add (map (fun item => length (snd item)) td) 0%nat)],
       Raise ZeroDivisionError)) by reflexivity.
  split; [apply E|]. split.
  - intros channel. rewrite E. simpl. intros [H|[H|[H|[]]]]; discriminate.
  - unfold k_finish. rewrite E. reflexivity.
Qed.

End Tester.

(** * Concrete runs *)

(** A [json.loads] that knows finitely many texts and rejects the rest. *)
Definition json_table (entries : list (string * json)) (message : string)
  : result json :=
  match assoc message entries with
  | Some v => Ok v
  | None => Raise JSONDecodeError
  end.

Definition no_credentials : config :=
  {| ws_url := "wss://test.deribit.com/ws/api/v2"; client_id := None;
     client_secret := None |}.

(** A ticker notification with its producer timestamp in milliseconds. *)
Definition notification (channel : string) (timestamp : Q) : json :=
  JObj [("jsonrpc", JStr "2.0"); ("method", JStr "subscription");
        ("params",
         JObj [("channel", JStr channel);
               ("data", JObj [("timestamp", JNum timestamp);
                              ("last_price", JNum 50000)])])]%string.

Definition ticker (timestamp : Q) : json :=
  notification "ticker.BTC-PERPETUAL.100ms" timestamp.

(** Five texts on the wire; the third is not JSON. *)
Definition wire : string -> result json :=
  json_table [("m1", ticker 0); ("m2", ticker 500); ("m4", ticker 700);
              ("m5", ticker 900)]%string.

Definition text_size (v : json) : nat := 200.

(** A session that has connected at time 0 and stands at its while
    condition. *)
Definition in_loop : session :=
  {| connection_id := 0; s_phase := Checking; start_time := 0;
     connection_messages := 0 |}.

Definition five_messages : list string := ["m1"; "m2"; "m3"; "m4"; "m5"]%string.

Definition first_two : list string := ["m1"; "m2"]%string.

Definition last_two : list string := ["m4"; "m5"]%string.

(** C1 as stated fails: a message stamped 0 ms and received at 10 s has a
    latency of exactly 10000 ms, and the sampler drops it. *)
Lemma latency_of_10000_is_dropped :
  compute_latency 10 (ticker 0) = Ok ((10 - 0 / 1000) * 1000)%Q /\
  ((10 - 0 / 1000) * 1000 == 10000)%Q /\
  latency_sample 10 (ticker 0) = Ok None /\
  ~ (forall d : Q, realistic d = true <-> (0 < d /\ d <= 10000)%Q).
Proof.
  split; [reflexivity|]. split; [reflexivity|]. split; [reflexivity|].
  intro H. destruct (H 10000%Q) as [_ H']. 
  assert (R : realistic 10000 = true) by (apply H'; split; [reflexivity|discriminate]).
  discriminate R.
Qed.

(** C2 as stated fails: of five messages of which the third does not
    decode, a session that has just connected counts two, not four, and
    is finished after the third. *)
Lemma third_message_undecodable_two_counted :
  let final :=
    single_connection_test wire no_credentials tester_init 0 stress_channels 60
      ([ConnectDone (Ok tt); SendDone (Ok tt); Now 0] ++ arrivals 1 five_messages) in
  connection_messages (snd final) = 2%nat /\
  connection_messages (snd final) <> 4%nat /\
  total_messages (fst final) = 2%nat /\
  s_phase (snd final) = Finished None.
Proof.
  vm_compute. repeat split. discriminate.
Qed.

Lemma decode_error_ends_receive_loop_witness :
  let final :=
    session_steps wire no_credentials stress_channels 60 (tester_init, in_loop)
      (arrivals 1 (first_two ++ "m3"%string :: last_two)) in
  s_phase (snd final) = Finished None /\
  connection_messages (snd final) = 2%nat /\
  total_messages (fst final) = 2%nat /\
  reconnection_count (fst final) = 0%nat /\
  In (ERROR, ConnectionError 0 JSONDecodeError) (log (fst final)).
Proof.
  destruct (decode_error_ends_receive_loop wire no_credentials stress_channels 60
              tester_init in_loop 1 first_two "m3"%string last_two JSONDecodeError)
    as (Fin & Count & Total & Rec & Logged & _);
    try reflexivity; try discriminate.
  repeat split; assumption.
Defined.

(** C3 as stated fails: the connection closes during the first drain
    loop; the driver logs, sleeps, passes its outer condition and is
    connecting again, and the counter is still 0. *)
Lemma reconnect_after_error_not_counted :
  let s :=
    reconnection_test wire no_credentials tester_init 10 60
      [Now 0; Now 0; ConnectDone (Ok tt); SendDone (Ok tt); Now 0; Now 0;
       RecvDone (Raise ConnectionClosed); SleepDone; Now 1] in
  r_phase s = Connecting /\
  reconnection_count (r_tester s) = 0%nat /\
  reconnection_count (r_tester s) <> 1%nat /\
  In (ERROR, ReconnectionError ConnectionClosed) (log (r_tester s)).
Proof.
  vm_compute. repeat split; try discriminate. right. right. left. reflexivity.
Qed.

(** Two sessions of a stress run, both connected, the first having
    received and decoded one message. *)
Definition one_message_in : list stress_event :=
  [Deliver 0 (ConnectDone (Ok tt)); Deliver 1 (ConnectDone (Ok tt));
   Deliver 0 (SendDone (Ok tt)); Deliver 1 (SendDone (Ok tt));
   Deliver 0 (Now 0); Deliver 1 (Now 0); Deliver 0 (Now 0); Deliver 1 (Now 0);
   Deliver 0 (RecvDone (Ok "m1"%string)); Deliver 0 (Now 1)].

(** C4 as stated fails: no session has completed, both are in their
    receive loops, and the shared counters have already been written. *)
Lemma counters_written_while_sessions_run :
  let st := stress_test wire no_credentials tester_init 2 60 one_message_in in
  map s_phase (tasks st) = [Checking; Receiving] /\
  all_finished st = false /\
  total_messages (shared st) = 1%nat /\
  connection_count (shared st) = 2%nat /\
  total_messages (shared st) <> total_messages tester_init.
Proof.
  vm_compute. repeat split. discriminate.
Qed.

(** What the reconnection driver observes during one session that starts
    at second [from]: instant set-up, ten receive time-outs one second
    apart, and the reading that ends the drain loop. *)
Definition quiet_session (from : Z) : list obs :=
  [Now (inject_Z from); ConnectDone (Ok tt); SendDone (Ok tt); Now (inject_Z from)]
  ++ flat_map (fun i => [Now (inject_Z (from + Z.of_nat i));
                         RecvDone (Raise TimeoutError)])
       (seq 0 10)
  ++ [Now (inject_Z (from + 10))].

Definition quiet_run : list obs :=
  quiet_session 0 ++ quiet_session 10 ++ quiet_session 20 ++ [Now 30].

(** The shape C5 expects of the drain loops of a run. *)
Definition two_full_one_partial (interval : Q) (l : list Q) : Prop :=
  exists a b c, l = [a; b; c] /\ (interval <= a /\ interval <= b /\ c < interval)%Q.

(** C5 as stated fails: with nothing failing and no time lost, the third
    drain loop is still going when the clock reads 25 (the 65th reading of
    the run, after which the driver is receiving again) and runs its full
    ten seconds; the run ends at second 30 after three full intervals. *)
Lemma third_interval_runs_in_full :
  let final := reconnection_test wire no_credentials tester_init 10 25 (Now 0 :: quiet_run) in
  r_phase final = Finished None /\
  intervals final = [10; 10; 10]%Q /\
  reconnection_count (r_tester final) = 3%nat /\
  nth_error quiet_run 64 = Some (Now (inject_Z 25)) /\
  r_phase (reconnection_test wire no_credentials tester_init 10 25
             (Now 0 :: firstn 65 quiet_run)) = Receiving /\
  ~ two_full_one_partial 10 (intervals final).
Proof.
  split; [reflexivity|]. split; [reflexivity|]. split; [reflexivity|].
  split; [reflexivity|]. split; [reflexivity|].
  intros (a & b & c & E & _ & _ & C). vm_compute in E.
  injection E as _ _ <-. discriminate C.
Qed.

(** A run with every reading 3 seconds after the one before, but
    for those taken right after another one; the third session is begun at
    second 24 and its drain loop at second 27. *)
Definition late_session (from start : Z) : list obs :=
  [Now (inject_Z from); ConnectDone (Ok tt); SendDone (Ok tt); Now (inject_Z start)]
  ++ flat_map (fun i => [Now (inject_Z (start + 3 * Z.of_nat i));
                         RecvDone (Raise TimeoutError)])
       (seq 1 3)
  ++ [Now (inject_Z (start + 12))].

Definition late_run : list obs :=
  late_session 0 0 ++ late_session 12 12 ++ late_session 24 27 ++ [Now 42].

Lemma reconnection_run_has_full_intervals_only_witness :
  let final := reconnection_test wire no_credentials tester_init 10 25 (Now 0 :: late_run) in
  r_phase final = Finished None /\
  Forall (fun d => 10 <= d)%Q (intervals final) /\
  (length (intervals final) = 2%nat \/ length (intervals final) = 3%nat) /\
  reconnection_count (r_tester final) =
    (reconnection_count tester_init + length (intervals final))%nat /\
  (reconnection_count tester_init + 2 <= reconnection_count (r_tester final))%nat.
Proof.
  apply (reconnection_run_has_full_intervals_only wire no_credentials tester_init 0
           late_run).
  - reflexivity.
  - cbv [late_run late_session flat_map seq app steady Z.of_nat Pos.of_succ_nat
         Pos.succ Z.mul Pos.mul Pos.add Z.add].
    repeat split; discriminate.
  - vm_compute. repeat split.
  - exists 42%Q. split; [|discriminate].
    unfold late_run. apply in_or_app. right.
    apply in_or_app. right. apply in_or_app. right. left. reflexivity.
Defined.


(** The tick stored for a ticker notification stamped [timestamp] ms and
    received when the clock reads 1 s. *)
Definition stored_tick (number : nat) (timestamp : Q) : tick_info :=
  {| tick_number := number; tick_channel := JStr "ticker.BTC-PERPETUAL.100ms";
     receive_time := 1; server_timestamp := JNum timestamp;
     delay_ms := Some ((1 - timestamp / 1000) * 1000)%Q;
     data_size := 200; price := JNum 50000; volume := JNull; bid_price := JNull;
     ask_price := JNull |}.

(** Four ticks of one channel, with the delays 10, 60, 150 and 600 ms. *)
Definition example_ticks : list tick_info :=
  [stored_tick 1 990; stored_tick 2 940; stored_tick 3 850; stored_tick 4 400].

Lemma delay_histogram_ranges_and_example_witness :
  let report :=
    _analyze_tick_data [("ticker.BTC-PERPETUAL.100ms"%string, example_ticks)] 60 in
  map (fun tick => make_tick text_size (tick_number tick) 1
                     (ticker (match server_timestamp tick with JNum q => q | _ => 0 end)))
      example_ticks = map Ok example_ticks /\
  delay_ranges (delays_of example_ticks) =
    [("0-50ms"%string, 1); ("50-100ms"%string, 1); ("100-200ms"%string, 1);
     ("200-500ms"%string, 0); ("500ms+"%string, 1)]%nat /\
  (exists p1 p2 p3 p4 p5,
      In (DelayDistribution "0-50ms" 1 p1) (fst report) /\
      In (DelayDistribution "50-100ms" 1 p2) (fst report) /\
      In (DelayDistribution "100-200ms" 1 p3) (fst report) /\
      In (DelayDistribution "200-500ms" 0 p4) (fst report) /\
      In (DelayDistribution "500ms+" 1 p5) (fst report) /\
      (p1 == 25 /\ p2 == 25 /\ p3 == 25 /\ p4 == 0 /\ p5 == 25)%Q) /\
  snd report = Ok tt /\
  (exists avg,
      In (OverallSummary 4 avg) (fst report) /\ (avg == 205)%Q /\
      In (PerformanceRating "POOR") (fst report)).
Proof.
  split; [reflexivity|].
  destruct (delay_histogram_ranges_and_example 10 [10] [60] [] []
              "ticker.BTC-PERPETUAL.100ms" example_ticks 60)
    as (_ & _ & _ & _ & _ & _ & _ & _ & H).
  apply H.
  - discriminate.
  - repeat constructor; eexists; split; reflexivity.
  - reflexivity.
Defined.

(** The same observations for two sessions, session 0 served first in one
    schedule and session 1 first in the other. *)
Definition session_script (first second : string) : list obs :=
  [ConnectDone (Ok tt); SendDone (Ok tt); Now 0] ++ arrivals 1 [first; second]
  ++ [Now 61].

Definition zero_first : list stress_event :=
  map (Deliver 0) (session_script "m1" "m2")
  ++ map (Deliver 1) (session_script "m4" "m3").

Definition one_first : list stress_event :=
  map (Deliver 1) (session_script "m4" "m3")
  ++ map (Deliver 0) (session_script "m1" "m2").

Lemma stress_total_is_sum_of_sessions_witness :
  let st := stress_test wire no_credentials tester_init 2 60 zero_first in
  let st' := stress_test wire no_credentials tester_init 2 60 one_first in
  total_messages (shared st) = 3%nat /\
  map connection_messages (tasks st) = [2; 1]%nat /\
  all_finished st = true /\
  tasks st = tasks st' /\
  total_messages (shared st) = total_messages (shared st').
Proof.
  destruct (stress_total_is_sum_of_sessions wire no_credentials tester_init 2 60
              zero_first one_first) as (Sum & _ & Order).
  split; [exact Sum|]. split; [reflexivity|]. split; [reflexivity|].
  apply Order; try reflexivity.
  intros [|[|id]]; reflexivity.
Defined.




(** Two subscriptions of which the first is a prefix of the second, and a
    message on the second channel: it goes to the list of the first. *)
Definition book_channels : list string :=
  ["book.BTC-PERPETUAL"; "book.BTC-PERPETUAL.100ms.10"]%string.

Definition book_wire : string -> result json :=
  json_table [("b1"%string, notification "book.BTC-PERPETUAL.100ms.10" 900)].

Definition collecting : tick_run :=
  {| k_phase := Stamping "b1"; k_start := 0; tick_count := 0;
     tick_data := tick_storage book_channels; k_log := [] |}.

Definition book_tick : tick_info :=
  {| tick_number := 1; tick_channel := JStr "book.BTC-PERPETUAL.100ms.10";
     receive_time := 1; server_timestamp := JNum 900;
     delay_ms := Some ((1 - 900 / 1000) * 1000)%Q;
     data_size := 200; price := JNum 50000; volume := JNull; bid_price := JNull;
     ask_price := JNull |}.

Lemma tick_routed_to_first_substring_match_witness :
  let s' := k_process book_wire text_size book_channels collecting "b1" 1 in
  tick_count s' = 1%nat /\
  tick_data s' =
    [("book.BTC-PERPETUAL"%string, [book_tick]);
     ("book.BTC-PERPETUAL.100ms.10"%string, [])] /\
  assoc "book.BTC-PERPETUAL"%string (tick_data s') = Some ([] ++ [book_tick]) /\
  assoc "book.BTC-PERPETUAL.100ms.10"%string (tick_data s') = Some [].
Proof.
  destruct (tick_routed_to_first_substring_match book_wire text_size book_channels
              collecting "b1" 1
              (notification "book.BTC-PERPETUAL.100ms.10" 900) book_tick
              "book.BTC-PERPETUAL.100ms.10")
    as (Count & First & _ & _); try reflexivity.
  destruct (First [] "book.BTC-PERPETUAL"%string
              ["book.BTC-PERPETUAL.100ms.10"%string] [])
    as [Appended Others]; try reflexivity.
  - constructor.
  - split; [exact Count|]. split; [reflexivity|]. split; [exact Appended|].
    rewrite Others by discriminate. reflexivity.
Defined.

(** The command line [--test-type tick-analysis --duration 0]: the loop
    is not entered, the analyser raises, and the run is logged as failed
    without a line for any of the three empty channels. *)
Lemma tick_analysis_with_duration_0 :
  let run :=
    tick_by_tick_delay_test wire text_size no_credentials 0 None
      [ConnectDone (Ok tt); SendDone (Ok tt); Now 0; Now 0] in
  k_phase run = Finished (Some ZeroDivisionError) /\
  map fst (tick_data run) = default_channels /\
  k_log run =
    [(WARNING, NoCredentials); (INFO, Subscribed default_channels);
     (INFO, Banner); (INFO, TotalDuration 0); (INFO, TotalTicks 0);
     (ERROR, TickTestFailed ZeroDivisionError)].
Proof.
  repeat split.
Qed.

(** A slow run within the same bounds: every reading comes 3 seconds
    after the one before.  The second drain loop is left at second 36, and
    the run has two intervals, both longer than 10 seconds. *)
Definition slow_session (from : Z) : list obs :=
  [Now (inject_Z (from + 3)); ConnectDone (Ok tt); SendDone (Ok tt);
   Now (inject_Z (from + 6))]
  ++ flat_map (fun i => [Now (inject_Z (from + 9 + 3 * Z.of_nat i));
                         RecvDone (Raise TimeoutError)])
       (seq 0 3)
  ++ [Now (inject_Z (from + 18))].

Definition slow_run : list obs := slow_session 0 ++ slow_session 18 ++ [Now 39].

Lemma slow_run_has_two_intervals :
  let final := reconnection_test wire no_credentials tester_init 10 25 (Now 0 :: slow_run) in
  no_failures slow_run = true /\
  steady 3 0 slow_run /\
  r_phase final = Finished None /\
  intervals final = [12; 12]%Q /\
  reconnection_count (r_tester final) = 2%nat.
Proof.
  split; [reflexivity|]. split.
  - cbv [slow_run slow_session flat_map seq app steady].
    repeat split; discriminate.
  - repeat split.
Qed.

(** * Further properties of the tester *)

Ltac to_prop :=
  repeat match goal with
  | H : Qltb _ _ = true |- _ => apply Qltb_lt in H
  | H : Qltb _ _ = false |- _ => apply Qltb_ge in H
  | H : Qle_bool _ _ = true |- _ => apply Qle_bool_iff in H
  | H : Qle_bool _ _ = false |- _ => apply Qle_bool_gt in H
  | H : (_ && _)%bool = true |- _ => apply andb_true_iff in H; destruct H
  end.

Ltac case_match :=
  match goal with
  | |- context [match ?x with _ => _ end] => destruct x eqn:?
  end.

(** ** Extrema *)

Lemma Qmax_list_ge (l : list Q) :
  forall x : Q,
    (x <= Qmax_list x l)%Q /\ (forall y, In y l -> y <= Qmax_list x l)%Q.
Proof.
  unfold Qmax_list. induction l as [|z l IH]; intro x; simpl.
  - split; [lra|contradiction].
  - destruct (Qltb x z) eqn:E; to_prop.
    + destruct (IH z) as [A B]. split; [lra|].
      intros y [<-|Hy]; [exact A|apply B; exact Hy].
    + destruct (IH x) as [A B]. split; [exact A|].
      intros y [<-|Hy]; [lra|apply B; exact Hy].
Qed.

Lemma Qmin_list_In (l : list Q) : forall x : Q, In (Qmin_list x l) (x :: l).
Proof.
  unfold Qmin_list. induction l as [|z l IH]; intro x; simpl.
  - left. reflexivity.
  - destruct (Qltb z x).
    + right. apply IH.
    + destruct (IH x) as [H|H]; [left; exact H|right; right; exact H].
Qed.

Lemma Qmax_list_In (l : list Q) : forall x : Q, In (Qmax_list x l) (x :: l).
Proof.
  unfold Qmax_list. induction l as [|z l IH]; intro x; simpl.
  - left. reflexivity.
  - destruct (Qltb x z).
    + right. apply IH.
    + destruct (IH x) as [H|H]; [left; exact H|right; right; exact H].
Qed.

(** ** What [latency_test] reports *)

Section LatencyReport.

Variable json_loads : string -> result json.
Variable cfg : config.

(** The two records that lines 228-239 can log. *)
Definition is_summary (line : level * entry) : bool :=
  match snd line with
  | LatencyResults _ _ _ _ | NoValidLatency => true
  | _ => false
  end.

Definition sound_summary (line : level * entry) : Prop :=
  match snd line with
  | LatencyResults count avg lo hi =>
      (1 <= count)%nat /\ (0 < lo /\ lo <= hi /\ hi < 10000)%Q
  | _ => True
  end.

Lemma auth_log_not_summary (r : result string) :
  is_summary (auth_log json_loads r) = false /\ sound_summary (auth_log json_loads r).
Proof.
  unfold auth_log, auth_reply.
  destruct (bind r _) as [[[|] data]|e]; split; reflexivity || exact I.
Qed.

Lemma prologue_lines (channels : list string) (ready p : phase) (o : obs) :
  match prologue json_loads cfg channels ready p o with
  | Next _ lines | Failed _ lines =>
      Forall (fun line => is_summary line = false /\ sound_summary line) lines
  | Elsewhere => True
  end.
Proof.
  unfold prologue.
  destruct p; destruct o as [t|r|r|r|]; try destruct r as [?|?]; try exact I;
    try (destruct (has_credentials cfg)); repeat constructor;
    apply auth_log_not_summary.
Qed.

Lemma latency_summary_sound (l : list Q) :
  Forall in_range l -> sound_summary (latency_summary l).
Proof.
  intro F. destruct l as [|x l]; [exact I|].
  unfold latency_summary, sound_summary. cbn [snd].
  split; [simpl; lia|].
  assert (Hmin : in_range (Qmin_list x l)).
  { rewrite Forall_forall in F. apply F. apply Qmin_list_In. }
  assert (Hmax : in_range (Qmax_list x l)).
  { rewrite Forall_forall in F. apply F. apply Qmax_list_In. }
  assert (Le : (Qmin_list x l <= Qmax_list x l)%Q).
  { destruct (Qmin_list_le l x) as [L1 L2].
    destruct (Qmax_list_In l x) as [E|Hin]; [rewrite <- E; exact L1|exact (L2 _ Hin)]. }
  unfold in_range in *. repeat split; try assumption; lra.
Qed.

(** The invariant of a run: the samples kept are in range, every summary
    logged is sound, and no summary is logged before the run has ended
    well. *)
Definition latency_inv (s : latency_run) : Prop :=
  Forall in_range (latencies s) /\
  Forall sound_summary (l_log s) /\
  match l_phase s with
  | Finished None =>
      exists before, l_log s = before ++ [latency_summary (latencies s)] /\
                     forallb (fun line => negb (is_summary line)) before = true
  | Finished (Some e) =>
      exists before, l_log s = before ++ [(ERROR, LatencyTestFailed e)] /\
                     forallb (fun line => negb (is_summary line)) before = true
  | _ => forallb (fun line => negb (is_summary line)) (l_log s) = true
  end.

Lemma no_summary_app (l1 l2 : list (level * entry)) :
  forallb (fun line => negb (is_summary line)) l1 = true ->
  Forall (fun line => is_summary line = false /\ sound_summary line) l2 ->
  forallb (fun line => negb (is_summary line)) (l1 ++ l2) = true.
Proof.
  intros H1 H2. rewrite forallb_app, H1. simpl.
  apply forallb_forall. intros x Hx. rewrite Forall_forall in H2.
  destruct (H2 x Hx) as [-> _]. reflexivity.
Qed.

Lemma sound_app (l1 l2 : list (level * entry)) :
  Forall sound_summary l1 ->
  Forall (fun line => is_summary line = false /\ sound_summary line) l2 ->
  Forall sound_summary (l1 ++ l2).
Proof.
  intros H1 H2. apply Forall_app. split; [exact H1|].
  eapply Forall_impl; [|exact H2]. intros a [_ H]. exact H.
Qed.

Lemma latency_goto_inv (s : latency_run) (p : phase) (lines : list (level * entry)) :
  latency_inv s ->
  match l_phase s with Finished _ => False | _ => True end ->
  match p with Finished _ => False | _ => True end ->
  Forall (fun line => is_summary line = false /\ sound_summary line) lines ->
  latency_inv (l_goto s p lines).
Proof.
  intros (R & S & L) NotFin NotFin' Hl. unfold latency_inv, l_goto. cbn.
  split; [exact R|]. split; [apply sound_app; assumption|].
  assert (N : forallb (fun line => negb (is_summary line)) (l_log s) = true).
  { destruct (l_phase s); try contradiction; exact L. }
  destruct p; try contradiction; apply no_summary_app; assumption.
Qed.

Lemma latency_fail_inv (s : latency_run) (e : exn) :
  latency_inv s ->
  match l_phase s with Finished _ => False | _ => True end ->
  latency_inv (l_fail s e).
Proof.
  intros (R & S & L) NotFin. unfold latency_inv, l_fail, l_goto. cbn.
  split; [exact R|]. split.
  - apply Forall_app. split; [exact S|]. repeat constructor.
  - exists (l_log s). split; [reflexivity|].
    destruct (l_phase s); try contradiction; exact L.
Qed.

Lemma latency_step_inv (duration : Z) (s : latency_run) (o : obs) :
  latency_inv s -> latency_inv (latency_test_step json_loads cfg duration s o).
Proof.
  intro Inv. pose proof Inv as (R & S & L). unfold latency_test_step.
  pose proof (prologue_lines ["ticker.BTC-PERPETUAL.100ms"%string] Starting
                (l_phase s) o) as PL.
  destruct (prologue json_loads cfg _ Starting (l_phase s) o)
    as [p lines|e lines|] eqn:Pr.
  - assert (l_phase s <> Stuck /\ match l_phase s with Finished _ => False | _ => True end
            /\ match p with Finished _ => False | _ => True end) as (_ & A & B).
    { unfold prologue in Pr.
      destruct (l_phase s); destruct o as [t|r|r|r|]; try destruct r as [?|?];
        try discriminate; try (destruct (has_credentials cfg));
        injection Pr as <- _; repeat split; discriminate. }
    apply latency_goto_inv; assumption.
  - assert (A : match l_phase s with Finished _ => False | _ => True end).
    { unfold prologue in Pr.
      destruct (l_phase s); destruct o as [t|r|r|r|]; try destruct r as [?|?];
        try discriminate; try (destruct (has_credentials cfg)); try discriminate;
        exact I. }
    apply latency_fail_inv.
    + apply latency_goto_inv; assumption.
    + unfold l_goto. cbn. exact A.
  - destruct (l_phase s) eqn:P; destruct o as [t|r|r|r|];
      try (apply latency_goto_inv; [exact Inv|rewrite P; exact I|exact I|constructor]);
      try exact Inv.
    + (* the start time is read *)
      unfold latency_inv. cbn. repeat split; [constructor|exact S|exact L].
    + (* the while condition *)
      destruct (Qltb _ _).
      * apply latency_goto_inv; [exact Inv|rewrite P; exact I|exact I|constructor].
      * unfold latency_inv, l_goto. cbn.
        split; [exact R|]. split.
        -- apply Forall_app. split; [exact S|].
           constructor; [apply latency_summary_sound; exact R|constructor].
        -- exists (l_log s). split; [reflexivity|exact L].
    + (* a receive returns *)
      destruct r as [m|e].
      * apply latency_goto_inv; [exact Inv|rewrite P; exact I|exact I|constructor].
      * destruct e;
          try (apply latency_fail_inv; [exact Inv|rewrite P; exact I]).
        apply latency_goto_inv; [exact Inv|rewrite P; exact I|exact I|constructor].
    + (* the receive time is read and the message processed *)
      destruct (bind (json_loads message) _) as [[d|]|e] eqn:B.
      * unfold latency_inv. cbn. split; [|split; [exact S|exact L]].
        apply Forall_app. split; [exact R|]. constructor; [|constructor].
        destruct (json_loads message) as [data|e]; [|discriminate].
        cbn [bind] in B. apply latency_sample_some in B. destruct B as (_ & _ & B).
        exact B.
      * apply latency_goto_inv; [exact Inv|rewrite P; exact I|exact I|constructor].
      * destruct e;
          try (apply latency_fail_inv; [exact Inv|rewrite P; exact I]).
        apply latency_goto_inv; [exact Inv|rewrite P; exact I|exact I|constructor].
Qed.

Lemma latency_run_inv (duration : Z) (trace : list obs) :
  latency_inv (latency_test json_loads cfg duration trace).
Proof.
  unfold latency_test.
  assert (G : forall s, latency_inv s ->
                latency_inv (fold_left (latency_test_step json_loads cfg duration) trace s)).
  { induction trace as [|o rest IH]; intros s H; simpl; [exact H|].
    apply IH, latency_step_inv, H. }
  apply G. unfold latency_inv, latency_init. cbn. repeat split; constructor.
Qed.

(** X1: whatever the environment does, a latency result that
    [latency_test] logs is over at least one sample, and its minimum and
    maximum are in range: 0 < min <= max < 10000. *)
Theorem latency_results_are_ordered_and_in_range :
  forall (duration : Z) (trace : list obs) (lvl : level) (count : nat)
         (avg lo hi : Q),
    In (lvl, LatencyResults count avg lo hi)
       (l_log (latency_test json_loads cfg duration trace)) ->
    (1 <= count)%nat /\ (0 < lo /\ lo <= hi /\ hi < 10000)%Q.
Proof.
  intros duration trace lvl count avg lo hi Hin.
  destruct (latency_run_inv duration trace) as (_ & S & _).
  rewrite Forall_forall in S. exact (S _ Hin).
Qed.

(** What gets past the handler of the loop, line 225. *)
Definition escapes (e : exn) : option exn :=
  match e with
  | TimeoutError => None
  | _ => Some e
  end.

(** The exception, if any, that an observation makes [latency_test]
    raise into its outer handler: a failed connect or send, or, inside the
    loop, anything but a time-out from the receive or from the lines that
    process the message. *)
Definition uncaught (s : latency_run) (o : obs) : option exn :=
  match l_phase s, o with
  | Connecting, ConnectDone (Raise e) => Some e
  | AuthSending, SendDone (Raise e) => Some e
  | Subscribing, SendDone (Raise e) => Some e
  | Receiving, RecvDone (Raise e) => escapes e
  | Stamping message, Now receive_time =>
      match (data <- json_loads message ;; latency_sample receive_time data) with
      | Raise e => escapes e
      | Ok _ => None
      end
  | _, _ => None
  end.

Lemma uncaught_step (duration : Z) (s : latency_run) (o : obs) (e : exn) :
  uncaught s o = Some e ->
  let s' := latency_test_step json_loads cfg duration s o in
  l_phase s' = Finished (Some e) /\
  l_log s' = l_log s ++ [(ERROR, LatencyTestFailed e)] /\
  latencies s' = latencies s.
Proof.
  intro H. unfold uncaught, escapes in H.
  unfold latency_test_step, prologue, l_fail, l_goto.
  destruct (l_phase s) eqn:P; destruct o as [t|[[]|e']|[[]|e']|[m|e']|];
    try discriminate H;
    try (destruct (bind _ _) as [[d|]|e']; try discriminate H);
    try (destruct e'; try discriminate H);
    injection H as <-; cbn; rewrite ?app_nil_r; repeat split; reflexivity.
Qed.

Lemma latency_finished_stays (duration : Z) (s : latency_run) (f : option exn)
  (more : list obs) :
  l_phase s = Finished f ->
  fold_left (latency_test_step json_loads cfg duration) more s = s.
Proof.
  intro P. induction more as [|o more IH]; [reflexivity|].
  cbn [fold_left].
  assert (E : latency_test_step json_loads cfg duration s o = s).
  { unfold latency_test_step, prologue. rewrite P.
    destruct o as [t|[[]|e']|[[]|e']|[m|e']|]; reflexivity. }
  rewrite E. exact IH.
Qed.

(** X2: a latency run reports only when it ends well.  If anything other
    than a time-out inside the loop is raised (a failed connect or send, a
    closed connection, a message that does not decode or has the wrong
    shape, a timestamp too large for a float), the run ends there: the
    failure is its last log record, whatever is observed afterwards, and
    neither results nor "no valid measurements" are logged, so the samples
    collected up to there are not reported.  A run that ends well logs its
    summary last, and only once. *)
Theorem latency_failure_reports_nothing :
  forall (duration : Z) (trace : list obs),
    let run := latency_test json_loads cfg duration trace in
    (forall (o : obs) (e : exn) (more : list obs),
       uncaught run o = Some e ->
       let failed := latency_test json_loads cfg duration (trace ++ o :: more) in
       l_phase failed = Finished (Some e) /\
       l_log failed = l_log run ++ [(ERROR, LatencyTestFailed e)] /\
       forallb (fun line => negb (is_summary line)) (l_log run) = true) /\
    (forall e, l_phase run = Finished (Some e) ->
       exists before,
         l_log run = before ++ [(ERROR, LatencyTestFailed e)] /\
         forallb (fun line => negb (is_summary line)) before = true) /\
    (l_phase run = Finished None ->
       exists before,
         l_log run = before ++ [latency_summary (latencies run)] /\
         forallb (fun line => negb (is_summary line)) before = true) /\
    ((forall f, l_phase run <> Finished f) ->
       forallb (fun line => negb (is_summary line)) (l_log run) = true).
Proof.
  intros duration trace run.
  destruct (latency_run_inv duration trace) as (_ & _ & L). fold run in L.
  assert (Open : (forall f, l_phase run <> Finished f) ->
                 forallb (fun line => negb (is_summary line)) (l_log run) = true).
  { intro N. destruct (l_phase run) as [| | | | | | | | | | | f |]; try exact L.
    exfalso. apply (N f). reflexivity. }
  split; [|split; [|split]].
  - intros o e more U failed.
    destruct (uncaught_step duration run o e U) as (A & B & _).
    assert (E : failed = latency_test_step json_loads cfg duration run o).
    { unfold failed, latency_test. rewrite fold_left_app. cbn [fold_left].
      apply (latency_finished_stays duration _ (Some e) more). exact A. }
    rewrite E. split; [exact A|]. split; [exact B|].
    apply Open. intros f F. unfold uncaught in U. rewrite F in U. discriminate.
  - intros e E. rewrite E in L. exact L.
  - intro E. rewrite E in L. exact L.
  - exact Open.
Qed.

End LatencyReport.

(** ** The storage of [tick_by_tick_delay_test] *)

Lemma dict_set_keys {V : Type} (k : string) (v : V) (d : dict V) :
  (In k (map fst d) -> map fst (dict_set k v d) = map fst d) /\
  (~ In k (map fst d) -> map fst (dict_set k v d) = map fst d ++ [k]).
Proof.
  induction d as [|[k' v'] d [IH1 IH2]]; simpl.
  - split; [contradiction|reflexivity].
  - destruct (String.eqb k k') eqn:E; simpl.
    + apply String.eqb_eq in E. subst k'. split; [reflexivity|].
      intro H. exfalso. apply H. left. reflexivity.
    + apply String.eqb_neq in E. split.
      * intros [H|H]; [congruence|]. rewrite (IH1 H). reflexivity.
      * intro H. rewrite IH2; [reflexivity|]. intro H'. apply H. right. exact H'.
Qed.

Lemma dict_set_values {V : Type} (P : V -> Prop) (k : string) (v : V) (d : dict V) :
  P v -> Forall (fun item => P (snd item)) d ->
  Forall (fun item => P (snd item)) (dict_set k v d).
Proof.
  intros Hv. induction d as [|[k' v'] d IH]; intro F; simpl.
  - constructor; [exact Hv|constructor].
  - inversion F as [|? ? Hh Ht]; subst.
    destruct (String.eqb k k'); constructor; auto.
Qed.

Lemma assoc_In_keys {V : Type} (k : string) (d : dict V) :
  In k (map fst d) <-> exists v, assoc k d = Some v.
Proof.
  induction d as [|[k' v'] d IH]; simpl.
  - split; [contradiction|]. intros [v H]. discriminate.
  - destruct (String.eqb k k') eqn:E.
    + apply String.eqb_eq in E. subst k'. split; [|auto]. intros _. exists v'. reflexivity.
    + apply String.eqb_neq in E. rewrite <- IH. split; [|auto].
      intros [H|H]; [congruence|exact H].
Qed.

Lemma tick_storage_from (channels : list string) :
  forall acc : dict (list tick_info),
    NoDup (map fst acc) ->
    Forall (fun item => snd item = []) acc ->
    let d := fold_left (fun d ch => dict_set ch [] d) channels acc in
    NoDup (map fst d) /\
    Forall (fun item => snd item = []) d /\
    (forall ch, In ch (map fst d) <-> In ch (map fst acc) \/ In ch channels).
Proof.
  induction channels as [|c channels IH]; intros acc N E; simpl.
  - repeat split; try assumption; tauto.
  - assert (N' : NoDup (map fst (dict_set c (@nil tick_info) acc))).
    { destruct (in_dec string_dec c (map fst acc)) as [Hin|Hout].
      - rewrite (proj1 (dict_set_keys c [] acc) Hin). exact N.
      - rewrite (proj2 (dict_set_keys c [] acc) Hout).
        apply NoDup_app; [exact N|repeat constructor; intros []|].
        intros a Ha [<-|[]]. exact (Hout Ha). }
    assert (E' : Forall (fun item => snd item = []) (dict_set c (@nil tick_info) acc)).
    { apply (dict_set_values (fun l => l = [])); [reflexivity|exact E]. }
    destruct (IH _ N' E') as (A & B & C). split; [exact A|]. split; [exact B|].
    intro ch. rewrite C.
    destruct (in_dec string_dec c (map fst acc)) as [Hin|Hout].
    + rewrite (proj1 (dict_set_keys c [] acc) Hin). split.
      * intros [H|H]; auto.
      * intros [H|[<-|H]]; auto.
    + rewrite (proj2 (dict_set_keys c [] acc) Hout), in_app_iff. simpl. tauto.
Qed.

Lemma tick_storage_keys (channels : list string) (ch : string) :
  In ch (map fst (tick_storage channels)) <-> In ch channels.
Proof.
  unfold tick_storage.
  destruct (tick_storage_from channels [] (NoDup_nil _) (Forall_nil _)) as (_ & _ & C).
  rewrite C. simpl. split; [intros [[]|H]; exact H|intro H; right; exact H].
Qed.

(** X3: the storage built on line 262 has one entry per distinct
    subscribed channel, each with an empty list: a channel named twice in
    the subscription list gets a single list, and nothing else is a
    key. *)
Theorem tick_storage_has_one_empty_list_per_channel :
  forall channels : list string,
    NoDup (map fst (tick_storage channels)) /\
    (forall ch, In ch (map fst (tick_storage channels)) <-> In ch channels) /\
    (forall ch, In ch channels -> assoc ch (tick_storage channels) = Some []).
Proof.
  intro channels. unfold tick_storage.
  destruct (tick_storage_from channels [] (NoDup_nil _) (Forall_nil _)) as (A & B & C).
  split; [exact A|]. split.
  - intro ch. rewrite C. simpl. tauto.
  - intros ch Hin.
    assert (K : In ch (map fst (fold_left (fun d c => dict_set c [] d) channels [])))
      by (apply C; right; exact Hin).
    apply assoc_In_keys in K. destruct K as [v Hv]. rewrite Hv. f_equal.
    clear - B Hv. revert Hv.
    induction B as [|[k l] d Hl _ IH]; simpl; [discriminate|].
    destruct (String.eqb ch k); [|exact IH].
    intro H. injection H as <-. exact Hl.
Qed.

Fixpoint increasing (l : list nat) : Prop :=
  match l with
  | [] => True
  | x :: rest => Forall (fun y => x < y)%nat rest /\ increasing rest
  end.

Lemma increasing_snoc (l : list nat) (x : nat) :
  increasing l -> Forall (fun y => y < x)%nat l -> increasing (l ++ [x]).
Proof.
  induction l as [|y l IH]; simpl; intros Inc Lt.
  - split; constructor.
  - destruct Inc as [A B]. inversion Lt as [|? ? Hy Hl]; subst. split.
    + apply Forall_app. split; [exact A|]. constructor; [exact Hy|constructor].
    + apply IH; assumption.
Qed.

(** All the ticks of a storage. *)
Definition stored (d : dict (list tick_info)) : list tick_info := flat_map snd d.

Lemma dict_append_effect (ch : string) (info : tick_info)
  (d d' : dict (list tick_info)) :
  dict_append ch info d = Ok d' ->
  map fst d' = map fst d /\
  length (stored d') = S (length (stored d)) /\
  (forall P Q : list tick_info -> Prop,
      Forall (fun item => P (snd item)) d ->
      (forall l, P l -> Q l) ->
      (forall l, P l -> Q (l ++ [info])) ->
      Forall (fun item => Q (snd item)) d').
Proof.
  revert d'. induction d as [|[k ticks] d IH]; simpl; intros d' H; [discriminate|].
  destruct (String.eqb ch k).
  - injection H as <-. unfold stored. simpl. rewrite !length_app. simpl.
    split; [reflexivity|]. split; [lia|].
    intros P Q F Hq Hp. inversion F; subst. constructor; [apply Hp; assumption|].
    eapply Forall_impl; [|eassumption]. intros a Ha. apply Hq, Ha.
  - destruct (dict_append ch info d) as [rest|e]; [|discriminate].
    simpl in H. injection H as <-.
    destruct (IH rest eq_refl) as (A & B & C). unfold stored in *. simpl.
    rewrite A, !length_app, B. split; [reflexivity|]. split; [lia|].
    intros P Q F Hq Hp. inversion F; subst. constructor; [apply Hq; assumption|].
    apply (C P Q); assumption.
Qed.

Lemma route_In (channels : list string) (v : json) (ch : string) :
  route channels v = Ok (Some ch) -> In ch channels.
Proof.
  induction channels as [|c channels IH]; simpl; [discriminate|].
  destruct (py_in c v) as [[|]|e]; simpl; try discriminate.
  - intro H. injection H as <-. left. reflexivity.
  - intro H. right. apply IH. exact H.
Qed.

Section TickRun.

Variable json_loads : string -> result json.
Variable str_len : json -> nat.
Variable cfg : config.

Variable duration : Z.
Variable channels : list string.

Lemma make_tick_number (count : nat) (now : Q) (data : json) (info : tick_info) :
  make_tick str_len count now data = Ok info -> tick_number info = count.
Proof.
  unfold make_tick. intro H.
  repeat match type of H with
         | bind ?r _ = _ => destruct r; cbn [bind] in H; [|discriminate]
         end.
  injection H as <-. reflexivity.
Qed.

Lemma store_tick_cases (count : nat) (now : Q) (data : json)
  (d d' : dict (list tick_info)) (lines : list (level * entry)) :
  store_tick str_len channels count now data d = Ok (d', lines) ->
  d' = d \/
  exists ch info,
    make_tick str_len count now data = Ok info /\
    route channels (tick_channel info) = Ok (Some ch) /\
    dict_append ch info d = Ok d'.
Proof.
  unfold store_tick. intro H.
  destruct (is_channel_message data) as [[|]|e]; cbn [bind] in H; try discriminate.
  - destruct (make_tick str_len count now data) as [info|e]; cbn [bind] in H;
      [|discriminate].
    destruct (route channels (tick_channel info)) as [[ch|]|e] eqn:R;
      cbn [bind] in H; try discriminate.
    + destruct (dict_append ch info d) as [d1|e] eqn:A; cbn [bind] in H;
        [|discriminate].
      injection H as <- _. right. exists ch, info. auto.
    + injection H as <- _. left. reflexivity.
  - injection H as <- _. left. reflexivity.
Qed.

(** The loop has been entered, and the run has not failed. *)
Definition collecting_phase (p : phase) : Prop :=
  match p with
  | Checking | Receiving | Stamping _ | Finished None => True
  | _ => False
  end.

Definition well_numbered (bound : nat) (ticks : list tick_info) : Prop :=
  increasing (map tick_number ticks) /\
  Forall (fun tick => 1 <= tick_number tick <= bound)%nat ticks.

Definition tick_inv (s : tick_run) : Prop :=
  (collecting_phase (k_phase s) ->
   map fst (tick_data s) = map fst (tick_storage channels)) /\
  Forall (fun item => well_numbered (tick_count s) (snd item)) (tick_data s) /\
  (length (stored (tick_data s)) <= tick_count s)%nat.

Lemma well_numbered_weaken (n m : nat) (ticks : list tick_info) :
  (n <= m)%nat -> well_numbered n ticks -> well_numbered m ticks.
Proof.
  intros Le [A B]. split; [exact A|].
  eapply Forall_impl; [|exact B]. simpl. intros a Ha. lia.
Qed.

Lemma well_numbered_snoc (n : nat) (ticks : list tick_info) (info : tick_info) :
  tick_number info = S n ->
  well_numbered n ticks -> well_numbered (S n) (ticks ++ [info]).
Proof.
  intros E [A B]. split.
  - rewrite map_app. simpl. apply increasing_snoc; [exact A|].
    apply Forall_map. eapply Forall_impl; [|exact B]. simpl. intros a Ha. lia.
  - apply Forall_app. split.
    + eapply Forall_impl; [|exact B]. simpl. intros a Ha. lia.
    + constructor; [lia|constructor].
Qed.

Lemma k_goto_inv (s : tick_run) (p : phase) (lines : list (level * entry)) :
  tick_inv s ->
  (collecting_phase p -> collecting_phase (k_phase s)) ->
  tick_inv (k_goto s p lines).
Proof.
  intros (K & N & L) Hp. unfold tick_inv, k_goto. cbn [k_phase tick_data tick_count].
  split; [intro C; apply K, Hp, C|]. split; assumption.
Qed.

Lemma k_handle_inv (s : tick_run) (e : exn) :
  tick_inv s -> collecting_phase (k_phase s) -> tick_inv (k_handle s e).
Proof.
  intros Inv C. unfold k_handle. destruct e; apply k_goto_inv; auto.
Qed.

Lemma k_process_inv (s : tick_run) (message : string) (now : Q) :
  tick_inv s -> collecting_phase (k_phase s) ->
  tick_inv (k_process json_loads str_len channels s message now).
Proof.
  intros Inv C. pose proof Inv as (K & N & L). unfold k_process.
  destruct (json_loads message) as [data|e]; [|apply k_handle_inv; assumption].
  cbn [tick_count tick_data k_phase k_start k_log].
  replace (tick_count s + 1)%nat with (S (tick_count s)) by lia.
  assert (N' : Forall (fun item => well_numbered (S (tick_count s)) (snd item))
                 (tick_data s)).
  { eapply Forall_impl; [|exact N]. intros item H.
    apply (well_numbered_weaken (tick_count s)); [lia|exact H]. }
  destruct (store_tick str_len channels (S (tick_count s)) now data (tick_data s))
    as [[d' lines]|e] eqn:St.
  - unfold tick_inv. cbn [k_phase tick_data tick_count].
    destruct (store_tick_cases _ _ _ _ _ _ St) as [->|(ch & info & M & R & A)].
    + split; [intros _; apply K, C|]. split; [exact N'|lia].
    + destruct (dict_append_effect ch info _ _ A) as (Keys & Len & All).
      split; [intros _; rewrite Keys; apply K, C|]. split; [|lia].
      apply (All (well_numbered (tick_count s)) (well_numbered (S (tick_count s)))).
      * exact N.
      * intros l H. apply (well_numbered_weaken (tick_count s)); [lia|exact H].
      * intros l H. apply well_numbered_snoc; [|exact H].
        apply (make_tick_number _ _ _ _ M).
  - apply k_handle_inv; [|exact C].
    unfold tick_inv. cbn [k_phase tick_data tick_count].
    split; [exact K|]. split; [exact N'|lia].
Qed.

Lemma tick_step_inv (s : tick_run) (o : obs) :
  tick_inv s ->
  tick_inv (tick_by_tick_delay_test_step json_loads str_len cfg duration channels s o).
Proof.
  intro Inv. pose proof Inv as (K & N & L). unfold tick_by_tick_delay_test_step.
  destruct (prologue json_loads cfg channels Starting (k_phase s) o)
    as [p lines|e lines|] eqn:Pr.
  - apply k_goto_inv; [exact Inv|]. unfold prologue in Pr.
    destruct (k_phase s); destruct o as [t|r|r|r|]; try destruct r as [?|?];
      try discriminate; try (destruct (has_credentials cfg));
      injection Pr as <- _; intros [].
  - apply k_goto_inv; [exact Inv|]. intros [].
  - destruct (k_phase s) eqn:P; destruct o as [t|r|r|r|];
      try (apply k_goto_inv; [exact Inv|intros []]); try exact Inv.
    + (* the storage is created and the start time read *)
      unfold tick_inv. cbn [k_phase tick_data tick_count].
      destruct (tick_storage_from channels [] (NoDup_nil _) (Forall_nil _))
        as (_ & E & _).
      fold (tick_storage channels) in E.
      split; [reflexivity|]. split.
      * eapply Forall_impl; [|exact E]. intros item ->. split; constructor.
      * unfold stored. clear - E.
        induction E as [|[k l] d Hl _ IH]; simpl in *; [lia|].
        subst l. exact IH.
    + (* the while condition *)
      destruct (Qltb _ _).
      * apply k_goto_inv; [exact Inv|]. intros _. rewrite P. exact I.
      * unfold k_finish. destruct (_analyze_tick_data (tick_data s) duration)
          as [report [[]|e]]; apply k_goto_inv; try exact Inv;
          intros C; rewrite P; exact I.
    + (* a receive returns *)
      destruct r as [m|e].
      * apply k_goto_inv; [exact Inv|]. intros _. rewrite P. exact I.
      * apply k_handle_inv; [exact Inv|rewrite P; exact I].
    + (* the message is processed *)
      apply k_process_inv; [exact Inv|rewrite P; exact I].
Qed.

Lemma tick_run_inv (trace : list obs) :
  tick_inv (fold_left (tick_by_tick_delay_test_step json_loads str_len cfg duration channels)
              trace tick_init).
Proof.
  assert (G : forall s, tick_inv s ->
     tick_inv (fold_left (tick_by_tick_delay_test_step json_loads str_len cfg duration
                            channels) trace s)).
  { induction trace as [|o rest IH]; intros s H; simpl; [exact H|].
    apply IH, tick_step_inv, H. }
  apply G. unfold tick_inv, tick_init. cbn. split; [intros []|]. split; [constructor|lia].
Qed.

(** X4: once the loop of a tick run has been entered, the keys of the
    storage are the distinct subscribed channels and stay so: every
    subscribed channel has its list, and whichever channel the routing of
    lines 302-305 picks, the append on line 304 finds its list (it cannot
    raise KeyError). *)
Theorem tick_storage_keys_are_kept :
  forall trace : list obs,
    let s := tick_by_tick_delay_test json_loads str_len cfg duration (Some channels) trace in
    collecting_phase (k_phase s) ->
    map fst (tick_data s) = map fst (tick_storage channels) /\
    (forall ch, In ch channels -> exists ticks, assoc ch (tick_data s) = Some ticks) /\
    (forall (v : json) (ch : string) (info : tick_info),
        route channels v = Ok (Some ch) ->
        exists d', dict_append ch info (tick_data s) = Ok d').
Proof.
  intros trace s C. destruct (tick_run_inv trace) as (K & _ & _).
  fold (tick_by_tick_delay_test json_loads str_len cfg duration (Some channels) trace) in K.
  fold s in K. specialize (K C).
  assert (A : forall ch, In ch channels -> exists ticks, assoc ch (tick_data s) = Some ticks).
  { intros ch Hin. apply assoc_In_keys. rewrite K.
    apply tick_storage_keys. exact Hin. }
  split; [exact K|]. split; [exact A|].
  intros v ch info R. destruct (A ch (route_In _ _ _ R)) as [ticks Hticks].
  destruct (dict_append_spec ch info (tick_data s) ticks Hticks) as (d' & E & _).
  exists d'. exact E.
Qed.

(** X5: at any point of a tick run, the ticks stored for a channel carry
    strictly increasing tick numbers between 1 and the number of messages
    decoded so far, and no more ticks are stored over all channels than
    messages were decoded. *)
Theorem stored_ticks_are_numbered_in_order :
  forall trace : list obs,
    let s := tick_by_tick_delay_test json_loads str_len cfg duration (Some channels) trace in
    Forall (fun item =>
              increasing (map tick_number (snd item)) /\
              Forall (fun tick => 1 <= tick_number tick <= tick_count s)%nat (snd item))
           (tick_data s) /\
    (length (stored (tick_data s)) <= tick_count s)%nat.
Proof.
  intros trace s. destruct (tick_run_inv trace) as (_ & N & L). split; assumption.
Qed.

Lemma k_handle_keeps (s : tick_run) (e : exn) :
  k_phase (k_handle s e) = Checking /\
  tick_data (k_handle s e) = tick_data s /\
  tick_count (k_handle s e) = tick_count s.
Proof. unfold k_handle. destruct e; repeat split. Qed.

Lemma k_process_phase (s : tick_run) (message : string) (now : Q) :
  k_phase (k_process json_loads str_len channels s message now) = Checking.
Proof.
  unfold k_process. destruct (json_loads message) as [data|e].
  - destruct (store_tick _ _ _ _ _ _) as [[d' lines]|e]; [reflexivity|].
    apply k_handle_keeps.
  - apply k_handle_keeps.
Qed.

(** X6: the collection loop of a tick run is left through its while
    condition only.  No receive outcome and no message ends it: a
    connection that closes, a text that does not decode and a message of
    the wrong shape all lead back to the while condition, with the
    storage as it was; the run finishes in the step where the clock shows
    that [duration] has elapsed, and in no other. *)
Theorem tick_loop_left_only_by_its_condition :
  forall (s : tick_run) (o : obs),
    (k_phase s = Checking \/ k_phase s = Receiving \/
     exists message, k_phase s = Stamping message) ->
    let s' := tick_by_tick_delay_test_step json_loads str_len cfg duration channels s o in
    (forall f, k_phase s' = Finished f ->
       k_phase s = Checking /\
       exists now, o = Now now /\ (inject_Z duration <= now - k_start s)%Q) /\
    (forall e, k_phase s = Receiving -> o = RecvDone (Raise e) ->
       k_phase s' = Checking /\ tick_data s' = tick_data s /\
       tick_count s' = tick_count s) /\
    (forall message now, k_phase s = Stamping message -> o = Now now ->
       k_phase s' = Checking /\
       (forall e, json_loads message = Raise e ->
          tick_data s' = tick_data s /\ tick_count s' = tick_count s) /\
       (forall data e, json_loads message = Ok data ->
          store_tick str_len channels (tick_count s + 1) now data (tick_data s) = Raise e ->
          tick_data s' = tick_data s /\ tick_count s' = (tick_count s + 1)%nat)).
Proof.
  intros s o L s'. subst s'. unfold tick_by_tick_delay_test_step.
  assert (E : prologue json_loads cfg channels Starting (k_phase s) o = Elsewhere).
  { destruct L as [->|[->|[m ->]]]; destruct o as [t|r|r|r|]; reflexivity. }
  rewrite E. split; [|split].
  - intros f F. destruct L as [P|[P|[m P]]]; rewrite P in F |- *.
    + destruct o as [t|r|r|r|]; try discriminate F.
      destruct (Qltb (t - k_start s) (inject_Z duration)) eqn:Q; [discriminate F|].
      to_prop. split; [reflexivity|]. exists t. split; [reflexivity|exact Q].
    + destruct o as [t|r|r|r|]; try discriminate F.
      destruct r as [m|e]; [discriminate F|].
      rewrite (proj1 (k_handle_keeps s e)) in F. discriminate F.
    + destruct o as [t|r|r|r|]; try discriminate F.
      rewrite k_process_phase in F. discriminate F.
  - intros e P ->. rewrite P. apply k_handle_keeps.
  - intros message now P ->. rewrite P. split; [apply k_process_phase|]. split.
    + intros e B. unfold k_process. rewrite B. split; apply k_handle_keeps.
    + intros data e B St. unfold k_process. rewrite B.
      cbn [tick_count tick_data]. rewrite St.
      split.
      * rewrite (proj1 (proj2 (k_handle_keeps _ e))). reflexivity.
      * rewrite (proj2 (proj2 (k_handle_keeps _ e))). reflexivity.
Qed.

End TickRun.


(** ** Sessions of a stress run *)

#[local] Arguments log_progress : simpl never.
#[local] Arguments Nat.modulo : simpl never.

(** The readings of the clock in a schedule never go back. *)
Fixpoint schedule_monotone (last : Q) (schedule : list stress_event) : Prop :=
  match schedule with
  | [] => True
  | Deliver _ (Now t) :: rest => (last <= t)%Q /\ schedule_monotone t rest
  | _ :: rest => schedule_monotone last rest
  end.

(** How a session of a finished or running stress run has ended. *)
Definition failed (s : session) : nat :=
  match s_phase s with Finished (Some _) => 1 | _ => 0 end.

Definition completed (s : session) : nat :=
  match s_phase s with Finished None => 1 | _ => 0 end.

(** The session has connected and nothing has gone wrong with it. *)
Definition healthy (s : session) : nat :=
  match s_phase s with
  | Connecting | Finished (Some _) | Stuck => 0
  | _ => 1
  end.

Definition left_connecting (s : session) : nat :=
  match s_phase s with Connecting => 0 | _ => 1 end.

(** The messages a session may still count once [is_running] is false. *)
Definition budget (s : session) : nat :=
  match s_phase s with Checking | Receiving | Stamping _ => 1 | _ => 0 end.

(** A session that has not got into its loop body. *)
Definition idle (last : Q) (s : session) : Prop :=
  connection_messages s = 0%nat /\
  match s_phase s with
  | Checking => (start_time s <= last)%Q
  | Receiving | Stamping _ => False
  | _ => True
  end.

Lemma log_progress_messages (t : tester) (s : session) :
  messages (log_progress t s) = messages t.
Proof. unfold log_progress. destruct (Nat.eqb _ 0); reflexivity. Qed.

Section SessionRun.

Variable json_loads : string -> result json.
Variable cfg : config.

Let step := single_connection_test_step json_loads cfg.

Ltac open_step :=
  unfold step, single_connection_test_step, prologue, s_process, s_handle,
    s_loop_head, s_complete, s_fail.

Lemma step_outcome (channels : list string) (duration : Z) (t : tester)
  (s : session) (o : obs) :
  let r := step channels duration t s o in
  (reconnection_count (fst r) + failed s = reconnection_count t + failed (snd r))%nat /\
  (healthy (snd r) <= healthy s + (connection_count (fst r) - connection_count t))%nat /\
  (connection_count (fst r) + left_connecting s <=
     connection_count t + left_connecting (snd r))%nat /\
  (connection_count t <= connection_count (fst r))%nat /\
  (completed s <= completed (snd r))%nat /\
  (length (messages (fst r)) <= length (messages t) + (total_messages (fst r) - total_messages t))%nat /\
  (length (messages t) <= length (messages (fst r)))%nat.
Proof.
  open_step. unfold failed, healthy, left_connecting, completed.
  destruct (s_phase s) eqn:P; destruct o as [now|r|r|r|];
    try destruct r as [?|e]; try destruct e; simpl;
    repeat (case_match; simpl);
    rewrite ?log_progress_messages, ?log_progress_total,
      ?log_progress_connections, ?log_progress_reconnections;
    try discriminate; simpl; rewrite ?length_app; simpl;
    repeat split; try lia; try congruence;
    destruct (has_credentials cfg); congruence.
Qed.

Lemma step_after_signal (channels : list string) (duration : Z) (t : tester)
  (s : session) (o : obs) :
  is_running t = false ->
  let r := step channels duration t s o in
  is_running (fst r) = false /\
  (total_messages (fst r) + budget (snd r) <= total_messages t + budget s)%nat /\
  (connection_messages (snd r) + budget (snd r) <= connection_messages s + budget s)%nat /\
  s_phase (snd r) <> Checking.
Proof.
  intro R. open_step. unfold budget.
  destruct (s_phase s) eqn:P; destruct o as [now|r|r|r|];
    try destruct r as [?|e]; try destruct e; simpl;
    repeat (case_match; simpl);
    rewrite ?log_progress_running, ?log_progress_total in *; simpl in *;
    try discriminate; try rewrite R in *; try discriminate;
    repeat split; try lia; try congruence;
    destruct (has_credentials cfg); congruence.
Qed.

Lemma idle_later (last last' : Q) (s : session) :
  (last <= last')%Q -> idle last s -> idle last' s.
Proof.
  unfold idle. intros Le [C H]. split; [exact C|].
  destruct (s_phase s); try exact H. lra.
Qed.

Lemma step_idle (channels : list string) (duration : Z) (t : tester)
  (s : session) (o : obs) (last : Q) :
  (duration <= 0)%Z ->
  idle last s ->
  match o with Now now => (last <= now)%Q | _ => True end ->
  let r := step channels duration t s o in
  idle (reading last o) (snd r) /\
  total_messages (fst r) = total_messages t /\
  messages (fst r) = messages t.
Proof.
  intros D [C H] M.
  assert (Dq : (inject_Z duration <= 0)%Q).
  { change 0%Q with (inject_Z 0). rewrite <- Zle_Qle. exact D. }
  open_step. unfold idle, reading.
  destruct (s_phase s) eqn:P; try contradiction;
    destruct o as [now|r|r|r|]; try destruct r as [?|e]; try destruct e; simpl;
    repeat (case_match; simpl); try discriminate;
    repeat split; try exact C; try lra; try exact I; try (to_prop; lra);
    destruct (has_credentials cfg); congruence.
Qed.

(** *** The counters after a stress run *)

Definition stress_account (t : tester) (st : stress_state) : Prop :=
  (reconnection_count (shared st) =
     reconnection_count t + list_sum (map failed (tasks st)))%nat /\
  (connection_count t + list_sum (map healthy (tasks st)) <=
     connection_count (shared st))%nat /\
  (connection_count (shared st) <=
     connection_count t + list_sum (map left_connecting (tasks st)))%nat /\
  (total_messages t <= total_messages (shared st))%nat /\
  (length (messages t) <= length (messages (shared st)))%nat /\
  (length (messages (shared st)) - length (messages t) <=
     total_messages (shared st) - total_messages t)%nat.

Lemma stress_step_account (duration : Z) (t : tester) (st : stress_state)
  (ev : stress_event) :
  stress_account t st ->
  stress_account t (stress_step json_loads cfg duration st ev).
Proof.
  intros (A & B & C & D & E & F). destruct ev as [id o|]; simpl.
  - destruct (nth_error (tasks st) id) as [s|] eqn:N; [|repeat split; assumption].
    pose proof (step_outcome stress_channels duration (shared st) s o)
      as (O1 & O2 & O3 & O4 & _ & O6 & O7).
    pose proof (step_writes json_loads cfg stress_channels duration (shared st) s o)
      as (W1 & _).
    unfold step in *.
    destruct (single_connection_test_step _ _ _ _ _ s o) as [t' s'].
    simpl in *.
    pose proof (list_sum_set_nth failed id s' s (tasks st) N).
    pose proof (list_sum_set_nth healthy id s' s (tasks st) N).
    pose proof (list_sum_set_nth left_connecting id s' s (tasks st) N).
    unfold stress_account. simpl. repeat split; lia.
  - unfold stress_account. simpl. repeat split; assumption.
Qed.

Lemma stress_run_account (duration : Z) (t : tester)
  (schedule : list stress_event) (st : stress_state) :
  stress_account t st ->
  stress_account t (fold_left (stress_step json_loads cfg duration) schedule st).
Proof.
  revert st. induction schedule as [|ev rest IH]; intros st H; simpl; [exact H|].
  apply IH, stress_step_account, H.
Qed.

Lemma set_nth_length {A : Type} (i : nat) (x : A) (l : list A) :
  length (set_nth i x l) = length l.
Proof.
  revert i. induction l as [|y l IH]; intros [|i]; simpl; try reflexivity.
  rewrite IH. reflexivity.
Qed.

Lemma stress_tasks_length (duration : Z) (schedule : list stress_event)
  (st : stress_state) :
  length (tasks (fold_left (stress_step json_loads cfg duration) schedule st)) =
  length (tasks st).
Proof.
  revert st. induction schedule as [|ev rest IH]; intro st; simpl; [reflexivity|].
  rewrite IH. destruct ev as [id o|]; simpl; [|reflexivity].
  destruct (nth_error (tasks st) id) as [s|]; [|reflexivity].
  destruct (single_connection_test_step _ _ _ _ _ s o) as [t' s']. simpl.
  apply set_nth_length.
Qed.

Lemma list_sum_indicator {A : Type} (f : A -> nat) (l : list A) :
  (forall x, f x <= 1)%nat -> (list_sum (map f l) <= length l)%nat.
Proof.
  intro H. induction l as [|x l IH]; simpl; [lia|]. specialize (H x). lia.
Qed.

Lemma finished_sum (l : list session) :
  forallb (fun s => match s_phase s with Finished _ => true | _ => false end) l = true ->
  (list_sum (map failed l) + list_sum (map completed l) = length l)%nat.
Proof.
  induction l as [|s l IH]; simpl; [reflexivity|].
  intro H. apply andb_true_iff in H. destruct H as [Hs Hl]. specialize (IH Hl).
  unfold failed, completed in *. destruct (s_phase s) as [| | | | | | | | | | | [e|] |];
    try discriminate; lia.
Qed.

Lemma completed_le_healthy (l : list session) :
  (list_sum (map completed l) <= list_sum (map healthy l))%nat.
Proof.
  induction l as [|s l IH]; simpl; [lia|].
  unfold completed, healthy in *. destruct (s_phase s) as [| | | | | | | | | | | [e|] |]; lia.
Qed.

(** X7: how the counters of the tester account for the sessions of a
    stress run, under every schedule.  [reconnection_count] has risen by
    exactly the number of sessions that ended with an exception (a failed
    connect, authentication send or subscribe); [connection_count] has
    risen by at least the number of sessions that ended normally and by at
    most [num_connections]; once all sessions have ended, the two kinds
    of ending add up to [num_connections]; and no more messages have
    been stored than counted. *)
Theorem stress_counters_account_for_sessions :
  forall (t : tester) (num_connections : nat) (duration : Z)
         (schedule : list stress_event),
    let st := stress_test json_loads cfg t num_connections duration schedule in
    (reconnection_count (shared st) =
       reconnection_count t + list_sum (map failed (tasks st)))%nat /\
    (connection_count t + list_sum (map completed (tasks st)) <=
       connection_count (shared st))%nat /\
    (connection_count (shared st) <= connection_count t + num_connections)%nat /\
    (all_finished st = true ->
     list_sum (map failed (tasks st)) + list_sum (map completed (tasks st)) =
       num_connections)%nat /\
    (length (messages (shared st)) - length (messages t) <=
       total_messages (shared st) - total_messages t)%nat.
Proof.
  intros t n duration schedule st.
  assert (Len : length (tasks st) = n).
  { unfold st, stress_test. rewrite stress_tasks_length. unfold stress_start. simpl.
    rewrite length_map, length_seq. reflexivity. }
  assert (Acc : stress_account t st).
  { apply stress_run_account. unfold stress_account, stress_start. simpl.
    assert (Z : forall l, list_sum (map failed (map new_session l)) = 0%nat /\
                          list_sum (map healthy (map new_session l)) = 0%nat /\
                          list_sum (map left_connecting (map new_session l)) = 0%nat).
    { induction l as [|i l (A & B & C)]; simpl; auto. }
    destruct (Z (seq 0 n)) as (-> & -> & ->). repeat split; lia. }
  destruct Acc as (A & B & C & D & E & F).
  split; [exact A|]. split.
  { pose proof (completed_le_healthy (tasks st)). lia. }
  split.
  { pose proof (list_sum_indicator left_connecting (tasks st)) as H.
    rewrite Len in H. assert (forall x, (left_connecting x <= 1)%nat).
    { intro x. unfold left_connecting. destruct (s_phase x); lia. }
    specialize (H H0). lia. }
  split; [|exact F].
  intro Fin. rewrite <- Len. apply finished_sum. exact Fin.
Qed.

(** *** A stress run with no time to run *)

Lemma stress_step_idle (duration : Z) (st : stress_state) (id : nat) (o : obs)
  (last : Q) :
  (duration <= 0)%Z ->
  Forall (idle last) (tasks st) ->
  match o with Now now => (last <= now)%Q | _ => True end ->
  let st' := stress_step json_loads cfg duration st (Deliver id o) in
  Forall (idle (reading last o)) (tasks st') /\
  total_messages (shared st') = total_messages (shared st) /\
  messages (shared st') = messages (shared st).
Proof.
  intros D F Mo.
  assert (Le : (last <= reading last o)%Q) by (destruct o; simpl; lra).
  assert (F' : Forall (idle (reading last o)) (tasks st)).
  { eapply Forall_impl; [|exact F]. intros a Ha. apply (idle_later last); assumption. }
  simpl. destruct (nth_error (tasks st) id) as [s|] eqn:N.
  - assert (Is : idle last s).
    { rewrite Forall_forall in F. apply F. eapply nth_error_In. exact N. }
    pose proof (step_idle stress_channels duration (shared st) s o last D Is Mo)
      as (I' & T' & M').
    unfold step in *.
    destruct (single_connection_test_step _ _ _ _ _ s o) as [t' s'].
    simpl in I', T', M' |- *.
    split; [|split; assumption]. apply Forall_set_nth; assumption.
  - split; [exact F'|]. split; reflexivity.
Qed.

Lemma stress_idle_run (duration : Z) (schedule : list stress_event) :
  (duration <= 0)%Z ->
  forall (st : stress_state) (last : Q),
    Forall (idle last) (tasks st) ->
    schedule_monotone last schedule ->
    let st' := fold_left (stress_step json_loads cfg duration) schedule st in
    (exists last', Forall (idle last') (tasks st')) /\
    total_messages (shared st') = total_messages (shared st) /\
    messages (shared st') = messages (shared st).
Proof.
  intro D. induction schedule as [|ev rest IH]; intros st last F M.
  - simpl. split; [exists last; exact F|]. split; reflexivity.
  - cbn [fold_left]. destruct ev as [id o|].
    + assert (Mo : match o with Now now => (last <= now)%Q | _ => True end).
      { destruct o; simpl in M; try exact I. apply M. }
      assert (Mrest : schedule_monotone (reading last o) rest).
      { destruct o; simpl in M |- *; try exact M. apply M. }
      destruct (stress_step_idle duration st id o last D F Mo) as (F' & T' & M').
      destruct (IH _ _ F' Mrest) as (A & B & C).
      split; [exact A|]. split; congruence.
    + simpl in M.
      exact (IH {| shared := _signal_handler (shared st); tasks := tasks st |}
                last F M).
Qed.

(** X8: a stress run whose [duration] is 0 or negative, on a clock
    that does not go back: whatever the schedule, no session ever waits
    for a message; each one leaves its loop at its first look at the
    clock, every session reports 0 messages, and the shared total and the
    stored messages are what they were before the run. *)
Theorem stress_run_without_duration_counts_nothing :
  forall (t : tester) (num_connections : nat) (duration : Z)
         (schedule : list stress_event) (first : Q),
    (duration <= 0)%Z ->
    schedule_monotone first schedule ->
    let st := stress_test json_loads cfg t num_connections duration schedule in
    Forall (fun s => connection_messages s = 0%nat /\ s_phase s <> Receiving /\
                     forall m, s_phase s <> Stamping m) (tasks st) /\
    total_messages (shared st) = total_messages t /\
    messages (shared st) = messages t.
Proof.
  intros t n duration schedule first D M st.
  assert (F0 : Forall (idle first) (tasks (stress_start t n))).
  { unfold stress_start. simpl. apply Forall_forall. intros s Hs.
    apply in_map_iff in Hs. destruct Hs as (i & <- & _). split; [reflexivity|exact I]. }
  destruct (stress_idle_run duration schedule D (stress_start t n) first F0 M)
    as ([last' F] & T & Ms).
  fold (stress_test json_loads cfg t n duration schedule) in F, T, Ms. fold st in F, T, Ms.
  split; [|split; [exact T|exact Ms]].
  eapply Forall_impl; [|exact F]. intros s [C H]. split; [exact C|].
  destruct (s_phase s); try contradiction; split; try discriminate; intros m; discriminate.
Qed.

(** *** After a shutdown signal *)

Lemma stress_step_after_signal (duration : Z) (st : stress_state)
  (ev : stress_event) :
  is_running (shared st) = false ->
  let st' := stress_step json_loads cfg duration st ev in
  is_running (shared st') = false /\
  (total_messages (shared st') + list_sum (map budget (tasks st')) <=
     total_messages (shared st) + list_sum (map budget (tasks st)))%nat /\
  (forall id s, nth_error (tasks st) id = Some s ->
     exists s', nth_error (tasks st') id = Some s' /\
                (connection_messages s' + budget s' <=
                   connection_messages s + budget s)%nat).
Proof.
  intro R. destruct ev as [id o|]; simpl.
  - destruct (nth_error (tasks st) id) as [s|] eqn:N.
    + pose proof (step_after_signal stress_channels duration (shared st) s o R)
        as (R' & T' & C' & _).
      unfold step in *.
      destruct (single_connection_test_step _ _ _ _ _ s o) as [t' s'].
      simpl in R', T', C' |- *.
      pose proof (list_sum_set_nth budget id s' s (tasks st) N) as Hb.
      split; [exact R'|]. split; [lia|].
      intros j sj Hj. destruct (Nat.eq_dec id j) as [<-|Ne].
      * rewrite N in Hj. injection Hj as <-.
        exists s'. split; [apply (nth_error_set_nth_eq id s' s (tasks st) N)|lia].
      * exists sj. split; [|lia].
        rewrite (nth_error_set_nth_neq id j s' (tasks st) Ne). exact Hj.
    + split; [exact R|]. split; [lia|]. intros j sj Hj. exists sj. split; [exact Hj|lia].
  - split; [reflexivity|]. split; [lia|]. intros j sj Hj. exists sj. split; [exact Hj|lia].
Qed.

Lemma stress_after_signal (duration : Z) (schedule : list stress_event) :
  forall st : stress_state,
    is_running (shared st) = false ->
    let st' := fold_left (stress_step json_loads cfg duration) schedule st in
    is_running (shared st') = false /\
    (total_messages (shared st') + list_sum (map budget (tasks st')) <=
       total_messages (shared st) + list_sum (map budget (tasks st)))%nat /\
    (forall id s, nth_error (tasks st) id = Some s ->
       exists s', nth_error (tasks st') id = Some s' /\
                  (connection_messages s' + budget s' <=
                     connection_messages s + budget s)%nat).
Proof.
  induction schedule as [|ev rest IH]; intros st R.
  - simpl. split; [exact R|]. split; [lia|]. intros id s H. exists s. split; [exact H|lia].
  - cbn [fold_left].
    destruct (stress_step_after_signal duration st ev R) as (R' & T' & C').
    destruct (IH _ R') as (A & B & C).
    split; [exact A|]. split; [lia|].
    intros id s Hs. destruct (C' id s Hs) as (s1 & E1 & L1).
    destruct (C id s1 E1) as (s2 & E2 & L2).
    exists s2. split; [exact E2|lia].
Qed.

(** X9: after a shutdown signal a session counts at most one more
    message, the one it was already receiving, and never passes its
    while condition again; so over any continuation of the schedule the
    shared total rises by at most the number of sessions that were in
    their loop when the signal came, hence by at most
    [num_connections]. *)
Theorem at_most_one_message_after_signal :
  forall (t : tester) (num_connections : nat) (duration : Z)
         (before after : list stress_event),
    let at_signal := stress_test json_loads cfg t num_connections duration (before ++ [Signal]) in
    let final := stress_test json_loads cfg t num_connections duration (before ++ Signal :: after) in
    is_running (shared final) = false /\
    (total_messages (shared final) <=
       total_messages (shared at_signal) + list_sum (map budget (tasks at_signal)))%nat /\
    (total_messages (shared final) <= total_messages (shared at_signal) + num_connections)%nat /\
    (forall id s s',
        nth_error (tasks at_signal) id = Some s ->
        nth_error (tasks final) id = Some s' ->
        (connection_messages s' <= connection_messages s + 1)%nat) /\
    (forall (s : session) (o : obs),
        s_phase (snd (single_connection_test_step json_loads cfg stress_channels duration
                        (shared at_signal) s o)) <> Checking).
Proof.
  intros t n duration before after at_signal final.
  assert (R : is_running (shared at_signal) = false).
  { unfold at_signal, stress_test. rewrite fold_left_app. reflexivity. }
  assert (E : final = fold_left (stress_step json_loads cfg duration) after at_signal).
  { unfold final, at_signal, stress_test.
    replace (before ++ Signal :: after) with ((before ++ [Signal]) ++ after)
      by (rewrite <- app_assoc; reflexivity).
    rewrite (fold_left_app _ (before ++ [Signal]) after). reflexivity. }
  destruct (stress_after_signal duration after at_signal R) as (A & B & C).
  rewrite <- E in A, B, C.
  assert (Len : length (tasks at_signal) = n).
  { unfold at_signal, stress_test. rewrite stress_tasks_length. unfold stress_start.
    simpl. rewrite length_map, length_seq. reflexivity. }
  assert (Bud : (list_sum (map budget (tasks at_signal)) <= n)%nat).
  { rewrite <- Len. apply list_sum_indicator. intro x. unfold budget.
    destruct (s_phase x); lia. }
  split; [exact A|]. split; [lia|]. split; [lia|]. split.
  - intros id s s' Hs Hs'. destruct (C id s Hs) as (s'' & E' & L).
    rewrite Hs' in E'. injection E' as <-.
    assert (budget s <= 1)%nat by (unfold budget; destruct (s_phase s); lia). lia.
  - intros s o.
    apply (step_after_signal stress_channels duration (shared at_signal) s o R).
Qed.

End SessionRun.

(** ** What the analyser reports about delays *)

(** [sorted] keeps the elements and puts them in order. *)
Fixpoint ascending (l : list Q) : Prop :=
  match l with
  | [] => True
  | x :: rest => (forall y, In y rest -> (x <= y)%Q) /\ ascending rest
  end.

Lemma Qinsert_ascending (x : Q) (l : list Q) :
  ascending l -> ascending (Qinsert x l).
Proof.
  induction l as [|y l IH]; intro A; simpl.
  - split; [intros ? []|exact I].
  - destruct A as [Hy Hl]. destruct (Qltb x y) eqn:E; to_prop.
    + split; [|split; assumption].
      intros z [<-|Hz]; [lra|]. specialize (Hy z Hz). lra.
    + split; [|apply IH; exact Hl].
      intros z Hz. apply In_Qinsert in Hz. destruct Hz as [->|Hz]; [exact E|].
      apply Hy. exact Hz.
Qed.

Lemma sorted_ascending (l : list Q) : ascending (sorted l).
Proof.
  unfold sorted.
  assert (G : forall acc, ascending acc ->
                          ascending (fold_left (fun acc x => Qinsert x acc) l acc)).
  { induction l as [|x l IH]; intros acc A; simpl; [exact A|].
    apply IH, Qinsert_ascending, A. }
  apply G. exact I.
Qed.

Lemma count_if_Qinsert (p : Q -> bool) (x : Q) (l : list Q) :
  count_if p (Qinsert x l) = count_if p (x :: l).
Proof.
  induction l as [|y l IH]; simpl; [reflexivity|].
  destruct (Qltb x y); [reflexivity|].
  rewrite !count_if_cons in *. rewrite IH. lia.
Qed.

Lemma count_if_sorted (p : Q -> bool) (l : list Q) :
  count_if p (sorted l) = count_if p l.
Proof.
  unfold sorted.
  assert (G : forall acc,
             count_if p (fold_left (fun acc x => Qinsert x acc) l acc) =
             (count_if p acc + count_if p l)%nat).
  { induction l as [|x l IH]; intro acc; simpl.
    - unfold count_if at 3. simpl. lia.
    - rewrite IH, count_if_Qinsert, !count_if_cons. lia. }
  rewrite G. reflexivity.
Qed.

Lemma count_if_all (p : Q -> bool) (l : list Q) :
  (forall y, In y l -> p y = true) -> count_if p l = length l.
Proof.
  induction l as [|x l IH]; intro H; [reflexivity|].
  rewrite count_if_cons, H by (left; reflexivity). simpl.
  rewrite IH; [reflexivity|]. intros y Hy. apply H. right. exact Hy.
Qed.

Lemma sorted_length (l : list Q) : length (sorted l) = length l.
Proof.
  rewrite <- (count_if_all (fun _ => true) (sorted l)) by reflexivity.
  rewrite count_if_sorted. apply count_if_all. reflexivity.
Qed.

(** In a list in order, the element at index [k] has [k + 1] elements
    that are not above it and all the later ones not below it. *)
Lemma ascending_nth (l : list Q) :
  ascending l ->
  forall k : nat,
    (k < length l)%nat ->
    In (nth k l 0%Q) l /\
    (k + 1 <= count_if (fun d => Qle_bool d (nth k l 0%Q)) l)%nat /\
    (length l - k <= count_if (fun d => Qle_bool (nth k l 0%Q) d) l)%nat.
Proof.
  induction l as [|x l IH]; intros A k Hk; [simpl in Hk; lia|].
  destruct A as [Hx Hl]. destruct k as [|k].
  - cbn [nth]. split; [left; reflexivity|]. rewrite !count_if_cons.
    assert (E : Qle_bool x x = true) by (apply Qle_bool_iff; lra).
    rewrite E. split; [lia|].
    rewrite (count_if_all (fun d => Qle_bool x d) l).
    + simpl. lia.
    + intros y Hy. apply Qle_bool_iff. apply Hx. exact Hy.
  - simpl in Hk. assert (Hk' : (k < length l)%nat) by lia.
    destruct (IH Hl k Hk') as (Hin & Hle & Hge). cbn [nth].
    split; [right; exact Hin|]. rewrite !count_if_cons.
    assert (E : Qle_bool x (nth k l 0%Q) = true).
    { apply Qle_bool_iff. apply Hx. exact Hin. }
    rewrite E. simpl length. split; [lia|].
    destruct (Qle_bool (nth k l 0) x); lia.
Qed.

(** Every record of the delay block of a channel's report is logged by
    [delay_analysis] on the delays of the channel, every record of its
    price block by [price_analysis]; no other part of [analyze_channel]
    logs records of these kinds. *)
Definition from_its_block (ticks : list tick_info) (e : entry) : Prop :=
  match e with
  | DelayStatistics _ _ _ _ | DelayStdDev _ | DelayDistribution _ _ _ =>
      In e (fst (delay_analysis (delays_of ticks)))
  | PriceMovement _ _ _ | AveragePriceChange _ =>
      In e (fst (price_analysis ticks))
  | _ => True
  end.

Definition delay_record (e : entry) : Prop :=
  match e with
  | DelayStatistics _ _ _ _ | DelayStdDev _ | DelayDistribution _ _ _ => True
  | _ => False
  end.

Definition price_record (e : entry) : Prop :=
  match e with
  | PriceMovement _ _ _ | AveragePriceChange _ => True
  | _ => False
  end.

Lemma delay_analysis_lines (delays : list Q) :
  Forall delay_record (fst (delay_analysis delays)).
Proof.
  destruct delays as [|first others]; [constructor|].
  pose proof (delay_analysis_report first others) as R. cbv zeta in R.
  rewrite R. destruct (variance (first :: others)) as [var|e]; cbn [fst].
  - constructor; [exact I|]. constructor; [exact I|].
    apply Forall_forall. intros e He. unfold ranges_log in He.
    apply in_map_iff in He. destruct He as (item & <- & _). exact I.
  - constructor; [exact I|constructor].
Qed.

Lemma price_analysis_lines (ticks : list tick_info) :
  Forall price_record (fst (price_analysis ticks)).
Proof.
  unfold price_analysis, when.
  destruct (1 <? _)%nat; [|constructor].
  apply lines_and_then; [constructor|intros changes].
  apply lines_and_then; [constructor|intros frequency].
  apply lines_and_then; [constructor; [exact I|constructor]|intros _].
  destruct (filter (Qltb 0) changes); [constructor|].
  apply lines_and_then; [constructor|intros avg].
  constructor; [exact I|constructor].
Qed.

Lemma channel_log_blocks (duration : Z) (channel : string) (ticks : list tick_info) :
  Forall (from_its_block ticks) (fst (analyze_channel duration (channel, ticks))).
Proof.
  destruct ticks as [|tick ticks]; [constructor; [exact I|constructor]|].
  unfold analyze_channel.
  apply lines_and_then; [constructor; [exact I|constructor]|intros _].
  apply lines_and_then; [constructor; [exact I|constructor]|intros _].
  apply lines_and_then; [constructor|intros rate].
  apply lines_and_then; [constructor; [exact I|constructor]|intros _].
  apply lines_and_then; [|intros _].
  { pose proof (delay_analysis_lines (delays_of (tick :: ticks))) as F.
    apply Forall_forall. intros e He. rewrite Forall_forall in F.
    specialize (F e He). destruct e; try contradiction; exact He. }
  apply lines_and_then; [|intros _].
  { unfold size_analysis. destruct (map data_size (tick :: ticks)); [constructor|].
    apply lines_and_then; [constructor|intros avg].
    constructor; [exact I|constructor]. }
  apply lines_and_then; [|intros _].
  { pose proof (price_analysis_lines (tick :: ticks)) as F.
    apply Forall_forall. intros e He. rewrite Forall_forall in F.
    specialize (F e He). destruct e; try contradiction; exact He. }
  apply lines_for_each. intros x _. unfold sample_tick.
  apply lines_and_then; [constructor|intros shown].
  constructor; [exact I|constructor].
Qed.

(** What a record of [delay_analysis] is. *)
Lemma delay_records_logged (delays : list Q) (e : entry) :
  In e (fst (delay_analysis delays)) ->
  exists (first : Q) (others : list Q),
    delays = first :: others /\
    (e = DelayStatistics (Qsum delays / Qnat (length delays))
           (nth (length delays / 2) (sorted delays) 0%Q)
           (Qmin_list first others) (Qmax_list first others) \/
     exists var : Q,
       variance delays = Ok var /\
       (e = DelayStdDev var \/ In e (ranges_log delays))).
Proof.
  destruct delays as [|first others]; [intros []|].
  pose proof (delay_analysis_report first others) as R. cbv zeta in R.
  rewrite R. intro H. exists first, others. split; [reflexivity|].
  destruct (variance (first :: others)) as [var|err]; cbn [fst] in H.
  - destruct H as [<-|[<-|H]].
    + left. reflexivity.
    + right. exists var. split; [reflexivity|left; reflexivity].
    + right. exists var. split; [reflexivity|right; exact H].
  - destruct H as [<-|[]]. left. reflexivity.
Qed.


Lemma for_all_Forall {A B : Type} (f : A -> result B) (P : B -> Prop) (l : list A) :
  (forall x y, f x = Ok y -> P y) ->
  forall ys, for_all f l = Ok ys -> Forall P ys.
Proof.
  intro H. induction l as [|x l IH]; intros ys E.
  - injection E as <-. constructor.
  - cbn [for_all] in E. destruct (f x) as [y|e] eqn:Fx; [|discriminate].
    cbn [bind] in E. destruct (for_all f l) as [tail|e]; [|discriminate].
    cbn [bind] in E. injection E as <-.
    constructor; [apply (H x y Fx)|apply IH; reflexivity].
Qed.

(** The number whose square root [_calculate_std_dev] returns. *)
Lemma variance_nonneg (values : list Q) (var : Q) :
  variance values = Ok var -> (0 <= var)%Q.
Proof.
  destruct values as [|x l]; intro E.
  { injection E as <-. lra. }
  unfold variance in E. cbn [length] in E. rewrite py_div_S in E. cbn [bind] in E.
  destruct (for_all _ (x :: l)) as [squares|e] eqn:S2; [|discriminate].
  cbn [bind] in E. rewrite py_div_S in E. injection E as <-.
  apply Qle_shift_div_l; [apply Qnat_S_pos|]. rewrite Qmult_0_l.
  apply Qsum_nonneg.
  eapply for_all_Forall; [|exact S2].
  intros v y Hy. cbv beta in Hy. unfold float_square in Hy.
  destruct (overflows _); [discriminate|]. injection Hy as <-. apply square_nonneg.
Qed.

(** X10: the statistics record of a channel, delays being numbers.
    With a [duration] other than 0 a channel that has delays gets one.
    Whenever one is logged,
    its minimum, maximum and median are delays of the channel, every
    delay lies between minimum and maximum, and the median is the upper
    middle one: more than half of the delays are at most the median, and
    at least half of them, rounded up, are at least the median.  The
    number whose square root is logged as the standard deviation is never
    negative, and it is logged when the delays are of ordinary size
    (line 423 raises OverflowError on a square that is no float). *)
Theorem delay_statistics_are_consistent :
  forall (duration : Z) (channel : string) (ticks : list tick_info),
    (duration <> 0%Z -> delays_of ticks <> [] ->
     exists avg median lo hi : Q,
       In (DelayStatistics avg median lo hi)
          (fst (analyze_channel duration (channel, ticks)))) /\
    (forall avg median lo hi : Q,
        In (DelayStatistics avg median lo hi)
           (fst (analyze_channel duration (channel, ticks))) ->
        (In lo (delays_of ticks) /\ In hi (delays_of ticks) /\
         In median (delays_of ticks)) /\
        (forall d, In d (delays_of ticks) -> lo <= d /\ d <= hi)%Q /\
        (length (delays_of ticks) / 2 + 1 <=
           count_if (fun d => Qle_bool d median) (delays_of ticks))%nat /\
        (length (delays_of ticks) - length (delays_of ticks) / 2 <=
           count_if (fun d => Qle_bool median d) (delays_of ticks))%nat) /\
    (forall var : Q,
        In (DelayStdDev var) (fst (analyze_channel duration (channel, ticks))) ->
        (0 <= var)%Q) /\
    (duration <> 0%Z -> delays_of ticks <> [] ->
     forallb moderate (delays_of ticks) = true ->
     exists var : Q,
       In (DelayStdDev var) (fst (analyze_channel duration (channel, ticks)))).
Proof.
  intros duration channel ticks.
  pose proof (channel_log_blocks duration channel ticks) as B.
  rewrite Forall_forall in B.
  split; [|split; [|split]].
  - intros D N. destruct ticks as [|tick ticks]; [exfalso; apply N; reflexivity|].
    destruct (delays_of (tick :: ticks)) as [|first others] eqn:E;
      [exfalso; apply N; reflexivity|].
    do 4 eexists. apply (channel_delay_lines duration channel tick ticks D).
    rewrite E. pose proof (delay_analysis_report first others) as R.
    cbv zeta in R. rewrite R.
    destruct (variance (first :: others)); left; reflexivity.
  - intros avg median lo hi H. specialize (B _ H). cbn [from_its_block] in B.
    apply delay_records_logged in B.
    destruct B as (first & others & E & [S|(var & _ & [S|S])]).
    + injection S as -> -> -> ->. rewrite E.
      set (delays := first :: others).
      assert (Hk : (length delays / 2 < length (sorted delays))%nat).
      { rewrite sorted_length. apply Nat.div_lt; [simpl; lia|lia]. }
      destruct (ascending_nth (sorted delays) (sorted_ascending delays) _ Hk)
        as (Hin & Hle & Hge).
      rewrite count_if_sorted in Hle, Hge. rewrite sorted_length in Hge.
      apply (proj1 (In_sorted _ _)) in Hin.
      destruct (Qmin_list_le others first) as [L1 L2].
      destruct (Qmax_list_ge others first) as [U1 U2].
      split; [split; [apply Qmin_list_In|split; [apply Qmax_list_In|exact Hin]]|].
      split; [|split; [exact Hle|exact Hge]].
      intros d [<-|Hd]; split; auto.
    + discriminate.
    + unfold ranges_log in S. apply in_map_iff in S.
      destruct S as (item & S & _). discriminate.
  - intros var H. specialize (B _ H). cbn [from_its_block] in B.
    apply delay_records_logged in B.
    destruct B as (first & others & E & [S|(var' & V & [S|S])]).
    + discriminate.
    + injection S as ->. apply (variance_nonneg _ _ V).
    + unfold ranges_log in S. apply in_map_iff in S.
      destruct S as (item & S & _). discriminate.
  - intros D N M. destruct ticks as [|tick ticks]; [exfalso; apply N; reflexivity|].
    destruct (variance_moderate _ M) as (var & V & _).
    destruct (delays_of (tick :: ticks)) as [|first others] eqn:E;
      [exfalso; apply N; reflexivity|].
    exists var. apply (channel_delay_lines duration channel tick ticks D).
    rewrite E. pose proof (delay_analysis_report first others) as R.
    cbv zeta in R. rewrite R, V. right. left. reflexivity.
Qed.

Lemma count_if_negative (l : list Q) :
  (count_if (Qle_bool 0) l + count_if (fun d => Qltb d 0) l = length l)%nat.
Proof.
  induction l as [|d l IH]; [reflexivity|].
  rewrite !count_if_cons. simpl length. unfold Qltb at 1.
  destruct (Qle_bool 0 d); simpl; lia.
Qed.

Lemma count_if_none (p : Q -> bool) (l : list Q) :
  count_if p l = 0%nat <-> Forall (fun d => p d = false) l.
Proof.
  induction l as [|d l IH].
  - split; [constructor|reflexivity].
  - rewrite count_if_cons. split.
    + intro H. destruct (p d) eqn:E; [simpl in H; lia|].
      constructor; [exact E|]. apply IH. simpl in H. exact H.
    + intro F. inversion F as [|? ? Hd Hl]; subst. rewrite Hd. simpl.
      apply IH. exact Hl.
Qed.

(** X11: the range records of a channel.  Each of them carries one of
    the five ranges with the number of delays in it and that number's
    share of all the delays of the channel, in percent; with a
    [duration] other than 0 and delays of ordinary size all five are
    logged.  The ranges leave out the negative delays and nothing else:
    the five counts and the number of negative delays add up to the
    number of delays, so the counts add up to the number of delays
    exactly when no delay is negative.  (Delays are numbers here: a
    timestamp that is no number, NaN, has no counterpart in [json].) *)
Theorem delay_ranges_leave_out_negative_delays_only :
  forall (duration : Z) (channel : string) (ticks : list tick_info),
    (forall (name : string) (count : nat) (share : Q),
        In (DelayDistribution name count share)
           (fst (analyze_channel duration (channel, ticks))) ->
        In (name, count) (delay_ranges (delays_of ticks)) /\
        share = (Qnat count / Qnat (length (delays_of ticks)) * 100)%Q) /\
    (duration <> 0%Z -> delays_of ticks <> [] ->
     forallb moderate (delays_of ticks) = true ->
     forall (name : string) (count : nat),
       In (name, count) (delay_ranges (delays_of ticks)) ->
       In (DelayDistribution name count
             (Qnat count / Qnat (length (delays_of ticks)) * 100)%Q)
          (fst (analyze_channel duration (channel, ticks)))) /\
    (list_sum (map snd (delay_ranges (delays_of ticks))) +
       count_if (fun d => Qltb d 0) (delays_of ticks) =
     length (delays_of ticks))%nat /\
    (list_sum (map snd (delay_ranges (delays_of ticks))) = length (delays_of ticks) <->
     Forall (fun d => 0 <= d)%Q (delays_of ticks)).
Proof.
  intros duration channel ticks.
  pose proof (channel_log_blocks duration channel ticks) as B.
  rewrite Forall_forall in B.
  pose proof (count_if_negative (delays_of ticks)) as N.
  rewrite <- bucket_sum_nonnegative in N. unfold bucket_sum in N.
  split; [|split; [|split]].
  - intros name count share H. specialize (B _ H). cbn [from_its_block] in B.
    apply delay_records_logged in B.
    destruct B as (first & others & E & [S|(var & _ & [S|S])]); try discriminate.
    unfold ranges_log in S. apply in_map_iff in S.
    destruct S as ([name' count'] & S & Hin). cbn [fst snd] in S.
    injection S as -> -> <-. split; [exact Hin|reflexivity].
  - intros D Ne M name count Hin.
    destruct ticks as [|tick ticks]; [exfalso; apply Ne; reflexivity|].
    destruct (variance_moderate _ M) as (var & V & _).
    apply (channel_delay_lines duration channel tick ticks D).
    destruct (delays_of (tick :: ticks)) as [|first others] eqn:E;
      [exfalso; apply Ne; reflexivity|].
    pose proof (delay_analysis_report first others) as R.
    cbv zeta in R. rewrite R, V. right. right.
    unfold ranges_log. apply in_map_iff. exists (name, count).
    split; [reflexivity|exact Hin].
  - exact N.
  - split.
    + intro H. assert (H0 : count_if (fun d => Qltb d 0) (delays_of ticks) = 0%nat) by lia.
      apply count_if_none in H0. eapply Forall_impl; [|exact H0].
      intros d Hd. simpl in Hd. apply Qltb_ge in Hd. exact Hd.
    + intro F. assert (H0 : count_if (fun d => Qltb d 0) (delays_of ticks) = 0%nat).
      { apply count_if_none. eapply Forall_impl; [|exact F].
        intros d Hd. simpl. apply Qltb_ge. exact Hd. }
      lia.
Qed.

(** ** What the analyser reports about prices *)




(** ** What [authenticate] accepts *)

(** ['access_token' in v] without the exceptions: what makes the test on
    line 81 true. *)
Definition mentions_token (v : json) : bool :=
  match v with
  | JObj items => match assoc "access_token" items with Some _ => true | None => false end
  | JArr xs => existsb (is_str "access_token") xs
  | JStr s => substringb "access_token" s
  | _ => false
  end.

(** X13: [authenticate] returns True exactly when the reply decodes to
    a JSON object whose "result" member is an object with the key
    "access_token", a list with the string "access_token" among its
    elements, or a string in which "access_token" occurs: the test on
    line 81 is Python's [in], so a result that only mentions the word
    passes.  Success is logged at INFO; every other reply, one that
    raises inside the try block included, is logged at ERROR; and
    whatever the reply, the caller goes on to subscribe. *)
Theorem authentication_accepts_any_mention_of_a_token :
  forall (json_loads : string -> result json) (cfg : config) (r : result string),
    (fst (auth_reply json_loads r) = true <->
     exists response items inner,
       r = Ok response /\ json_loads response = Ok (JObj items) /\
       assoc "result" items = Some inner /\ mentions_token inner = true) /\
    (fst (auth_reply json_loads r) = true ->
     auth_log json_loads r = (INFO, AuthenticationSuccessful)) /\
    (fst (auth_reply json_loads r) = false ->
     fst (auth_log json_loads r) = ERROR) /\
    (forall (channels : list string) (ready : phase),
        prologue json_loads cfg channels ready AuthWaiting (RecvDone r) =
        Next Subscribing [auth_log json_loads r]).
Proof.
  intros json_loads cfg r. split; [|split; [|split]].
  - unfold auth_reply. split.
    + destruct r as [response|e]; [|discriminate]. cbn [bind].
      destruct (json_loads response) as [data|e] eqn:L; [|discriminate]. cbn [bind].
      destruct data as [|b|q|s|xs|items]; try discriminate.
      * cbn [py_in bind]. destruct (substringb "result" s); discriminate.
      * cbn [py_in bind]. destruct (existsb (is_str "result") xs); discriminate.
      * cbn [py_in py_getitem bind].
        destruct (assoc "result" items) as [inner|] eqn:A; [|discriminate].
        cbn [bind]. intro H. exists response, items, inner.
        split; [reflexivity|]. split; [exact L|]. split; [exact A|].
        destruct inner as [|b|q|s|xs|inner]; try discriminate; cbn [py_in bind] in H;
          cbn [mentions_token].
        -- destruct (substringb "access_token" s); [reflexivity|discriminate].
        -- destruct (existsb (is_str "access_token") xs); [reflexivity|discriminate].
        -- destruct (assoc "access_token" inner); [reflexivity|discriminate].
    + intros (response & items & inner & -> & L & A & M). cbn [bind]. rewrite L.
      cbn [bind py_in py_getitem]. rewrite A. cbn [bind].
      destruct inner as [|b|q|s|xs|inner]; try discriminate; cbn [py_in bind];
        cbn [mentions_token] in M; rewrite M; reflexivity.
  - unfold auth_log. destruct (auth_reply json_loads r) as [[|] line] eqn:E;
      [|discriminate]. intros _. unfold auth_reply in E.
    destruct (bind r _) as [[[|] data]|e]; try discriminate.
    injection E as <-. reflexivity.
  - unfold auth_log. destruct (auth_reply json_loads r) as [[|] line];
      [discriminate|reflexivity].
  - reflexivity.
Qed.

(** ** The pace of the reconnection driver *)

(** The readings of the clock in a trace never go back. *)
Fixpoint clock_monotone (last : Q) (trace : list obs) : Prop :=
  match trace with
  | [] => True
  | Now t :: rest => (last <= t)%Q /\ clock_monotone t rest
  | _ :: rest => clock_monotone last rest
  end.

Section ReconnectionPace.

Variable json_loads : string -> result json.
Variable cfg : config.
Variables disconnection_interval total_duration : Z.

Let step := reconnection_test_step json_loads cfg disconnection_interval total_duration.

(** Lines 432-456 write one field of the tester and its log. *)
Definition same_statistics (t t' : tester) : Prop :=
  is_running t' = is_running t /\
  total_messages t' = total_messages t /\
  connection_count t' = connection_count t /\
  connections t' = connections t /\
  messages t' = messages t.

Lemma reconnection_step_frame (s : reconnection_run) (o : obs) :
  same_statistics (r_tester s) (r_tester (step s o)).
Proof.
  unfold step, reconnection_test_step, prologue, same_statistics.
  destruct (r_phase s); destruct o as [now|r|r|r|];
    try destruct r as [?|e]; try destruct e; simpl;
    repeat (case_match; simpl); repeat split; reflexivity.
Qed.

(** With [n] drain loops left through their condition: each took the
    interval or more, they fit between the start and the last reading of
    the clock, and the last of them was begun before [total_duration]
    was up. *)
Definition paced (s : reconnection_run) (last : Q) : Prop :=
  let n := Qnat (length (intervals s)) in
  let interval := inject_Z disconnection_interval in
  let total := inject_Z total_duration in
  Forall (fun d => interval <= d)%Q (intervals s) /\
  ((1 <= length (intervals s))%nat ->
   (0 < total)%Q /\ (Qnat (length (intervals s) - 1) * interval < total)%Q) /\
  match r_phase s with
  | Starting => intervals s = []
  | Checking | Sleeping | Finished _ =>
      (r_start s <= last)%Q /\ (n * interval <= last - r_start s)%Q
  | Connecting | AuthSending | AuthWaiting | Subscribing | Timing =>
      (r_start s <= last)%Q /\ (n * interval <= last - r_start s)%Q /\
      (0 < total)%Q /\ (n * interval < total)%Q
  | Draining | Receiving =>
      (r_start s <= connection_start s)%Q /\ (connection_start s <= last)%Q /\
      (n * interval <= connection_start s - r_start s)%Q /\
      (0 < total)%Q /\ (n * interval < total)%Q
  | _ => True
  end.

Lemma paced_step (s : reconnection_run) (o : obs) (last : Q) :
  paced s last ->
  match o with Now now => (last <= now)%Q | _ => True end ->
  paced (step s o) (reading last o).
Proof.
  unfold paced, step, reconnection_test_step, prologue, r_fail, r_goto, r_disconnect,
    reading.
  intros (F & K & P) M.
  destruct (r_phase s) eqn:Ph; destruct o as [now|r|r|r|];
    try destruct r as [?|e]; try destruct e; try destruct (has_credentials cfg);
    cbn [r_phase intervals r_start connection_start];
    try match goal with
        | |- context [Qltb ?a ?b] => destruct (Qltb a b) eqn:?
        end;
    cbn [r_phase intervals r_start connection_start]; rewrite ?Ph;
    to_prop;
    try (split; [exact F|split; [exact K|]]);
    try exact I; try (repeat split; lra); try assumption.
  all: try (rewrite P; change (Qnat (length [])) with 0%Q; split; lra).
  (* the drain loop is left: one more interval *)
  all: destruct P as (P1 & P2 & P3 & P4 & P5);
    rewrite length_app; cbn [length];
    replace (length (intervals s) + 1)%nat with (S (length (intervals s))) by lia;
    split; [|split];
    [ apply Forall_app; split; [exact F|]; constructor; [assumption|constructor]
    | intros _; split; [exact P4|];
      replace (S (length (intervals s)) - 1)%nat with (length (intervals s)) by lia;
      exact P5
    | rewrite Qnat_S; split; lra ].
Qed.

Lemma paced_run (trace : list obs) :
  forall (s : reconnection_run) (last : Q),
    paced s last ->
    clock_monotone last trace ->
    exists last', paced (fold_left step trace s) last'.
Proof.
  induction trace as [|o rest IH]; intros s last P M.
  - exists last. exact P.
  - cbn [fold_left]. apply (IH _ (reading last o)).
    + apply paced_step; [exact P|]. destruct o; simpl in M; try exact I. apply M.
    + destruct o; simpl in M |- *; try exact M. apply M.
Qed.

Lemma reconnection_run_frame (trace : list obs) :
  forall s : reconnection_run,
    same_statistics (r_tester s) (r_tester (fold_left step trace s)).
Proof.
  induction trace as [|o rest IH]; intro s.
  - repeat split.
  - cbn [fold_left].
    destruct (reconnection_step_frame s o) as (A1 & A2 & A3 & A4 & A5).
    destruct (IH (step s o)) as (B1 & B2 & B3 & B4 & B5).
    unfold same_statistics. repeat split; congruence.
Qed.

(** X14: [reconnection_test] writes [reconnection_count] and nothing
    else of the tester's statistics: however many times it connects and
    however many messages it drains, [connection_count],
    [total_messages], [connections], [messages] and [is_running] are
    after the run what they were before it, and [reconnection_count] has
    not gone down. *)
Theorem reconnection_test_only_counts_reconnections :
  forall (t : tester) (trace : list obs),
    let final :=
      reconnection_test json_loads cfg t disconnection_interval total_duration trace in
    is_running (r_tester final) = is_running t /\
    total_messages (r_tester final) = total_messages t /\
    connection_count (r_tester final) = connection_count t /\
    connections (r_tester final) = connections t /\
    messages (r_tester final) = messages t /\
    (reconnection_count t <= reconnection_count (r_tester final))%nat.
Proof.
  intros t trace final.
  destruct (reconnection_run_frame trace (reconnection_init t)) as (A & B & C & D & E).
  pose proof (reconnection_count_is_intervals json_loads cfg disconnection_interval
                total_duration trace (reconnection_init t)) as H.
  simpl in H. unfold final, reconnection_test.
  repeat split; try assumption. lia.
Qed.

(** X15: the pace of the reconnections, for any interval and any
    total duration, on a clock that does not go back.  The counter goes
    up once per drain loop left through its condition; each of these
    lasted [disconnection_interval] or more; and the last one was begun
    while [total_duration] was not yet up, so with [n] reconnections
    counted, [total_duration] is positive and [n - 1] intervals are
    shorter than it.  In particular nothing is counted when
    [total_duration] is 0 or negative. *)
Theorem reconnections_are_paced :
  forall (t : tester) (trace : list obs) (first : Q),
    clock_monotone first trace ->
    let final :=
      reconnection_test json_loads cfg t disconnection_interval total_duration trace in
    let n := (reconnection_count (r_tester final) - reconnection_count t)%nat in
    n = length (intervals final) /\
    Forall (fun d => inject_Z disconnection_interval <= d)%Q (intervals final) /\
    ((1 <= n)%nat ->
     (0 < total_duration)%Z /\
     (Qnat (n - 1) * inject_Z disconnection_interval < inject_Z total_duration)%Q).
Proof.
  intros t trace first M final n.
  assert (P0 : paced (reconnection_init t) first).
  { unfold paced. simpl. split; [constructor|]. split; [lia|reflexivity]. }
  destruct (paced_run trace _ first P0 M) as (last' & F & K & _).
  pose proof (reconnection_count_is_intervals json_loads cfg disconnection_interval
                total_duration trace (reconnection_init t)) as H.
  simpl in H.
  assert (N : n = length (intervals final)).
  { unfold n, final, reconnection_test. lia. }
  split; [exact N|]. split; [exact F|].
  rewrite N. intro L. destruct (K L) as [K1 K2]. split; [|exact K2].
  change 0%Q with (inject_Z 0) in K1. rewrite <- Zlt_Qlt in K1. exact K1.
Qed.

End ReconnectionPace.

(** ** [print_statistics] *)

(** The records of lines 463-487. *)
Inductive statistic : Type :=
| Totals (connections messages reconnections : nat)
| ChannelCount (channel : json) (count : nat)
| LatencyStatistics (count : nat) (avg lo hi : Q).

(** A list or a dict cannot be the key of a dict. *)
Definition hashable (v : json) : bool :=
  match v with
  | JArr _ | JObj _ => false
  | _ => true
  end.

(** When two hashable values are the same key: [True] is the key [1]. *)
Definition key_eqb (a b : json) : bool :=
  match a, b with
  | JNull, JNull => true
  | JStr s, JStr s' => String.eqb s s'
  | (JBool _ | JNum _), (JBool _ | JNum _) =>
      match py_number a, py_number b with
      | Ok x, Ok y => Qeq_bool x y
      | _, _ => false
      end
  | _, _ => false
  end.

(** Line 473 on a dict with its keys in insertion order:
    [channel_counts[k] = channel_counts.get(k, 0) + 1]. *)
Fixpoint bump (k : json) (counts : list (json * nat)) : list (json * nat) :=
  match counts with
  | [] => [(k, 1%nat)]
  | (k', n) :: rest =>
      if key_eqb k k' then (k', (n + 1)%nat) :: rest else (k', n) :: bump k rest
  end.

(** Line 474: [if msg.latency]. *)
Definition truthy_latency (latency : option Q) : list Q :=
  match latency with
  | Some l => if Qeq_bool l 0 then [] else [l]
  | None => []
  end.

(** Lines 472-475. *)
Fixpoint tally (msgs : list WebSocketMessage.t) (channel_counts : list (json * nat))
  (latencies : list Q) : result (list (json * nat) * list Q) :=
  match msgs with
  | [] => Ok (channel_counts, latencies)
  | msg :: rest =>
      if hashable (WebSocketMessage.channel msg) then
        tally rest (bump (WebSocketMessage.channel msg) channel_counts)
          (latencies ++ truthy_latency (WebSocketMessage.latency msg))
      else Raise TypeError
  end.

(** Lines 458-487. *)
Definition print_statistics (t : tester) : list statistic * result unit :=
  let totals := Totals (connection_count t) (total_messages t) (reconnection_count t) in
  match messages t with
  | [] => ([totals], Ok tt)
  | _ =>
      match tally (messages t) [] [] with
      | Raise e => ([totals], Raise e)
      | Ok (channel_counts, latencies) =>
          let per_channel := map (fun item => ChannelCount (fst item) (snd item))
                                 channel_counts in
          match latencies with
          | [] => (totals :: per_channel, Ok tt)
          | first :: others =>
              (totals :: per_channel ++
                 [LatencyStatistics (length latencies)
                    (Qsum latencies / Qnat (length latencies))
                    (Qmin_list first others) (Qmax_list first others)],
               Ok tt)
          end
      end
  end.

(** Lines 192-193: what [stress_test] prints when every task is done. *)
Definition stress_report (json_loads : string -> result json) (cfg : config)
  (t : tester) (num_connections : nat) (duration : Z) (schedule : list stress_event)
  : list statistic * result unit :=
  print_statistics (shared (stress_test json_loads cfg t num_connections duration schedule)).

(** *** Properties *)

Definition channels_of (msgs : list WebSocketMessage.t) : list json :=
  map WebSocketMessage.channel msgs.

Definition latencies_of (msgs : list WebSocketMessage.t) : list Q :=
  flat_map (fun msg => truthy_latency (WebSocketMessage.latency msg)) msgs.

(** The counts and the keys that the channel lines of a report carry. *)
Definition printed_counts (lines : list statistic) : list nat :=
  flat_map (fun line => match line with ChannelCount _ n => [n] | _ => [] end) lines.

Definition printed_channels (lines : list statistic) : list json :=
  flat_map (fun line => match line with ChannelCount c _ => [c] | _ => [] end) lines.

Fixpoint distinct_keys (keys : list json) : Prop :=
  match keys with
  | [] => True
  | k :: rest => Forall (fun k' => key_eqb k' k = false) rest /\ distinct_keys rest
  end.

Lemma bump_spec (k : json) (counts : list (json * nat)) :
  list_sum (map snd (bump k counts)) = (list_sum (map snd counts) + 1)%nat /\
  (Forall (fun item => 1 <= snd item)%nat counts ->
   Forall (fun item => 1 <= snd item)%nat (bump k counts)) /\
  (map fst (bump k counts) = map fst counts \/
   map fst (bump k counts) = map fst counts ++ [k] /\
   Forall (fun k' => key_eqb k k' = false) (map fst counts)).
Proof.
  induction counts as [|[k' n] rest (S & P & K)]; simpl.
  - split; [reflexivity|]. split; [repeat constructor|]. right. split; constructor.
  - destruct (key_eqb k k') eqn:E; simpl.
    + split; [lia|]. split.
      * intro F. inversion F; subst. constructor; [simpl; lia|assumption].
      * left. reflexivity.
    + split; [lia|]. split.
      * intro F. inversion F; subst. constructor; [assumption|apply P; assumption].
      * destruct K as [K|[K1 K2]]; [left; rewrite K; reflexivity|right].
        split; [rewrite K1; reflexivity|]. constructor; assumption.
Qed.

Lemma distinct_keys_snoc (keys : list json) (k : json) :
  distinct_keys keys -> Forall (fun k' => key_eqb k k' = false) keys ->
  distinct_keys (keys ++ [k]).
Proof.
  induction keys as [|k0 rest IH]; intros D F; simpl.
  - split; constructor.
  - destruct D as [D1 D2]. inversion F; subst. split; [|apply IH; assumption].
    apply Forall_app. split; [exact D1|]. constructor; [assumption|constructor].
Qed.

Definition counted_once (channel_counts : list (json * nat)) : Prop :=
  Forall (fun item => 1 <= snd item)%nat channel_counts /\
  distinct_keys (map fst channel_counts).

Lemma tally_spec (msgs : list WebSocketMessage.t) :
  forall (channel_counts : list (json * nat)) (latencies : list Q),
    counted_once channel_counts ->
    if forallb hashable (channels_of msgs) then
      exists counts',
        tally msgs channel_counts latencies = Ok (counts', latencies ++ latencies_of msgs) /\
        list_sum (map snd counts') =
          (list_sum (map snd channel_counts) + length msgs)%nat /\
        counted_once counts'
    else tally msgs channel_counts latencies = Raise TypeError.
Proof.
  induction msgs as [|msg rest IH]; intros counts lats [P D]; simpl.
  - exists counts. rewrite app_nil_r. split; [reflexivity|]. split; [lia|].
    split; assumption.
  - destruct (hashable (WebSocketMessage.channel msg)) eqn:H; simpl; [|reflexivity].
    destruct (bump_spec (WebSocketMessage.channel msg) counts) as (S & P' & K).
    assert (C : counted_once (bump (WebSocketMessage.channel msg) counts)).
    { split; [apply P'; exact P|].
      destruct K as [->|[-> K]]; [exact D|]. apply distinct_keys_snoc; assumption. }
    specialize (IH (bump (WebSocketMessage.channel msg) counts)
                   (lats ++ truthy_latency (WebSocketMessage.latency msg)) C).
    unfold channels_of in *.
    destruct (forallb hashable (map WebSocketMessage.channel rest)); [|exact IH].
    destruct IH as (counts' & E & S' & C').
    exists counts'. unfold latencies_of in *. simpl.
    rewrite app_assoc. split; [exact E|]. split; [lia|exact C'].
Qed.

Lemma flat_map_nil {A B : Type} (f : A -> list B) (l : list A) :
  (forall x, In x l -> f x = []) -> flat_map f l = [].
Proof.
  induction l as [|x l IH]; intro H; [reflexivity|]. simpl.
  rewrite (H x (or_introl eq_refl)), IH; [reflexivity|].
  intros y Hy. apply H. right. exact Hy.
Qed.

Definition other_line (line : statistic) : Prop :=
  match line with ChannelCount _ _ => False | _ => True end.

Lemma printed_of_counts (counts : list (json * nat)) (tail : list statistic) :
  Forall other_line tail ->
  printed_counts (map (fun item => ChannelCount (fst item) (snd item)) counts ++ tail) =
    map snd counts /\
  printed_channels (map (fun item => ChannelCount (fst item) (snd item)) counts ++ tail) =
    map fst counts.
Proof.
  intro T. rewrite Forall_forall in T.
  unfold printed_counts, printed_channels. rewrite !flat_map_app.
  rewrite (flat_map_nil _ tail), (flat_map_nil _ tail), !app_nil_r.
  - induction counts as [|[k n] rest [IH1 IH2]]; [split; reflexivity|].
    simpl. rewrite IH1, IH2. split; reflexivity.
  - intros x Hx. specialize (T x Hx). destruct x; try reflexivity. contradiction.
  - intros x Hx. specialize (T x Hx). destruct x; try reflexivity. contradiction.
Qed.

Lemma tally_hashable (msgs : list WebSocketMessage.t) :
  forall (channel_counts counts' : list (json * nat)) (latencies latencies' : list Q),
    tally msgs channel_counts latencies = Ok (counts', latencies') ->
    Forall (fun k => hashable k = true) (map fst channel_counts) ->
    Forall (fun k => hashable k = true) (map fst counts').
Proof.
  induction msgs as [|msg rest IH]; intros counts counts' lats lats' E F; simpl in E.
  - injection E as <- <-. exact F.
  - destruct (hashable (WebSocketMessage.channel msg)) eqn:H; [|discriminate].
    apply (IH _ _ _ _ E).
    destruct (bump_spec (WebSocketMessage.channel msg) counts) as (_ & _ & [->|[-> _]]);
      [exact F|].
    apply Forall_app. split; [exact F|]. constructor; [exact H|constructor].
Qed.

(** Lines 481-487. *)
Definition latency_lines (latencies : list Q) : list statistic :=
  match latencies with
  | [] => []
  | first :: others =>
      [LatencyStatistics (length latencies) (Qsum latencies / Qnat (length latencies))
         (Qmin_list first others) (Qmax_list first others)]
  end.

Definition totals (t : tester) : statistic :=
  Totals (connection_count t) (total_messages t) (reconnection_count t).

(** The whole report when it can be made, and what is left of it when
    it cannot. *)
Lemma print_statistics_report (t : tester) :
  if forallb hashable (channels_of (messages t)) then
    exists channel_counts,
      print_statistics t =
        (totals t :: map (fun item => ChannelCount (fst item) (snd item)) channel_counts
           ++ latency_lines (latencies_of (messages t)),
         Ok tt) /\
      list_sum (map snd channel_counts) = length (messages t) /\
      counted_once channel_counts /\
      Forall (fun k => hashable k = true) (map fst channel_counts)
  else print_statistics t = ([totals t], Raise TypeError).
Proof.
  unfold print_statistics. fold (totals t).
  pose proof (tally_spec (messages t) [] [] (conj (Forall_nil _) I)) as T.
  destruct (messages t) as [|msg rest] eqn:M.
  { simpl. exists []. repeat split; constructor. }
  destruct (forallb hashable (channels_of (msg :: rest))).
  - destruct T as (counts & E & S & C). rewrite E.
    pose proof (tally_hashable _ _ _ _ _ E (Forall_nil _)) as Hk.
    exists counts. cbn [app] in *. split.
    + destruct (latencies_of (msg :: rest)); [|reflexivity].
      cbn [latency_lines]. rewrite app_nil_r. reflexivity.
    + split; [exact S|]. split; [exact C|exact Hk].
  - rewrite T. reflexivity.
Qed.

Lemma latency_lines_other (latencies : list Q) : Forall other_line (latency_lines latencies).
Proof. destruct latencies; repeat constructor. Qed.

(** X16: [print_statistics] raises exactly when a stored message has a
    channel that cannot be a dict key (a JSON list or object), with
    TypeError, after the three totals and before any channel line.
    Otherwise it returns; the report starts with the three counters of the
    tester, every stored message is counted under one channel (the counts
    add up to [len(self.messages)]), every channel printed has a count of 1
    or more, and no two printed channels are the same key. *)
Theorem statistics_count_every_stored_message_once :
  forall t : tester,
    let report := print_statistics t in
    (snd report = Raise TypeError <->
     forallb hashable (channels_of (messages t)) = false) /\
    (forallb hashable (channels_of (messages t)) = false ->
     fst report = [Totals (connection_count t) (total_messages t) (reconnection_count t)]) /\
    (forallb hashable (channels_of (messages t)) = true ->
     snd report = Ok tt /\
     hd_error (fst report) =
       Some (Totals (connection_count t) (total_messages t) (reconnection_count t)) /\
     list_sum (printed_counts (fst report)) = length (messages t) /\
     Forall (fun n => 1 <= n)%nat (printed_counts (fst report)) /\
     distinct_keys (printed_channels (fst report)) /\
     (forall c, In c (printed_channels (fst report)) -> hashable c = true)).
Proof.
  intros t report. unfold report.
  pose proof (print_statistics_report t) as R. fold (totals t).
  destruct (forallb hashable (channels_of (messages t))).
  - destruct R as (counts & -> & S & [P D] & Hk). cbn [fst snd].
    split; [split; discriminate|]. split; [discriminate|]. intros _.
    split; [reflexivity|]. split; [reflexivity|].
    destruct (printed_of_counts counts _ (latency_lines_other (latencies_of (messages t))))
      as [C1 C2].
    unfold printed_counts, printed_channels in *. cbn [flat_map totals app].
    rewrite C1, C2. split; [exact S|]. split.
    + apply Forall_forall. intros n Hn. apply in_map_iff in Hn.
      destruct Hn as (item & <- & Hi). rewrite Forall_forall in P. apply P. exact Hi.
    + split; [exact D|]. rewrite Forall_forall in Hk. exact Hk.
  - rewrite R. cbn [fst snd]. split; [split; reflexivity|]. split; [reflexivity|].
    discriminate.
Qed.

Lemma latencies_of_length (msgs : list WebSocketMessage.t) :
  (length (latencies_of msgs) <= length msgs)%nat.
Proof.
  induction msgs as [|msg rest IH]; [simpl; lia|].
  unfold latencies_of in *. simpl. rewrite length_app.
  assert (length (truthy_latency (WebSocketMessage.latency msg)) <= 1)%nat.
  { unfold truthy_latency. destruct (WebSocketMessage.latency msg) as [l|]; [|simpl; lia].
    destruct (Qeq_bool l 0); simpl; lia. }
  lia.
Qed.

Lemma In_latencies_of (msgs : list WebSocketMessage.t) (l : Q) :
  In l (latencies_of msgs) <->
  exists msg, In msg msgs /\ WebSocketMessage.latency msg = Some l /\ ~ (l == 0)%Q.
Proof.
  unfold latencies_of. rewrite in_flat_map. split.
  - intros (msg & Hin & Hl). exists msg. split; [exact Hin|].
    unfold truthy_latency in Hl.
    destruct (WebSocketMessage.latency msg) as [l'|]; [|contradiction].
    destruct (Qeq_bool l' 0) eqn:E; [contradiction|].
    destruct Hl as [->|[]]. split; [reflexivity|].
    intro Z. apply Qeq_bool_iff in Z. congruence.
  - intros (msg & Hin & Hl & Nz). exists msg. split; [exact Hin|].
    unfold truthy_latency. rewrite Hl.
    destruct (Qeq_bool l 0) eqn:E; [|left; reflexivity].
    apply Qeq_bool_iff in E. contradiction.
Qed.

(** X17: the latency line of [print_statistics] is over every stored
    latency that is not 0, with no filter on sign or size (unlike
    [latency_test], which keeps only values between 0 and 10000): its
    count is their number, at least 1 and at most the number of stored
    messages, and its minimum and maximum are among them and bound them
    all.  (Latencies are numbers here; nothing is said of the average,
    which is a rounded quotient.) *)
Theorem statistics_keep_every_nonzero_latency :
  forall (t : tester) (count : nat) (avg lo hi : Q),
    In (LatencyStatistics count avg lo hi) (fst (print_statistics t)) ->
    let kept := latencies_of (messages t) in
    count = length kept /\
    (1 <= count /\ count <= length (messages t))%nat /\
    (forall l, In l kept <->
       exists msg, In msg (messages t) /\ WebSocketMessage.latency msg = Some l /\
                   ~ (l == 0)%Q) /\
    In lo kept /\ In hi kept /\
    (forall l, In l kept -> lo <= l /\ l <= hi)%Q.
Proof.
  intros t count avg lo hi Hin kept.
  pose proof (print_statistics_report t) as R.
  destruct (forallb hashable (channels_of (messages t)));
    [|rewrite R in Hin; destruct Hin as [H|[]]; discriminate].
  destruct R as (counts & E & _). rewrite E in Hin. cbn [fst] in Hin.
  destruct Hin as [H|Hin]; [discriminate|].
  apply in_app_or in Hin. destruct Hin as [Hin|Hin].
  { apply in_map_iff in Hin. destruct Hin as (item & H & _). discriminate. }
  pose proof (latencies_of_length (messages t)) as Len.
  fold kept in Hin, Len. destruct kept as [|first others] eqn:K; [contradiction|].
  destruct Hin as [H|[]]. injection H as <- <- <- <-.
  split; [reflexivity|]. split; [simpl in *; lia|]. split.
  { intro l. rewrite <- K. apply In_latencies_of. }
  destruct (Qmin_list_le others first) as [L1 L2].
  destruct (Qmax_list_ge others first) as [U1 U2].
  split; [apply Qmin_list_In|]. split; [apply Qmax_list_In|].
  intros l [<-|Hl]; split; auto.
Qed.

Lemma stress_test_account (json_loads : string -> result json) (cfg : config)
  (t : tester) (num_connections : nat) (duration : Z) (schedule : list stress_event) :
  stress_account t (stress_test json_loads cfg t num_connections duration schedule).
Proof.
  apply stress_run_account. unfold stress_account, stress_start. simpl.
  assert (Z : forall l, list_sum (map failed (map new_session l)) = 0%nat /\
                        list_sum (map healthy (map new_session l)) = 0%nat /\
                        list_sum (map left_connecting (map new_session l)) = 0%nat).
  { induction l as [|i l (A & B & C)]; simpl; auto. }
  destruct (Z (seq 0 num_connections)) as (-> & -> & ->). repeat split; lia.
Qed.

(** X18: the report at the end of a stress test on a fresh tester.
    The totals printed are the shared counters after the run.  When the
    report can be made, the per-channel counts add up to the number of
    stored messages, which is at most the total of messages printed
    above them.  Once every task is done, connections and reconnections
    printed are at most [num_connections] each and together at least
    [num_connections]. *)
Theorem stress_report_counts_at_most_the_total :
  forall (json_loads : string -> result json) (cfg : config) (num_connections : nat)
         (duration : Z) (schedule : list stress_event),
    let st := stress_test json_loads cfg tester_init num_connections duration schedule in
    let report := stress_report json_loads cfg tester_init num_connections duration schedule in
    hd_error (fst report) =
      Some (Totals (connection_count (shared st)) (total_messages (shared st))
              (reconnection_count (shared st))) /\
    (snd report = Ok tt ->
     list_sum (printed_counts (fst report)) = length (messages (shared st)) /\
     (list_sum (printed_counts (fst report)) <= total_messages (shared st))%nat) /\
    (all_finished st = true ->
     (connection_count (shared st) <= num_connections)%nat /\
     (reconnection_count (shared st) <= num_connections)%nat /\
     (num_connections <= connection_count (shared st) + reconnection_count (shared st))%nat).
Proof.
  intros json_loads cfg n duration schedule st report.
  pose proof (stress_test_account json_loads cfg tester_init n duration schedule)
    as (A & B & C & D & E & F).
  fold st in A, B, C, D, E, F. simpl in A, B, C, D, E, F.
  assert (Len : length (tasks st) = n).
  { unfold st, stress_test. rewrite stress_tasks_length. unfold stress_start. simpl.
    rewrite length_map, length_seq. reflexivity. }
  unfold report, stress_report. fold st.
  pose proof (print_statistics_report (shared st)) as R.
  split; [|split].
  - destruct (forallb hashable (channels_of (messages (shared st)))).
    + destruct R as (counts & -> & _). reflexivity.
    + rewrite R. reflexivity.
  - destruct (forallb hashable (channels_of (messages (shared st))));
      [|rewrite R; discriminate].
    destruct R as (counts & -> & S & _). intros _. cbn [fst].
    destruct (printed_of_counts counts _
                (latency_lines_other (latencies_of (messages (shared st))))) as [C1 _].
    unfold printed_counts in *. cbn [flat_map totals app]. rewrite C1, S.
    split; [reflexivity|lia].
  - intro Fin. pose proof (finished_sum (tasks st) Fin) as Hs.
    pose proof (completed_le_healthy (tasks st)) as Hc.
    pose proof (list_sum_indicator left_connecting (tasks st)) as Hl.
    pose proof (list_sum_indicator failed (tasks st)) as Hf.
    assert (L1 : forall x, (left_connecting x <= 1)%nat).
    { intro x. unfold left_connecting. destruct (s_phase x); lia. }
    assert (L2 : forall x, (failed x <= 1)%nat).
    { intro x. unfold failed. destruct (s_phase x) as [| | | | | | | | | | |[e|]|]; lia. }
    specialize (Hl L1). specialize (Hf L2). lia.
Qed.

(** ** The list of open connections *)

#[local] Arguments log_progress : simpl never.
#[local] Arguments Nat.modulo : simpl never.

Lemma log_progress_sockets (t : tester) (s : session) :
  connections (log_progress t s) = connections t.
Proof. unfold log_progress. destruct (Nat.eqb _ 0); reflexivity. Qed.

(** An observation that gives a connecting session its socket. *)
Definition connection_made (o : obs) : bool :=
  match o with
  | ConnectDone (Ok _) => true
  | _ => false
  end.

(** The sessions, out of [n], that a schedule connects, in the order in
    which it connects them: those whose first observation is a connection
    made.  [seen] are the sessions that have observed something already. *)
Fixpoint sockets (n : nat) (seen : list nat) (schedule : list stress_event) : list nat :=
  match schedule with
  | [] => []
  | Signal :: rest => sockets n seen rest
  | Deliver id o :: rest =>
      if (id <? n)%nat && negb (existsb (Nat.eqb id) seen)
      then if connection_made o then id :: sockets n (id :: seen) rest
           else sockets n (id :: seen) rest
      else sockets n seen rest
  end.

Fixpoint seen_after (n : nat) (seen : list nat) (schedule : list stress_event) : list nat :=
  match schedule with
  | [] => seen
  | Signal :: rest => seen_after n seen rest
  | Deliver id o :: rest =>
      if (id <? n)%nat && negb (existsb (Nat.eqb id) seen)
      then seen_after n (id :: seen) rest
      else seen_after n seen rest
  end.

Section SessionConnections.

Variable json_loads : string -> result json.
Variable cfg : config.

Let step := single_connection_test_step json_loads cfg.

(** A step either leaves [connections] and [connection_count] alone, or
    it is the step in which a connecting session gets its socket: the
    socket is appended and counted.  No step takes a socket out. *)
Lemma step_connections (channels : list string) (duration : Z) (t : tester)
  (s : session) (o : obs) :
  let r := step channels duration t s o in
  connection_id (snd r) = connection_id s /\
  ((connections (fst r) = connections t /\
    connection_count (fst r) = connection_count t /\
    (s_phase (snd r) = Connecting -> s_phase s = Connecting)) \/
   (s_phase s = Connecting /\ s_phase (snd r) <> Connecting /\
    connections (fst r) = connections t ++ [connection_id s] /\
    connection_count (fst r) = (connection_count t + 1)%nat)).
Proof.
  unfold step, single_connection_test_step, prologue, s_process, s_handle,
    s_loop_head, s_complete, s_fail.
  destruct (s_phase s) eqn:P; destruct o as [now|r|r|r|];
    try destruct r as [?|e]; try destruct e; simpl;
    repeat (case_match; simpl);
    rewrite ?log_progress_connections, ?log_progress_sockets; simpl;
    try discriminate;
    (split; [reflexivity|]);
    try (left; repeat split; try reflexivity; try congruence; fail);
    try (right; repeat split; try reflexivity; try congruence; fail).
  right. repeat split; try reflexivity. destruct (has_credentials cfg); congruence.
Qed.

(** The first observation delivered to a session takes it out of
    [Connecting], and gives it its socket if it is a connection made. *)
Lemma step_from_connecting (channels : list string) (duration : Z) (t : tester)
  (s : session) (o : obs) :
  s_phase s = Connecting ->
  let r := step channels duration t s o in
  s_phase (snd r) <> Connecting /\
  (if connection_made o
   then connections (fst r) = connections t ++ [connection_id s] /\
        connection_count (fst r) = (connection_count t + 1)%nat
   else connections (fst r) = connections t /\
        connection_count (fst r) = connection_count t).
Proof.
  intro P. unfold step, single_connection_test_step, prologue, s_fail. rewrite P.
  destruct o as [now|[[]|e]|r|r|]; cbn [connection_made];
    try (destruct (has_credentials cfg)); simpl;
    (split; [discriminate|split; reflexivity]).
Qed.

Lemma nth_error_set_nth (id j : nat) (s' s : session) (l : list session) :
  nth_error l id = Some s ->
  nth_error (set_nth id s' l) j = if Nat.eqb id j then Some s' else nth_error l j.
Proof.
  intro N. destruct (Nat.eqb id j) eqn:E.
  - apply Nat.eqb_eq in E. subst j. apply (nth_error_set_nth_eq id s' s l N).
  - apply Nat.eqb_neq in E. apply nth_error_set_nth_neq. exact E.
Qed.

Lemma seen_spec (id : nat) (seen : list nat) :
  existsb (Nat.eqb id) seen = true <-> In id seen.
Proof.
  rewrite existsb_exists. split.
  - intros (x & Hx & E). apply Nat.eqb_eq in E. subst x. exact Hx.
  - intro H. exists id. split; [exact H|apply Nat.eqb_refl].
Qed.

(** The sessions still connecting are those that have observed nothing
    yet. *)
Definition waiting (n : nat) (seen : list nat) (st : stress_state) : Prop :=
  length (tasks st) = n /\
  forall id s, nth_error (tasks st) id = Some s ->
    connection_id s = id /\ (s_phase s = Connecting <-> ~ In id seen).

Lemma stress_run_sockets (duration : Z) (n : nat) (schedule : list stress_event) :
  forall (st : stress_state) (seen : list nat),
    waiting n seen st ->
    let final := fold_left (stress_step json_loads cfg duration) schedule st in
    connections (shared final) = connections (shared st) ++ sockets n seen schedule /\
    (connection_count (shared final) =
       connection_count (shared st) + length (sockets n seen schedule))%nat /\
    (forall id s, nth_error (tasks final) id = Some s -> s_phase s = Connecting ->
       ~ In id seen /\ ~ In id (sockets n seen schedule)).
Proof.
  induction schedule as [|ev rest IH]; intros st seen [Len W]; cbn [fold_left sockets].
  - rewrite app_nil_r. split; [reflexivity|]. split; [simpl; lia|].
    intros id s Hs P. split; [apply (W id s Hs); exact P|intros []].
  - destruct ev as [id o|].
    + cbn [stress_step]. destruct (nth_error (tasks st) id) as [s|] eqn:N.
      * assert (Lt : (id < n)%nat).
        { rewrite <- Len. apply nth_error_Some. rewrite N. discriminate. }
        apply Nat.ltb_lt in Lt. rewrite Lt. cbn [andb].
        destruct (W id s N) as [Id Wait].
        pose proof (step_connections stress_channels duration (shared st) s o) as (I' & K).
        pose proof (step_from_connecting stress_channels duration (shared st) s o) as C.
        unfold step in *.
        destruct (single_connection_test_step _ _ _ _ _ s o) as [t' s'].
        cbn [fst snd] in I', K, C.
        destruct (existsb (Nat.eqb id) seen) eqn:Seen; cbn [negb].
        -- apply seen_spec in Seen.
           assert (NotC : s_phase s <> Connecting).
           { intro P. apply Wait in P. contradiction. }
           destruct K as [(K1 & K2 & K3)|(K1 & _)]; [|contradiction].
           assert (W' : waiting n seen {| shared := t'; tasks := set_nth id s' (tasks st) |}).
           { split; [cbn [tasks]; rewrite set_nth_length; exact Len|].
             cbn [tasks]. intros j sj Hj.
             rewrite (nth_error_set_nth id j s' s _ N) in Hj.
             destruct (Nat.eqb id j) eqn:Ej.
             - apply Nat.eqb_eq in Ej. subst j. injection Hj as <-.
               split; [congruence|]. split; [intro P; exfalso; auto|].
               intro F. contradiction.
             - apply W. exact Hj. }
           destruct (IH _ seen W') as (A & B & D). cbn [shared] in A, B.
           rewrite A, B, K1, K2. split; [reflexivity|]. split; [reflexivity|exact D].
        -- assert (Fresh : ~ In id seen).
           { intro F. apply seen_spec in F. congruence. }
           assert (P : s_phase s = Connecting) by (apply Wait; exact Fresh).
           destruct (C P) as [NotC Sock].
           assert (W' : waiting n (id :: seen)
                          {| shared := t'; tasks := set_nth id s' (tasks st) |}).
           { split; [cbn [tasks]; rewrite set_nth_length; exact Len|].
             cbn [tasks]. intros j sj Hj.
             rewrite (nth_error_set_nth id j s' s _ N) in Hj.
             destruct (Nat.eqb id j) eqn:Ej.
             - apply Nat.eqb_eq in Ej. subst j. injection Hj as <-.
               split; [congruence|]. split; [intro Q; contradiction|].
               intro F. exfalso. apply F. left. reflexivity.
             - apply Nat.eqb_neq in Ej. destruct (W j sj Hj) as [Ij Wj].
               split; [exact Ij|]. split.
               + intros Q [F|F]; [congruence|]. apply Wj in Q. contradiction.
               + intro F. apply Wj. intro G. apply F. right. exact G. }
           destruct (IH _ (id :: seen) W') as (A & B & D). cbn [shared] in A, B.
           destruct (connection_made o).
           ++ destruct Sock as [S1 S2]. rewrite A, B, S1, S2, Id, <- app_assoc.
              cbn [app length]. split; [reflexivity|]. split; [lia|].
              intros j sj Hj Pj. destruct (D j sj Hj Pj) as [D1 D2]. split.
              ** intro F. apply D1. right. exact F.
              ** intros [F|F]; [apply D1; left; exact F|exact (D2 F)].
           ++ destruct Sock as [S1 S2]. rewrite A, B, S1, S2.
              split; [reflexivity|]. split; [reflexivity|].
              intros j sj Hj Pj. destruct (D j sj Hj Pj) as [D1 D2]. split; [|exact D2].
              intro F. apply D1. right. exact F.
      * assert (Ge : (id <? n)%nat = false).
        { apply Nat.ltb_ge. rewrite <- Len. apply nth_error_None. exact N. }
        rewrite Ge. cbn [andb]. apply (IH st seen). split; assumption.
    + cbn [stress_step].
      assert (W' : waiting n seen {| shared := _signal_handler (shared st);
                                     tasks := tasks st |}) by (split; assumption).
      destruct (IH _ seen W') as (A & B & D). cbn [shared _signal_handler connections
        connection_count] in A, B.
      rewrite A, B. split; [reflexivity|]. split; [reflexivity|exact D].
Qed.

Lemma sockets_fresh (n : nat) (schedule : list stress_event) :
  forall seen : list nat,
    NoDup (sockets n seen schedule) /\
    Forall (fun id => id < n)%nat (sockets n seen schedule) /\
    (forall id, In id (sockets n seen schedule) -> ~ In id seen).
Proof.
  induction schedule as [|ev rest IH]; intro seen; cbn [sockets].
  - split; [constructor|]. split; [constructor|intros id []].
  - destruct ev as [id o|]; [|apply IH].
    destruct (id <? n)%nat eqn:Lt; cbn [andb]; [|apply IH].
    destruct (existsb (Nat.eqb id) seen) eqn:Seen; cbn [negb]; [apply IH|].
    apply Nat.ltb_lt in Lt.
    assert (Fresh : ~ In id seen).
    { intro F. apply seen_spec in F. congruence. }
    destruct (IH (id :: seen)) as (A & B & C).
    assert (C' : forall j, In j (sockets n (id :: seen) rest) -> ~ In j seen).
    { intros j Hj F. apply (C j Hj). right. exact F. }
    destruct (connection_made o); [|split; [exact A|split; [exact B|exact C']]].
    split; [|split].
    + constructor; [|exact A]. intro F. apply (C id F). left. reflexivity.
    + constructor; [exact Lt|exact B].
    + intros j [<-|Hj]; [exact Fresh|apply C'; exact Hj].
Qed.

(** A session is among the [sockets] of a schedule exactly when the first
    observation delivered to it is a connection made. *)
Lemma In_sockets (n : nat) (schedule : list stress_event) :
  forall (seen : list nat) (id : nat),
    In id (sockets n seen schedule) <->
    (id < n)%nat /\ ~ In id seen /\
    exists before after,
      schedule = before ++ Deliver id (ConnectDone (Ok tt)) :: after /\
      forall o, ~ In (Deliver id o) before.
Proof.
  induction schedule as [|ev rest IH]; intros seen id; cbn [sockets].
  - split; [intros []|]. intros (_ & _ & before & after & E & _).
    destruct before; discriminate.
  - assert (Later : forall seen',
               (forall o, ev <> Deliver id o) ->
               ((id < n)%nat /\ ~ In id seen' /\
                exists before after,
                  rest = before ++ Deliver id (ConnectDone (Ok tt)) :: after /\
                  forall o, ~ In (Deliver id o) before) <->
               ((id < n)%nat /\ ~ In id seen' /\
                exists before after,
                  ev :: rest = before ++ Deliver id (ConnectDone (Ok tt)) :: after /\
                  forall o, ~ In (Deliver id o) before)).
    { intros seen' Other. split.
      - intros (A & B & before & after & E & F). split; [exact A|]. split; [exact B|].
        exists (ev :: before), after. split; [rewrite E; reflexivity|].
        intros o [G|G]; [exact (Other o G)|exact (F o G)].
      - intros (A & B & before & after & E & F). split; [exact A|]. split; [exact B|].
        destruct before as [|x before].
        + injection E as E _. exfalso. exact (Other _ E).
        + injection E as _ E. exists before, after. split; [exact E|].
          intros o G. apply (F o). right. exact G. }
    destruct ev as [j o|].
    + destruct (Nat.eq_dec j id) as [->|Ne].
      * destruct (id <? n)%nat eqn:Lt; cbn [andb].
        -- destruct (existsb (Nat.eqb id) seen) eqn:Seen; cbn [negb].
           ++ apply seen_spec in Seen. rewrite IH. split.
              ** intros (_ & B & _). contradiction.
              ** intros (_ & B & _). contradiction.
           ++ assert (Fresh : ~ In id seen).
              { intro F. apply seen_spec in F. congruence. }
              apply Nat.ltb_lt in Lt.
              assert (Gone : ~ In id (sockets n (id :: seen) rest)).
              { intro F. apply (proj2 (proj2 (sockets_fresh n rest (id :: seen))) id F).
                left. reflexivity. }
              destruct (connection_made o) eqn:Co.
              ** split.
                 --- intros _. split; [exact Lt|]. split; [exact Fresh|].
                     exists [], rest. split; [|intros o' []].
                     destruct o as [?|[[]|?]|?|?|]; try discriminate. reflexivity.
                 --- intros _. left. reflexivity.
              ** split; [intro F; contradiction|].
                 intros (_ & _ & before & after & E & F). exfalso.
                 destruct before as [|x before].
                 --- injection E as E. rewrite E in Co. discriminate.
                 --- injection E as E _. apply (F o). left. symmetry. exact E.
        -- rewrite IH. apply Nat.ltb_ge in Lt. split.
           ++ intros (A & _). lia.
           ++ intros (A & _). lia.
      * assert (Other : forall o', Deliver j o <> Deliver id o') by congruence.
        destruct ((j <? n)%nat && negb (existsb (Nat.eqb j) seen)).
        -- assert (Step : In id (sockets n (j :: seen) rest) <->
                          (id < n)%nat /\ ~ In id seen /\
                          exists before after,
                            Deliver j o :: rest =
                              before ++ Deliver id (ConnectDone (Ok tt)) :: after /\
                            forall o', ~ In (Deliver id o') before).
           { rewrite IH. rewrite <- (Later seen Other). split.
             - intros (A & B & C). split; [exact A|]. split; [|exact C].
               intro F. apply B. right. exact F.
             - intros (A & B & C). split; [exact A|]. split; [|exact C].
               intros [F|F]; [congruence|contradiction]. }
           destruct (connection_made o); [|exact Step].
           split.
           ++ intros [F|F]; [congruence|]. apply Step. exact F.
           ++ intro H. right. apply Step. exact H.
        -- rewrite IH. apply Later. exact Other.
    + rewrite IH. apply Later. intros o. discriminate.
Qed.

Lemma sockets_app (n : nat) (l1 l2 : list stress_event) :
  forall seen : list nat,
    sockets n seen (l1 ++ l2) = sockets n seen l1 ++ sockets n (seen_after n seen l1) l2.
Proof.
  induction l1 as [|ev rest IH]; intro seen; cbn [app sockets seen_after]; [reflexivity|].
  destruct ev as [id o|]; [|apply IH].
  destruct ((id <? n)%nat && negb (existsb (Nat.eqb id) seen)); [|apply IH].
  destruct (connection_made o); rewrite IH; reflexivity.
Qed.

Lemma In_seen_after (n : nat) (schedule : list stress_event) :
  forall (seen : list nat) (id : nat),
    In id (seen_after n seen schedule) ->
    In id seen \/ exists o, In (Deliver id o) schedule.
Proof.
  induction schedule as [|ev rest IH]; intros seen id H; cbn [seen_after] in H.
  - left. exact H.
  - assert (Rest : (exists o, In (Deliver id o) rest) -> exists o, In (Deliver id o) (ev :: rest)).
    { intros [o Ho]. exists o. right. exact Ho. }
    destruct ev as [j o|].
    + destruct ((j <? n)%nat && negb (existsb (Nat.eqb j) seen)).
      * destruct (IH _ _ H) as [[<-|F]|F].
        -- right. exists o. left. reflexivity.
        -- left. exact F.
        -- right. apply Rest. exact F.
      * destruct (IH _ _ H) as [F|F]; [left; exact F|right; apply Rest; exact F].
    + destruct (IH _ _ H) as [F|F]; [left; exact F|right; apply Rest; exact F].
Qed.

Lemma stress_start_waiting (t : tester) (n : nat) : waiting n [] (stress_start t n).
Proof.
  unfold waiting, stress_start. cbn [tasks].
  split; [rewrite length_map, length_seq; reflexivity|].
  intros id s Hs. rewrite nth_error_map in Hs.
  destruct (nth_error (seq 0 n) id) as [i|] eqn:Hi; [|discriminate].
  injection Hs as <-. simpl.
  assert (H : (id < length (seq 0 n))%nat) by (apply nth_error_Some; rewrite Hi; discriminate).
  rewrite length_seq in H.
  rewrite (nth_error_nth' _ 0%nat) in Hi by (rewrite length_seq; exact H).
  rewrite seq_nth in Hi by exact H. injection Hi as <-.
  split; [reflexivity|]. split; [intros _ []|reflexivity].
Qed.

Lemma stress_test_sockets (t : tester) (n : nat) (duration : Z)
  (schedule : list stress_event) :
  connections (shared (stress_test json_loads cfg t n duration schedule)) =
  connections t ++ sockets n [] schedule.
Proof.
  destruct (stress_run_sockets duration n schedule _ [] (stress_start_waiting t n))
    as (A & _).
  exact A.
Qed.

(** X19: [self.connections] only grows.  After any stress run it is
    the list it was, followed by one entry for each session whose
    connection was made, none of them twice; [connection_count] has gone
    up by the number of these entries; and a session still waiting to
    connect has no entry.  A session has an entry exactly when the first
    thing it observed was its connection being made, and the entries are
    in the order in which that happened: when a session gets connected,
    its entry is put after all that the list held at that moment, and
    what is added later comes after it. *)
Theorem opened_sockets_are_kept_and_counted_once :
  forall (t : tester) (num_connections : nat) (duration : Z)
         (schedule : list stress_event),
    let st := stress_test json_loads cfg t num_connections duration schedule in
    let opened := sockets num_connections [] schedule in
    connections (shared st) = connections t ++ opened /\
    (connection_count (shared st) = connection_count t + length opened)%nat /\
    NoDup opened /\
    Forall (fun id => id < num_connections)%nat opened /\
    (forall id s, nth_error (tasks st) id = Some s -> s_phase s = Connecting ->
                  ~ In id opened) /\
    (forall id,
        In id opened <->
        (id < num_connections)%nat /\
        exists before after,
          schedule = before ++ Deliver id (ConnectDone (Ok tt)) :: after /\
          forall o, ~ In (Deliver id o) before) /\
    (forall before id after,
        schedule = before ++ Deliver id (ConnectDone (Ok tt)) :: after ->
        (id < num_connections)%nat ->
        (forall o, ~ In (Deliver id o) before) ->
        exists later,
          connections (shared st) =
          connections (shared (stress_test json_loads cfg t num_connections duration
                                 before)) ++ id :: later).
Proof.
  intros t n duration schedule st opened.
  destruct (stress_run_sockets duration n schedule _ [] (stress_start_waiting t n))
    as (A & B & C).
  fold (stress_test json_loads cfg t n duration schedule) in A, B, C.
  fold st in A, B, C. fold opened in A, B, C.
  destruct (sockets_fresh n schedule []) as (N & F & _). fold opened in N, F.
  split; [exact A|]. split; [exact B|]. split; [exact N|]. split; [exact F|].
  split; [intros id s Hs P; apply (C id s Hs P)|]. split.
  - intro id. unfold opened. rewrite In_sockets. split.
    + intros (L & _ & H). split; assumption.
    + intros (L & H). split; [exact L|]. split; [intros []|exact H].
  - intros before id after E L Fresh.
    rewrite A. unfold opened. rewrite E, sockets_app, stress_test_sockets.
    cbn [sockets]. apply Nat.ltb_lt in L. rewrite L. cbn [andb connection_made].
    destruct (existsb (Nat.eqb id) (seen_after n [] before)) eqn:Seen.
    + apply seen_spec in Seen. apply In_seen_after in Seen.
      destruct Seen as [[]|[o Ho]]. exfalso. exact (Fresh o Ho).
    + cbn [negb]. rewrite app_assoc. eexists. reflexivity.
Qed.

End SessionConnections.

(** ** When the analyser gives up *)

Definition raises (m : action unit) : Prop :=
  exists e, snd m = Raise e.

Lemma raises_first (m k : action unit) : raises m -> raises (m ;;; k).
Proof.
  intros [e E]. destruct m as [lines [[]|e']]; simpl in E; [discriminate|].
  exists e'. reflexivity.
Qed.

Lemma raises_then {A : Type} (m : action A) (k : A -> action unit) :
  (forall a, raises (k a)) -> raises (x <~ m ;; k x).
Proof.
  intro H. destruct m as [lines [a|e]]; [|exists e; reflexivity].
  destruct (H a) as [e E]. unfold and_then.
  destruct (k a) as [lines' r]. simpl in E. subst r. exists e. reflexivity.
Qed.

Lemma for_each_raises {A : Type} (body : A -> action unit) (l : list A) (x : A) :
  In x l -> raises (body x) -> raises (for_each body l).
Proof.
  induction l as [|y l IH]; intros Hin R; [contradiction|].
  cbn [for_each]. destruct Hin as [->|Hin].
  - apply raises_first. exact R.
  - apply raises_then. intros _. apply IH; assumption.
Qed.

Lemma sample_tick_raises (tick : tick_info) (s : string) :
  price tick = JStr s -> s <> ""%string -> raises (sample_tick tick).
Proof.
  intros P N. unfold sample_tick. rewrite P. cbn [py_truthy format_f bind].
  destruct (String.eqb s "") eqn:E; [apply String.eqb_eq in E; contradiction|].
  exists ValueError. reflexivity.
Qed.

Lemma analyze_channel_raises (duration : Z) (channel : string) (ticks : list tick_info)
  (tick : tick_info) (s : string) :
  In tick (firstn 5 ticks) -> price tick = JStr s -> s <> ""%string ->
  raises (analyze_channel duration (channel, ticks)).
Proof.
  intros Hin P N. unfold analyze_channel.
  destruct ticks as [|first others]; [destruct Hin|].
  do 7 (apply raises_then; intros ?).
  apply (for_each_raises _ _ tick Hin). apply (sample_tick_raises tick s P N).
Qed.

(** The records that only [overall_analysis] logs. *)
Definition channel_line (line : entry) : Prop :=
  match line with
  | OverallSummary _ _ | PerformanceRating _ => False
  | _ => True
  end.

Lemma analyze_channel_lines (duration : Z) (item : string * list tick_info) :
  Forall channel_line (fst (analyze_channel duration item)).
Proof.
  destruct item as [channel ticks].
  destruct ticks as [|tick ticks]; [constructor; [exact I|constructor]|].
  unfold analyze_channel.
  apply lines_and_then; [constructor; [exact I|constructor]|intros _].
  apply lines_and_then; [constructor; [exact I|constructor]|intros _].
  apply lines_and_then; [constructor|intros rate].
  apply lines_and_then; [constructor; [exact I|constructor]|intros _].
  apply lines_and_then; [|intros _].
  { eapply Forall_impl; [|apply delay_analysis_lines].
    intros e He. destruct e; try contradiction; exact I. }
  apply lines_and_then; [|intros _].
  { unfold size_analysis. destruct (map data_size (tick :: ticks)); [constructor|].
    apply lines_and_then; [constructor|intros avg].
    constructor; [exact I|constructor]. }
  apply lines_and_then; [|intros _].
  { eapply Forall_impl; [|apply price_analysis_lines].
    intros e He. destruct e; try contradiction; exact I. }
  apply lines_for_each. intros x _. unfold sample_tick.
  apply lines_and_then; [constructor|intros shown].
  constructor; [exact I|constructor].
Qed.

(** X20: the analyser needs numbers for prices.  With a [duration]
    other than 0 and ticks of ordinary size (every delay, and every price
    that is there, a number between -10^150 and 10^150) it returns.  But if one
    of the first five ticks of some channel has a non-empty string as its
    price, the analyser raises, at the sample line of that tick if not
    before: the report never gets to the overall summary, and
    [tick_by_tick_delay_test] ends the run as failed. *)
Theorem analysis_needs_numeric_prices :
  forall (storage : dict (list tick_info)) (duration : Z),
    (duration <> 0%Z ->
     Forall (fun item => ordinary (snd item) = true) storage ->
     snd (_analyze_tick_data storage duration) = Ok tt) /\
    (forall (channel : string) (ticks : list tick_info) (tick : tick_info) (s : string),
        In (channel, ticks) storage ->
        In tick (firstn 5 ticks) ->
        price tick = JStr s -> s <> ""%string ->
        (exists e, snd (_analyze_tick_data storage duration) = Raise e) /\
        (forall line, In line (fst (_analyze_tick_data storage duration)) ->
           channel_line line) /\
        (forall run : tick_run,
            storage = tick_data run ->
            exists e, k_phase (k_finish run duration) = Finished (Some e))).
Proof.
  intros storage duration. split.
  - intros D N.
    destruct (analyzer_reports_when_duration_nonzero storage duration D N)
      as (lines & -> & _).
    reflexivity.
  - intros channel ticks tick s Hd Hin P N.
    assert (R : raises (for_each (analyze_channel duration) storage)).
    { apply (for_each_raises _ _ (channel, ticks) Hd).
      apply (analyze_channel_raises duration channel ticks tick s Hin P N). }
    destruct R as [e R].
    assert (Shape : exists lines e',
               _analyze_tick_data storage duration = (lines, Raise e') /\
               Forall channel_line lines).
    { unfold _analyze_tick_data. cbn [info and_then app].
      unfold py_div. destruct (Qeq_bool (inject_Z duration) 0).
      - cbn [lift and_then]. do 2 eexists. split; [reflexivity|].
        repeat constructor.
      - cbn [lift and_then info app].
        destruct (for_each (analyze_channel duration) storage) as [per_channel r] eqn:F.
        simpl in R. subst r. cbn [and_then]. do 2 eexists. split; [reflexivity|].
        repeat (constructor; [exact I|]).
        pose proof (lines_for_each channel_line (analyze_channel duration) storage
                      (fun x _ => analyze_channel_lines duration x)) as L.
        rewrite F in L. exact L. }
    destruct Shape as (lines & e' & E & F). rewrite E. cbn [fst snd].
    split; [exists e'; reflexivity|]. split.
    + rewrite Forall_forall in F. exact F.
    + intros run ->. unfold k_finish. rewrite E. exists e'. reflexivity.
Qed.

(** * Further concrete runs *)

(** A latency run over one message: stamped 500 ms, received at 1 s,
    with the clock at 31 s when the loop looks at it again. *)
Definition latency_script : list obs :=
  [ConnectDone (Ok tt); SendDone (Ok tt); Now 0] ++ arrivals 1 ["m2"%string] ++ [Now 31].

Lemma latency_results_are_ordered_and_in_range_witness :
  let run := latency_test wire no_credentials 30 latency_script in
  let x := ((1 - 500 / 1000) * 1000)%Q in
  l_log run =
    [(WARNING, NoCredentials); (INFO, Subscribed ["ticker.BTC-PERPETUAL.100ms"%string]);
     (INFO, LatencyResults 1 (Qsum [x] / Qnat 1) x x)] /\
  (1 <= 1)%nat /\
  (0 < x /\ x <= x /\ x < 10000)%Q.
Proof.
  intros run x. split; [reflexivity|].
  apply (latency_results_are_ordered_and_in_range wire no_credentials 30 latency_script
           INFO 1 (Qsum [x] / Qnat 1)).
  right. right. left. reflexivity.
Defined.

(** A tick run on the two book channels, up to its first stored tick. *)
Definition tick_script : list obs :=
  [ConnectDone (Ok tt); SendDone (Ok tt); Now 0; Now 0; RecvDone (Ok "b1"%string); Now 1].

Lemma tick_storage_keys_are_kept_witness :
  let s := tick_by_tick_delay_test book_wire text_size no_credentials 60
             (Some book_channels) tick_script in
  k_phase s = Checking /\
  map fst (tick_data s) = map fst (tick_storage book_channels) /\
  (forall ch, In ch book_channels -> exists ticks, assoc ch (tick_data s) = Some ticks).
Proof.
  split; [reflexivity|].
  destruct (tick_storage_keys_are_kept book_wire text_size no_credentials 60
              book_channels tick_script) as (A & B & _).
  - exact I.
  - split; [exact A|exact B].
Defined.

Lemma tick_loop_left_only_by_its_condition_witness :
  let s' := tick_by_tick_delay_test_step book_wire text_size no_credentials 60
              book_channels collecting (Now 1) in
  k_phase s' = Checking /\
  (forall f, k_phase s' = Finished f -> k_phase collecting = Checking).
Proof.
  destruct (tick_loop_left_only_by_its_condition book_wire text_size no_credentials 60
              book_channels collecting (Now 1)) as (A & _ & C).
  - right. right. exists "b1"%string. reflexivity.
  - split.
    + apply (C "b1"%string 1); reflexivity.
    + intros f F. apply (A f F).
Defined.

Lemma stress_run_without_duration_counts_nothing_witness :
  let st := stress_test wire no_credentials tester_init 2 0 one_message_in in
  Forall (fun s => connection_messages s = 0%nat /\ s_phase s <> Receiving /\
                   forall m, s_phase s <> Stamping m) (tasks st) /\
  total_messages (shared st) = 0%nat /\
  messages (shared st) = [].
Proof.
  apply (stress_run_without_duration_counts_nothing wire no_credentials tester_init 2 0
           one_message_in 0).
  - lia.
  - cbv [one_message_in schedule_monotone]. repeat split; discriminate.
Defined.



Lemma reconnections_are_paced_witness :
  let final := reconnection_test wire no_credentials tester_init 10 25 (Now 0 :: quiet_run) in
  let n := (reconnection_count (r_tester final) - reconnection_count tester_init)%nat in
  n = 3%nat /\
  n = length (intervals final) /\
  Forall (fun d => inject_Z 10 <= d)%Q (intervals final) /\
  ((1 <= n)%nat ->
   (0 < 25)%Z /\ (Qnat (n - 1) * inject_Z 10 < inject_Z 25)%Q).
Proof.
  split; [reflexivity|].
  apply (reconnections_are_paced wire no_credentials 10 25 tester_init (Now 0 :: quiet_run) 0).
  cbv [quiet_run quiet_session flat_map seq app clock_monotone]. repeat split; discriminate.
Defined.

(** The tester after one session that has stored two messages. *)
Definition after_two_messages : tester :=
  fst (single_connection_test wire no_credentials tester_init 0 stress_channels 60
         ([ConnectDone (Ok tt); SendDone (Ok tt); Now 0] ++ arrivals 1 first_two)).

Lemma statistics_keep_every_nonzero_latency_witness :
  let first := ((1 - 0 / 1000) * 1000)%Q in
  let second := ((1 - 500 / 1000) * 1000)%Q in
  fst (print_statistics after_two_messages) =
    [Totals 1 2 0; ChannelCount (JStr "ticker.BTC-PERPETUAL.100ms") 2;
     LatencyStatistics 2 (Qsum [first; second] / Qnat 2) second first] /\
  latencies_of (messages after_two_messages) = [first; second] /\
  In second (latencies_of (messages after_two_messages)) /\
  In first (latencies_of (messages after_two_messages)) /\
  (forall l, In l (latencies_of (messages after_two_messages)) ->
     second <= l /\ l <= first)%Q.
Proof.
  intros first second.
  split; [reflexivity|]. split; [reflexivity|].
  destruct (statistics_keep_every_nonzero_latency after_two_messages 2
              (Qsum [first; second] / Qnat 2) second first) as (_ & _ & _ & A & B & C).
  - right. right. left. reflexivity.
  - split; [exact A|]. split; [exact B|exact C].
Defined.

(** A tick whose price came as a JSON string. *)
Definition quoted_tick : tick_info :=
  {| tick_number := 1; tick_channel := JStr "ticker.BTC-PERPETUAL.100ms";
     receive_time := 0; server_timestamp := JNum 0; delay_ms := Some 20;
     data_size := 200; price := JStr "50000"; volume := JNull; bid_price := JNull;
     ask_price := JNull |}.

Lemma analysis_needs_numeric_prices_witness :
  let report :=
    _analyze_tick_data [("ticker.BTC-PERPETUAL.100ms"%string, [quoted_tick])] 60 in
  snd report = Raise ValueError /\
  (exists e, snd report = Raise e) /\
  ~ In (PerformanceRating "EXCELLENT") (fst report).
Proof.
  split; [reflexivity|].
  destruct (analysis_needs_numeric_prices
              [("ticker.BTC-PERPETUAL.100ms"%string, [quoted_tick])] 60) as [_ H].
  destruct (H "ticker.BTC-PERPETUAL.100ms"%string [quoted_tick] quoted_tick
              "50000"%string) as (E & L & _).
  - left. reflexivity.
  - left. reflexivity.
  - reflexivity.
  - discriminate.
  - split; [exact E|]. intro Hin. exact (L _ Hin).
Defined.
